(** * api-front: a shallow embedding of [proxy/server.go]

    The gateway binds every enabled API to a path prefix, fans an inbound
    request out to every host of the API (one goroutine per host, joined by
    a [sync.WaitGroup]) and relays the answer of the master host only.

    Conventions of the embedding.
    - Go strings are byte strings: [string] of the Standard Library.
    - Go maps are [gmap]s; [http.Header] and [url.Values] are
      [gmap string (list string)].
    - The goroutines of one request are run by an explicit scheduler: every
      statement of a goroutine is one atomic step and a schedule picks the
      goroutine that moves next (sequentially consistent interleaving).
    - Code of the repository that lives in other files is either a field of
      the classes [Store] and [Engine] (a parameter of every function that
      calls it) or a definition whose comment starts with "Modelled from
      the spec".
    - The definitions come first, the theorems follow. *)

From stdpp Require Import gmap strings list fin_maps.
From Stdlib Require Import Ascii String ZArith Lia.

Local Open Scope string_scope.
Local Open Scope list_scope.
Local Open Scope Z_scope.

(** ** Go standard library: [strings], [path/filepath], [strconv] *)

Module GoStrings.

(** [strings.HasPrefix(s, prefix)] *)
Definition HasPrefix (s pre : string) : bool := String.prefix pre s.

(** [strings.HasSuffix(s, suffix)]:
    [len(s) >= len(suffix) && s[len(s)-len(suffix):] == suffix] *)
Definition HasSuffix (s suffix : string) : bool :=
  (String.length suffix <=? String.length s)%nat &&
  String.eqb
    (substring (String.length s - String.length suffix)
               (String.length suffix) s)
    suffix.

Definition in_cutset (cutset : string) (c : ascii) : bool :=
  existsb (Ascii.eqb c) (list_ascii_of_string cutset).

(** [strings.TrimLeft(s, cutset)]: drops every leading byte that occurs in
    [cutset].  (Go works on runes; for an ASCII cutset that is the same.) *)
Fixpoint TrimLeft (s cutset : string) : string :=
  match s with
  | EmptyString => EmptyString
  | String c s' => if in_cutset cutset c then TrimLeft s' cutset else s
  end.

(** [strings.TrimRight(s, cutset)]: drops every trailing byte that occurs
    in [cutset]. *)
Fixpoint TrimRight (s cutset : string) : string :=
  match s with
  | EmptyString => EmptyString
  | String c s' =>
      match TrimRight s' cutset with
      | EmptyString =>
          if in_cutset cutset c then EmptyString else String c EmptyString
      | r => String c r
      end
  end.

(** [strings.TrimSuffix(s, suffix)], the function that removes one literal
    suffix; the source does not call it, the analysis of [loadAllApis]
    compares against it. *)
Definition TrimSuffix (s suffix : string) : string :=
  if HasSuffix s suffix
  then substring 0 (String.length s - String.length suffix) s
  else s.

(** [s[n:]]; Go panics when [n > len(s)]. *)
Definition slice_from (s : string) (n : nat) : option string :=
  if (n <=? String.length s)%nat
  then Some (substring n (String.length s - n) s)
  else None.

Fixpoint rev_acc (acc s : string) : string :=
  match s with
  | EmptyString => acc
  | String c s' => rev_acc (String c acc) s'
  end.

(** [strings.Split(s, sep)] for a non-empty [sep]; [skip] counts the bytes
    of a separator that was just matched and [cur] is the current piece,
    reversed. *)
Fixpoint split_aux (sep : string) (skip : nat) (cur s : string)
  : list string :=
  match s with
  | EmptyString => [rev_acc EmptyString cur]
  | String c s' =>
      match skip with
      | S k => split_aux sep k cur s'
      | O =>
          if String.prefix sep s
          then rev_acc EmptyString cur
                 :: split_aux sep (String.length sep - 1) EmptyString s'
          else split_aux sep 0 (String c cur) s'
      end
  end.

Definition Split (s sep : string) : list string :=
  split_aux sep 0 EmptyString s.

End GoStrings.

Module GoFilepath.

Definition slash : ascii := "/"%char.

Fixpoint has_slash (s : string) : bool :=
  match s with
  | EmptyString => false
  | String c s' => Ascii.eqb c slash || has_slash s'
  end.

(** the part of [s] behind its last slash *)
Fixpoint last_elem (s : string) : string :=
  match s with
  | EmptyString => EmptyString
  | String c s' =>
      if has_slash s' then last_elem s'
      else if Ascii.eqb c slash then s' else s
  end.

(** [filepath.Base(path)] on a slash-separated system. *)
Definition Base (path : string) : string :=
  if String.eqb path "" then "."
  else
    let p := GoStrings.TrimRight path "/" in
    let b := last_elem p in
    if String.eqb b "" then "/" else b.

(** [filepath.Match] restricted to patterns with literal bytes and [*];
    a star matches any run of bytes other than the separator. *)
Fixpoint glob_match (pat s : list ascii) {struct pat} : bool :=
  match pat with
  | [] => match s with [] => true | _ => false end
  | p :: pat' =>
      if Ascii.eqb p "*"%char then
        (fix star (s : list ascii) : bool :=
           glob_match pat' s ||
           match s with
           | [] => false
           | c :: s' => negb (Ascii.eqb c slash) && star s'
           end) s
      else
        match s with
        | [] => false
        | c :: s' => Ascii.eqb p c && glob_match pat' s'
        end
  end.

Definition Match (pattern name : string) : bool :=
  glob_match (list_ascii_of_string pattern) (list_ascii_of_string name).

End GoFilepath.

Module GoStrconv.

Definition digit (c : ascii) : option Z :=
  let n := Z.of_nat (nat_of_ascii c) in
  if (48 <=? n) && (n <=? 57) then Some (n - 48) else None.

Fixpoint digits (acc : Z) (s : string) : option Z :=
  match s with
  | EmptyString => Some acc
  | String c s' =>
      match digit c with
      | Some d => digits (10 * acc + d) s'
      | None => None
      end
  end.

Definition unsigned (s : string) : option Z :=
  match s with
  | EmptyString => None
  | _ => digits 0 s
  end.

(** [strconv.ParseInt(s, 10, 64)]: an optional sign, decimal digits, and
    the value has to fit [int64]. *)
Definition ParseInt (s : string) : option Z :=
  let r :=
    match s with
    | String "-"%char s' => Z.opp <$> unsigned s'
    | String "+"%char s' => unsigned s'
    | _ => unsigned s
    end in
  match r with
  | Some n =>
      if (- 2 ^ 63 <=? n) && (n <? 2 ^ 63) then Some n else None
  | None => None
  end.

End GoStrconv.

(** ** [net/http]: headers and the server's [ResponseWriter] *)

Abbreviation Header := (gmap string (list string)).

Module GoHttp.

Definition is_lower (c : ascii) : bool :=
  let n := nat_of_ascii c in (97 <=? n)%nat && (n <=? 122)%nat.
Definition is_upper (c : ascii) : bool :=
  let n := nat_of_ascii c in (65 <=? n)%nat && (n <=? 90)%nat.
Definition is_digit (c : ascii) : bool :=
  let n := nat_of_ascii c in (48 <=? n)%nat && (n <=? 57)%nat.
Definition to_upper (c : ascii) : ascii :=
  if is_lower c then ascii_of_nat (nat_of_ascii c - 32) else c.
Definition to_lower (c : ascii) : ascii :=
  if is_upper c then ascii_of_nat (nat_of_ascii c + 32) else c.

(** the bytes [textproto] accepts in a header field name *)
Definition validHeaderFieldByte (c : ascii) : bool :=
  is_lower c || is_upper c || is_digit c ||
  GoStrings.in_cutset "!#$%&'*+-.^_`|~" c.

Fixpoint canon_aux (upper : bool) (s : string) : string :=
  match s with
  | EmptyString => EmptyString
  | String c s' =>
      String (if upper then to_upper c else to_lower c)
             (canon_aux (Ascii.eqb c "-"%char) s')
  end.

(** [http.CanonicalHeaderKey]: a name with a byte that is not allowed is
    returned unchanged, otherwise the first letter and every letter after
    a hyphen is upper case and the rest is lower case. *)
Definition CanonicalHeaderKey (s : string) : string :=
  if forallb validHeaderFieldByte (list_ascii_of_string s)
  then canon_aux true s else s.

Definition values (h : Header) (key : string) : list string :=
  default [] (h !! key).

(** [h.Set(key, value)] *)
Definition Set_ (h : Header) (key value : string) : Header :=
  <[CanonicalHeaderKey key := [value]]> h.

(** [h.Add(key, value)] *)
Definition Add (h : Header) (key value : string) : Header :=
  <[CanonicalHeaderKey key :=
      values h (CanonicalHeaderKey key) ++ [value]]> h.

(** [h.Del(key)] *)
Definition Del (h : Header) (key : string) : Header :=
  delete (CanonicalHeaderKey key) h.

Definition StatusOK : Z := 200.
Definition StatusBadGateway : Z := 502.

(** The [http.ResponseWriter] of the server: [Header()] is a live map,
    the first [WriteHeader] fixes the status and a snapshot of the map,
    and the first [Write] calls [WriteHeader(200)] before it appends. *)
Record ResponseWriter := {
  handlerHeader : Header;
  wroteHeader : option (Z * Header);
  written : string
}.

Definition fresh : ResponseWriter :=
  {| handlerHeader := ∅; wroteHeader := None; written := "" |}.

Definition HeaderSet (rw : ResponseWriter) (key value : string) :=
  {| handlerHeader := Set_ (handlerHeader rw) key value;
     wroteHeader := wroteHeader rw;
     written := written rw |}.

Definition HeaderAdd (rw : ResponseWriter) (key value : string) :=
  {| handlerHeader := Add (handlerHeader rw) key value;
     wroteHeader := wroteHeader rw;
     written := written rw |}.

Definition WriteHeader (rw : ResponseWriter) (code : Z) :=
  match wroteHeader rw with
  | Some _ => rw
  | None =>
      {| handlerHeader := handlerHeader rw;
         wroteHeader := Some (code, handlerHeader rw);
         written := written rw |}
  end.

Definition Write (rw : ResponseWriter) (data : string) :=
  let rw := WriteHeader rw StatusOK in
  {| handlerHeader := handlerHeader rw;
     wroteHeader := wroteHeader rw;
     written := written rw +:+ data |}.

(** What the client receives once the handler has returned: the server
    sends status 200 and the header map as it is then, if the handler
    never wrote. *)
Record ClientResponse := {
  status : Z;
  header : Header;
  body : string
}.

Definition finish (rw : ResponseWriter) : ClientResponse :=
  match wroteHeader rw with
  | Some (code, h) => {| status := code; header := h; body := written rw |}
  | None =>
      {| status := StatusOK; header := handlerHeader rw; body := "" |}
  end.

(** the inbound [*http.Request], the fields the proxy reads *)
Record Request := {
  Method : string;
  URL_Path : string;
  URL_RawQuery : string;
  URL_String : string;
  ReqHeader : Header;
  Body : string;
  RemoteAddr : string
}.

(** the outbound request, with the [Timeout] of the client that sends it *)
Record ClientRequest := {
  c_Method : string;
  c_URL : string;
  c_Header : Header;
  c_Body : string;
  c_TimeoutMs : Z
}.

(** [*http.Response] of an upstream *)
Record Response := {
  StatusCode : Z;
  RespHeader : Header;
  RespBody : string
}.

End GoHttp.

(** ** Data model: hosts, caller rules, API definitions *)

Module Host.
Record t := {
  Name : string;
  Url : string;
  Enable : bool;
  Note : string
}.
End Host.

Module CallerItem.
Record t := {
  Ip : string;
  Note : string;
  Enable : bool;
  Pref : list string;
  Ignore : list string
}.
End CallerItem.

(** [Caller], the registry of caller rules of one API, keyed by IP *)
Abbreviation Caller := (gmap string CallerItem.t).

Module Api.
Record t := {
  Name : string;
  Path : string;
  Hosts : list Host.t;
  Caller_ : Caller;
  TimeoutMs : Z;
  Enable : bool;
  Note : string
}.
End Api.

(** [NewHost(name, url, enable)] *)
Definition NewHost (name url : string) (enable : bool) : Host.t :=
  {| Host.Name := name; Host.Url := url; Host.Enable := enable;
     Host.Note := "" |}.

(** ** Routing table *)

(** The closure [newHandler(api)] returns, kept as the two values it
    captures: [bindPath] (copied when the closure is made) and the API. *)
Inductive Handler :=
| FanoutHandler (bindPath : string) (api : Api.t).

Module RouterItem.
Record t := {
  ApiName : string;
  Path : string;
  Hander : Handler
}.
End RouterItem.

Abbreviation Routers := (gmap string RouterItem.t).

(** Modelled from the spec: [NewRouterItem], [NewRouters], [BindRouter] and
    [GetRouterByReqPath] are in a file that is not part of the sources read
    here.  Section 4.1: bind registers or replaces the handler for an exact
    prefix string; resolve returns the handler whose bound prefix is a
    prefix of the path, the longest one when several match. *)
Definition NewRouterItem (apiName path : string) (h : Handler)
  : RouterItem.t :=
  {| RouterItem.ApiName := apiName; RouterItem.Path := path;
     RouterItem.Hander := h |}.

Definition NewRouters : Routers := ∅.

Definition BindRouter (rs : Routers) (path : string) (router : RouterItem.t)
  : Routers :=
  <[path := router]> rs.

Definition longer (reqPath : string) (best : option (string * RouterItem.t))
  (e : string * RouterItem.t) : option (string * RouterItem.t) :=
  if GoStrings.HasPrefix reqPath e.1 then
    match best with
    | None => Some e
    | Some b =>
        if (String.length b.1 <? String.length e.1)%nat then Some e else best
    end
  else best.

Definition GetRouterByReqPath (rs : Routers) (reqPath : string)
  : option RouterItem.t :=
  snd <$> foldl (longer reqPath) None (map_to_list rs).

(** ** The API registry: [ApiServer], [loadApi], [loadAllApis], [deleteApi] *)

(** [url.Values] and the form of a request *)
Abbreviation Values := (gmap string (list string)).

(** [v.Get(key)] and [req.FormValue(key)]: the first value, or [""] *)
Definition Get (v : Values) (key : string) : string :=
  hd "" (default [] (v !! key)).

(** [v[key]] of a Go map: the empty slice when the key is absent *)
Definition index (v : Values) (key : string) : list string :=
  default [] (v !! key).

(** Persistence and the editing operations of [Api], which the files read
    here call but do not define.  [Disk] is the state of the configuration
    directory. *)
Class Store := {
  Disk : Type;
  (** [LoadApiByConf(confDir, apiName)] *)
  LoadApiByConf : Disk → string → string → Api.t + string;
  (** [api.Save()] *)
  Save : Disk → Api.t → Disk + string;
  (** [api.Delete()] *)
  Delete : Disk → Api.t → Disk;
  (** [filepath.Glob(pattern)] *)
  Glob : Disk → string → list string;
  (** [NewApi(confDir, apiName)] *)
  NewApi : string → string → Api.t;
  (** [hosts.AddNewHost(host)] *)
  AddNewHost : list Host.t → Host.t → list Host.t;
  (** [api.HostRename(orig, name)] *)
  HostRename : Api.t → string → string → Api.t;
  (** [api.HostCheckDelete(names)] *)
  HostCheckDelete : Api.t → list string → Api.t;
  (** [url.ParseQuery(qs)], the error dropped as the caller does *)
  ParseQuery : string → Values
}.

(** what [log.Println] and [log.Printf] record; the text layout of a line
    is not modelled *)
Inductive LogEntry :=
| LogLoadFailed (apiName err : string)
| LogLoadSuccess (apiName : string)
| LogBindPath (port : Z) (apiName bindPath : string)
| LogNotEnabled (apiName : string).

Record ApiServer := {
  Apis : gmap string Api.t;
  ConfDir : string;
  routers : Routers;
  Port : Z
}.

Record World `{St : Store} := {
  server : ApiServer;
  disk : Disk;
  logs : list LogEntry
}.

Definition set_Apis (s : ApiServer) (apis : gmap string Api.t) : ApiServer :=
  {| Apis := apis; ConfDir := ConfDir s; routers := routers s;
     Port := Port s |}.

Definition set_routers (s : ApiServer) (rs : Routers) : ApiServer :=
  {| Apis := Apis s; ConfDir := ConfDir s; routers := rs; Port := Port s |}.

Definition set_server `{St : Store} (w : World) (s : ApiServer) : World :=
  {| server := s; disk := disk w; logs := logs w |}.

Definition set_disk `{St : Store} (w : World) (d : Disk) : World :=
  {| server := server w; disk := d; logs := logs w |}.

Definition log `{St : Store} (w : World) (e : LogEntry) : World :=
  {| server := server w; disk := disk w; logs := logs w ++ [e] |}.

(** [apiServer.newHandler(api)]: logs the bind path and returns the closure *)
Definition newHandler `{St : Store} (w : World) (api : Api.t) : World * Handler :=
  let bindPath := Api.Path api in
  (log w (LogBindPath (Port (server w)) (Api.Name api) bindPath),
   FanoutHandler bindPath api).

(** [apiServer.loadApi(apiName)]; the second component is the error *)
Definition loadApi `{St : Store} (w : World) (apiName : string)
  : World * option string :=
  match LoadApiByConf (disk w) (ConfDir (server w)) apiName with
  | inr err => (log w (LogLoadFailed apiName err), Some err)
  | inl api =>
      let w := log w (LogLoadSuccess apiName) in
      let w := set_server w (set_Apis (server w)
                               (<[apiName := api]> (Apis (server w)))) in
      if Api.Enable api then
        let '(w, h) := newHandler w api in
        let router := NewRouterItem apiName (Api.Path api) h in
        (set_server w (set_routers (server w)
                         (BindRouter (routers (server w)) (Api.Path api)
                                     router)),
         None)
      else (log w (LogNotEnabled apiName), None)
  end.

(** the name [loadAllApis] derives from a file name *)
Definition apiName_of (fileName : string) : string :=
  GoStrings.TrimRight (GoFilepath.Base fileName) ".json".

(** [apiServer.loadAllApis()] *)
Definition loadAllApis `{St : Store} (w : World) : World :=
  let fileNames := Glob (disk w) (ConfDir (server w) +:+ "/*.json") in
  foldl (fun w fileName => (loadApi w (apiName_of fileName)).1) w fileNames.

(** [apiServer.deleteApi(apiName)] *)
Definition deleteApi `{St : Store} (w : World) (apiName : string) : World :=
  match Apis (server w) !! apiName with
  | None => w
  | Some api =>
      let w := set_disk w (Delete (disk w) api) in
      set_server w (set_Apis (server w) (delete apiName (Apis (server w))))
  end.

(** [apiServer.newApi(apiName)] *)
Definition newApi `{St : Store} (w : World) (apiName : string) : Api.t :=
  NewApi (ConfDir (server w)) apiName.

(** [apiServer.getApiByName(name)] *)
Definition getApiByName `{St : Store} (w : World) (name : string)
  : option Api.t :=
  Apis (server w) !! name.

(** [apiServer.ServeHTTP]: which of the two handlers serves the request *)
Inductive Served :=
| ByRouter (router : RouterItem.t)
| ByWebAdmin.

Definition ServeHTTP (apiServer : ApiServer) (req : GoHttp.Request)
  : Served :=
  match GetRouterByReqPath (routers apiServer) (GoHttp.URL_Path req) with
  | Some router => ByRouter router
  | None => ByWebAdmin
  end.

(** ** The administrative save paths: [apiBaseSave], [apiCallerSave] *)

(** what a save writes to the administrative client *)
Inductive AdminOut :=
| Alert (msg : string)
| AlertAndGo (msg urlstr : string)
| Json (code : Z) (msg : string).

Definition web_tmp_name : string := "tpl_api_proxy".

Definition newline : string := String (ascii_of_nat 10) EmptyString.

Definition set_Hosts (a : Api.t) (hs : list Host.t) : Api.t :=
  {| Api.Name := Api.Name a; Api.Path := Api.Path a; Api.Hosts := hs;
     Api.Caller_ := Api.Caller_ a; Api.TimeoutMs := Api.TimeoutMs a;
     Api.Enable := Api.Enable a; Api.Note := Api.Note a |}.

Definition set_Caller (a : Api.t) (c : Caller) : Api.t :=
  {| Api.Name := Api.Name a; Api.Path := Api.Path a;
     Api.Hosts := Api.Hosts a; Api.Caller_ := c;
     Api.TimeoutMs := Api.TimeoutMs a; Api.Enable := Api.Enable a;
     Api.Note := Api.Note a |}.

(** [api.Note = ..; api.TimeoutMs = ..; api.Enable = ..; api.Path = ..] *)
Definition set_base (a : Api.t) (note : string) (timeout : Z)
  (enable : bool) (path : string) : Api.t :=
  {| Api.Name := Api.Name a; Api.Path := path; Api.Hosts := Api.Hosts a;
     Api.Caller_ := Api.Caller_ a; Api.TimeoutMs := timeout;
     Api.Enable := enable; Api.Note := note |}.

Definition set_Note (h : Host.t) (note : string) : Host.t :=
  {| Host.Name := Host.Name h; Host.Url := Host.Url h;
     Host.Enable := Host.Enable h; Host.Note := note |}.

(** The duplicate check of [apiBaseSave]:
[[
  tmp := make(map[string]string)
  for _, val := range host_name {
      if _, has := tmp[val]; has { wr.alert(...); return }
  }
]]
    The loop body has no other statement: [tmp] is passed on as it is. *)
Fixpoint host_name_check (tmp : gmap string string) (host_name : list string)
  : option AdminOut :=
  match host_name with
  | [] => None
  | val :: rest =>
      match tmp !! val with
      | Some _ => Some (Alert ("别名:" +:+ val +:+ "，重复了"))
      | None => host_name_check tmp rest
      end
  end.

(** The loop that builds the hosts; [None] is the panic of an index out of
    range in [host_url[i]], [host_note[i]] or [host_name_orig[i]]. *)
Fixpoint host_loop `{St : Store} (api : Api.t) (i : nat) (names : list string)
  (host_name_orig host_url host_note : list string) : option Api.t :=
  match names with
  | [] => Some api
  | name :: rest =>
      if String.eqb name "" || String.eqb name web_tmp_name
      then host_loop api (S i) rest host_name_orig host_url host_note
      else
        match host_url !! i, host_note !! i, host_name_orig !! i with
        | Some url, Some note, Some name_orig =>
            let host := set_Note (NewHost name url true) note in
            let api := set_Hosts api (AddNewHost (Api.Hosts api) host) in
            let api := HostRename api name_orig name in
            host_loop api (S i) rest host_name_orig host_url host_note
        | _, _, _ => None
        end
  end.

(** An API object that came out of the registry is edited in place: the
    registry sees the edit at once. *)
Definition write_through `{St : Store} (w : World) (registered : bool)
  (apiName : string) (api : Api.t) : World :=
  if registered
  then set_server w (set_Apis (server w)
                       (<[apiName := api]> (Apis (server w))))
  else w.

(** [wr.apiBaseSave()]; [None] is a panic. *)
Definition apiBaseSave `{St : Store} (w : World) (form postForm : Values)
  : option (World * list AdminOut) :=
  match GoStrconv.ParseInt (Get form "timeout") with
  | None => Some (w, [Alert "超时时间错误,不是int"])
  | Some timeout =>
      let apiName := Get form "api_name" in
      let found := getApiByName w apiName in
      let api_name_orig := Get form "api_name_orig" in
      if String.eqb api_name_orig "" && bool_decide (is_Some found)
      then Some (w, [Alert "失败：新创建的模块已经存在"])
      else
        let registered := bool_decide (is_Some found) in
        let api := default (newApi w apiName) found in
        let host_name := index postForm "host_name" in
        let host_name_orig := index postForm "host_name_orig" in
        let host_url := index postForm "host_url" in
        let host_note := index postForm "host_note" in
        match host_name_check ∅ host_name with
        | Some out => Some (w, [out])
        | None =>
            match host_loop api 0 host_name host_name_orig host_url
                            host_note with
            | None => None
            | Some api =>
                let api := HostCheckDelete api host_name in
                let out :=
                  if bool_decide (List.length host_name ≠ List.length host_url) ||
                     bool_decide (List.length host_name ≠ List.length host_note)
                  then [Alert "保存失败：后端服务数据错误"] else [] in
                let api :=
                  set_base api (Get form "note") timeout
                           (String.eqb (Get form "enable") "1")
                           (Get form "path") in
                let w := write_through w registered apiName api in
                let w :=
                  if String.eqb api_name_orig apiName then w
                  else deleteApi w api_name_orig in
                match Save (disk w) api with
                | inr err => Some (w, out ++ [Alert ("保存失败：" +:+ err)])
                | inl d =>
                    let w := set_disk w d in
                    let w := (loadApi w apiName).1 in
                    Some (w, out ++ [AlertAndGo "已经更新！"
                                       ("/_api?name=" +:+ apiName)])
                end
            end
        end
  end.

(** Modelled from the spec: [NewCaller], [NewCallerItem],
    [AddNewCallerItem] and [In_StringSlice] are defined in files that are
    not part of the sources read here.  Section 3: the caller registry is a
    mapping from IP to caller item with unique keys, and a fresh item has no
    preference and ignores nothing. *)
Definition NewCaller : Caller := ∅.

Definition NewCallerItem (ip : string) : CallerItem.t :=
  {| CallerItem.Ip := ip; CallerItem.Note := ""; CallerItem.Enable := true;
     CallerItem.Pref := []; CallerItem.Ignore := [] |}.

Definition AddNewCallerItem (c : Caller) (item : CallerItem.t) : Caller :=
  <[CallerItem.Ip item := item]> c.

Definition In_StringSlice (x : string) (l : list string) : bool :=
  bool_decide (x ∈ l).

(** the item [apiCallerSave] builds from one query string, before the
    conflict check *)
Definition caller_item_of (qv : Values) : CallerItem.t :=
  let item := NewCallerItem (Get qv "ip") in
  {| CallerItem.Ip := CallerItem.Ip item;
     CallerItem.Note := Get qv "note";
     CallerItem.Enable := String.eqb (Get qv "enable") "1";
     CallerItem.Pref :=
       if String.eqb (Get qv "host_names") "" then CallerItem.Pref item
       else index qv "host_names";
     CallerItem.Ignore :=
       if String.eqb (Get qv "host_ignore") "" then CallerItem.Ignore item
       else index qv "host_ignore" |}.

(** the first [ignoreName] of [item.Ignore] that is also in [item.Pref] *)
Definition conflict (item : CallerItem.t) : option string :=
  find (λ ignoreName, In_StringSlice ignoreName (CallerItem.Pref item))
       (CallerItem.Ignore item).

(** the loop over [datas]: the callers built, or the rejection *)
Fixpoint caller_loop `{St : Store} (callers : Caller) (datas : list string)
  : Caller + AdminOut :=
  match datas with
  | [] => inl callers
  | qs :: rest =>
      let qv := ParseQuery qs in
      let item := caller_item_of qv in
      match
        (if String.eqb (Get qv "host_ignore") "" then None
         else conflict item)
      with
      | Some ignoreName =>
          inr (Json 1 ("配置冲突(" +:+ CallerItem.Ip item +:+ ")" +:+
                       newline +:+ "屏蔽:" +:+ ignoreName))
      | None => caller_loop (AddNewCallerItem callers item) rest
      end
  end.

(** [wr.apiCallerSave()] *)
Definition apiCallerSave `{St : Store} (w : World) (form : Values)
  : World * list AdminOut :=
  let apiName := Get form "api_name" in
  match getApiByName w apiName with
  | None => (w, [Alert "api模块不存在"])
  | Some api =>
      let datas := index form "datas[]" in
      match caller_loop NewCaller datas with
      | inr out => (w, [out])
      | inl callers =>
          let api := set_Caller api callers in
          let w := write_through w true apiName api in
          match Save (disk w) api with
          | inr err => (w, [Json 1 ("保存配置失败:" +:+ err)])
          | inl d =>
              let w := set_disk w d in
              let w := (loadApi w apiName).1 in
              (w, [Json 0 "已经更新！"])
          end
      end
  end.

(** ** Caller rules and master selection *)

(** Modelled from the spec: [getCallerItemByIp], [IsHostIgnore] and
    [GetMasterHostName] are defined in files that are not part of the
    sources read here.  Section 4.2 names them [resolveCaller], [isIgnored]
    and [selectMaster]: the item of an unknown IP is a default item, a host
    is ignored when its name is in [ignore], and the master is the first
    name of [pref] that is a host of the API and not ignored, or else the
    first host of the API. *)
Definition resolveCaller (c : Caller) (ip : string) : CallerItem.t :=
  default (NewCallerItem ip) (c !! ip).

Definition isIgnored (item : CallerItem.t) (hostName : string) : bool :=
  bool_decide (hostName ∈ CallerItem.Ignore item).

Definition eligible (api : Api.t) (item : CallerItem.t) (name : string)
  : bool :=
  bool_decide (name ∈ Host.Name <$> Api.Hosts api) &&
  negb (isIgnored item name).

Definition selectMaster (api : Api.t) (item : CallerItem.t) : string :=
  match find (eligible api item) (CallerItem.Pref item) with
  | Some name => name
  | None =>
      match Api.Hosts api with
      | h :: _ => Host.Name h
      | [] => ""
      end
  end.

(** ** The fan-out engine: the closure of [newHandler] *)

(** What the engine calls but the files read here do not define, and the
    network.  [Do host r] is the outcome of [httpClient.Do(reqNew)] issued
    by the goroutine of [host]: a response, or the text of the error (a
    refused connection, the deadline of the client, ...). *)
Class Engine := {
  CallerPrefConf : Type;
  (** [cpf.Ip] *)
  cpf_Ip : CallerPrefConf → string;
  NewCallerPrefConfByHttpRequest : GoHttp.Request → CallerPrefConf;
  (** [api.GetMasterHostName(cpf)] *)
  GetMasterHostName : Api.t → CallerPrefConf → string;
  (** [api.Caller.getCallerItemByIp(ip)] *)
  getCallerItemByIp : Caller → string → CallerItem.t;
  (** [caller.IsHostIgnore(name)] *)
  IsHostIgnore : CallerItem.t → string → bool;
  (** [copyHeaders(dst, src)]: the map [dst] afterwards *)
  copyHeaders : Header → Header → Header;
  (** whether [http.NewRequest(method, url, body)] returns a request; the
      source drops the error and uses the result *)
  NewRequest_ok : string → string → bool;
  Do : Host.t → GoHttp.ClientRequest → GoHttp.Response + string
}.

(** the values of [map[string]interface{}] the engine stores; the elapsed
    time is kept as a number of clock ticks, not as the text ["%.3f ms"] *)
Inductive LogVal :=
| LBool (b : bool)
| LStr (s : string)
| LUsed (ticks : nat).

(** the statements of one goroutine; each is one atomic step *)
Inductive Op :=
| OStart                              (** [start := time.Now()] *)
| OLogData (key : string)             (** [logData[key] = backLog] *)
| OBackLog (key : string) (v : LogVal)  (** [backLog[key] = v] *)
| ODo (r : GoHttp.ClientRequest)      (** [httpClient.Do(reqNew)] *)
| OHeaderSet (key value : string)     (** [rw.Header().Set(key, value)] *)
| OHeaderAdd (key value : string)     (** [rw.Header().Add(key, value)] *)
| OWriteHeader (code : Z)             (** [rw.WriteHeader(code)] *)
| OWrite (data : string)              (** [rw.Write(data)] *)
| OLogFetch (url err : string)        (** [log.Println("fetch "+url, err)] *)
| OUsed                               (** [backLog["used"] = now - start] *)
| OPanic                              (** a nil [reqNew] is dereferenced *)
| ODone.                              (** the deferred [wg.Done()] *)

(** what the closure computes before it starts the goroutines *)
Record Ctx := {
  c_api : Api.t;
  c_req : GoHttp.Request;           (** [req], [Connection] removed *)
  c_relPath : string;
  c_body : string;
  c_masterHost : string;
  c_addrInfo : list string;
  c_caller : CallerItem.t
}.

(** [isMaster := masterHost == api_host.Name] *)
Definition isMaster (masterHost : string) (api_host : Host.t) : bool :=
  String.eqb masterHost (Host.Name api_host).

(** [urlNew] *)
Definition urlNew (c : Ctx) (api_host : Host.t) : string :=
  let u := Host.Url api_host in
  let u :=
    if GoStrings.HasSuffix u "/"
    then u +:+ GoStrings.TrimLeft (c_relPath c) "/"
    else u +:+ c_relPath c in
  if String.eqb (GoHttp.URL_RawQuery (c_req c)) "" then u
  else u +:+ "?" +:+ GoHttp.URL_RawQuery (c_req c).

(** [reqNew] after [copyHeaders] and the forwarded-for header *)
Definition reqNew `{E : Engine} (c : Ctx) (api_host : Host.t)
  : GoHttp.ClientRequest :=
  {| GoHttp.c_Method := GoHttp.Method (c_req c);
     GoHttp.c_URL := urlNew c api_host;
     GoHttp.c_Header :=
       GoHttp.Set_ (copyHeaders ∅ (GoHttp.ReqHeader (c_req c)))
                   "HTTP_X_FORWARDED_FOR" (hd "" (c_addrInfo c));
     GoHttp.c_Body := c_body c;
     GoHttp.c_TimeoutMs := Api.TimeoutMs (c_api c) |}.

(** [for k, vs := range resp.Header { for _, v := range vs { Add(k, v) } }] *)
Definition add_all (h : Header) : list Op :=
  flat_map (λ kv, OHeaderAdd kv.1 <$> kv.2) (map_to_list h).

(** [io.Copy(rw, resp.Body)]: the body is written unless it is empty *)
Definition io_Copy (data : string) : list Op :=
  if String.eqb data "" then [] else [OWrite data].

(** the body of [go (func(api_host *Host, ...) { ... })(api_host, rw, req)] *)
Definition goroutine `{E : Engine} (c : Ctx) (api_host : Host.t) : list Op :=
  let master := isMaster (c_masterHost c) api_host in
  [OStart;
   OLogData ("host_" +:+ Host.Name api_host);
   OBackLog "isMaster" (LBool master)] ++
  (if IsHostIgnore (c_caller c) (Host.Name api_host)
   then [OBackLog "ignore" (LBool true)]
   else
     let url := urlNew c api_host in
     OBackLog "url" (LStr url) ::
     (if NewRequest_ok (GoHttp.Method (c_req c)) url then
        ODo (reqNew c api_host) ::
        OHeaderSet "Server" "api-proxy" ::
        match Do api_host (reqNew c api_host) with
        | inr err =>
            OLogFetch url err ::
            (if master
             then [OWriteHeader GoHttp.StatusBadGateway;
                   OHeaderSet "api-url" url;
                   OWrite ("apiServer error:" +:+ err)]
             else [])
        | inl resp =>
            (if master
             then add_all (GoHttp.RespHeader resp) ++
                  [OHeaderSet "api-url" url] ++
                  io_Copy (GoHttp.RespBody resp)
             else []) ++
            [OUsed]
        end
      else [OPanic])) ++
  [ODone].

(** *** The scheduler *)

(** one goroutine: its host, the statements it has still to run, its local
    [start] and [backLog], and the time its [wg.Done()] ran *)
Record Thread := {
  t_host : Host.t;
  t_code : list Op;
  t_start : option nat;
  t_backLog : gmap string LogVal;
  t_done : option nat
}.

(** where the closure itself stands: in the [for] loop with the hosts it
    has still to start, in [wg.Wait()], or returned *)
Inductive Main :=
| Loop (rest : list Host.t)
| Wait
| Returned.

Inductive EngineLog :=
| ELUrl (url : string)
| ELFetch (url err : string)
| ELAccess (port : Z) (remoteAddr method uri master : string)
           (logData : gmap string (gmap string LogVal)).

(** The state of one request. [s_logData] maps a key to the goroutine whose
    [backLog] map was stored under it (the stored value is a reference).
    [s_calls] lists the upstream calls issued so far. *)
Record State := {
  s_main : Main;
  s_wg : nat;
  s_threads : list Thread;
  s_rw : GoHttp.ResponseWriter;
  s_logData : gmap string nat;
  s_calls : list (Host.t * GoHttp.ClientRequest);
  s_log : list EngineLog;
  s_now : nat;
  s_entered : nat;
  s_returned : option nat;
  s_panicked : bool
}.

Definition new_thread `{E : Engine} (c : Ctx) (h : Host.t) : Thread :=
  {| t_host := h; t_code := goroutine c h; t_start := None;
     t_backLog := ∅; t_done := None |}.

(** [logData] as the deferred log line prints it *)
Definition resolve_logData (s : State) : gmap string (gmap string LogVal) :=
  omap (λ i, t_backLog <$> s_threads s !! i) (s_logData s).

Definition uri (req : GoHttp.Request) : string :=
  if String.eqb (GoHttp.URL_RawQuery req) "" then GoHttp.URL_Path req
  else GoHttp.URL_Path req +:+ "?" +:+ GoHttp.URL_RawQuery req.

(** one step of the closure: start the next goroutine ([wg.Add(1); go ...]),
    leave the loop, or pass [wg.Wait()] when the counter is zero and run
    the deferred log line *)
Definition step_main `{E : Engine} (port : Z) (c : Ctx) (s : State) : State :=
  match s_main s with
  | Loop (h :: rest) =>
      {| s_main := Loop rest; s_wg := S (s_wg s);
         s_threads := s_threads s ++ [new_thread c h];
         s_rw := s_rw s; s_logData := s_logData s; s_calls := s_calls s;
         s_log := s_log s; s_now := s_now s; s_entered := s_entered s;
         s_returned := s_returned s; s_panicked := s_panicked s |}
  | Loop [] =>
      {| s_main := Wait; s_wg := s_wg s; s_threads := s_threads s;
         s_rw := s_rw s; s_logData := s_logData s; s_calls := s_calls s;
         s_log := s_log s; s_now := s_now s; s_entered := s_entered s;
         s_returned := s_returned s; s_panicked := s_panicked s |}
  | Wait =>
      match s_wg s with
      | O =>
          {| s_main := Returned; s_wg := s_wg s; s_threads := s_threads s;
             s_rw := s_rw s; s_logData := s_logData s;
             s_calls := s_calls s;
             s_log :=
               s_log s ++
               [ELAccess port (GoHttp.RemoteAddr (c_req c))
                         (GoHttp.Method (c_req c)) (uri (c_req c))
                         (c_masterHost c) (resolve_logData s)];
             s_now := s_now s; s_entered := s_entered s;
             s_returned := Some (s_now s); s_panicked := s_panicked s |}
      | S _ => s
      end
  | Returned => s
  end.

Definition set_threads (s : State) (ts : list Thread) : State :=
  {| s_main := s_main s; s_wg := s_wg s; s_threads := ts; s_rw := s_rw s;
     s_logData := s_logData s; s_calls := s_calls s; s_log := s_log s;
     s_now := s_now s; s_entered := s_entered s;
     s_returned := s_returned s; s_panicked := s_panicked s |}.

Definition set_rw (s : State) (rw : GoHttp.ResponseWriter) : State :=
  {| s_main := s_main s; s_wg := s_wg s; s_threads := s_threads s;
     s_rw := rw; s_logData := s_logData s; s_calls := s_calls s;
     s_log := s_log s; s_now := s_now s; s_entered := s_entered s;
     s_returned := s_returned s; s_panicked := s_panicked s |}.

(** the effect of a statement on the response writer *)
Definition rw_op (o : Op) (rw : GoHttp.ResponseWriter)
  : GoHttp.ResponseWriter :=
  match o with
  | OHeaderSet k v => GoHttp.HeaderSet rw k v
  | OHeaderAdd k v => GoHttp.HeaderAdd rw k v
  | OWriteHeader code => GoHttp.WriteHeader rw code
  | OWrite data => GoHttp.Write rw data
  | _ => rw
  end.

(** the effect of a statement on the goroutine that runs it *)
Definition thread_op (now : nat) (o : Op) (t : Thread) : Thread :=
  let t' (start : option nat) (bl : gmap string LogVal) (d : option nat) :=
    {| t_host := t_host t; t_code := tail (t_code t); t_start := start;
       t_backLog := bl; t_done := d |} in
  match o with
  | OStart => t' (Some now) (t_backLog t) (t_done t)
  | OBackLog k v => t' (t_start t) (<[k := v]> (t_backLog t)) (t_done t)
  | OUsed =>
      t' (t_start t)
         (<["used" := LUsed (now - default 0%nat (t_start t))]>
            (t_backLog t))
         (t_done t)
  | ODone => t' (t_start t) (t_backLog t) (Some now)
  | _ => t' (t_start t) (t_backLog t) (t_done t)
  end.

(** the effect of a statement of goroutine [i] on the rest of the state *)
Definition shared_op (i : nat) (t : Thread) (o : Op) (s : State) : State :=
  {| s_main := s_main s;
     s_wg := match o with ODone => pred (s_wg s) | _ => s_wg s end;
     s_threads := s_threads s;
     s_rw := rw_op o (s_rw s);
     s_logData :=
       match o with
       | OLogData key => <[key := i]> (s_logData s)
       | _ => s_logData s
       end;
     s_calls :=
       match o with
       | ODo r => s_calls s ++ [(t_host t, r)]
       | _ => s_calls s
       end;
     s_log :=
       match o with
       | OLogFetch url err => s_log s ++ [ELFetch url err]
       | _ => s_log s
       end;
     s_now := s_now s; s_entered := s_entered s;
     s_returned := s_returned s;
     s_panicked :=
       match o with OPanic => true | _ => s_panicked s end |}.

(** one step of goroutine [i]; nothing happens when it does not exist or
    has finished *)
Definition step_go (i : nat) (s : State) : State :=
  match s_threads s !! i with
  | Some t =>
      match t_code t with
      | o :: _ =>
          set_threads (shared_op i t o s)
                      (<[i := thread_op (s_now s) o t]> (s_threads s))
      | [] => s
      end
  | None => s
  end.

Inductive Who :=
| Closure
| Go (i : nat).

Definition tick (dt : nat) (s : State) : State :=
  {| s_main := s_main s; s_wg := s_wg s; s_threads := s_threads s;
     s_rw := s_rw s; s_logData := s_logData s; s_calls := s_calls s;
     s_log := s_log s; s_now := (s_now s + dt)%nat;
     s_entered := s_entered s; s_returned := s_returned s;
     s_panicked := s_panicked s |}.

(** One scheduling decision [(dt, who)]: the clock advances by [dt], then
    [who] makes a step.  A panic ends the process: nothing moves after it. *)
Definition step `{E : Engine} (port : Z) (c : Ctx) (s : State)
  (d : nat * Who) : State :=
  if s_panicked s then s
  else
    let s := tick d.1 s in
    match d.2 with
    | Closure => step_main port c s
    | Go i => step_go i s
    end.

Abbreviation Schedule := (list (nat * Who)).

Definition run `{E : Engine} (port : Z) (c : Ctx) (sched : Schedule) (s : State)
  : State :=
  foldl (step port c) s sched.

(** The statements of the closure before the loop; [None] is the panic of
    [req.URL.Path[len(bindPath):]] when the path is shorter than
    [bindPath]. *)
Definition enter `{E : Engine} (bindPath : string) (api : Api.t)
  (req : GoHttp.Request) : option Ctx :=
  match GoStrings.slice_from (GoHttp.URL_Path req) (String.length bindPath)
  with
  | None => None
  | Some relPath =>
      let req :=
        {| GoHttp.Method := GoHttp.Method req;
           GoHttp.URL_Path := GoHttp.URL_Path req;
           GoHttp.URL_RawQuery := GoHttp.URL_RawQuery req;
           GoHttp.URL_String := GoHttp.URL_String req;
           GoHttp.ReqHeader := GoHttp.Del (GoHttp.ReqHeader req) "Connection";
           GoHttp.Body := GoHttp.Body req;
           GoHttp.RemoteAddr := GoHttp.RemoteAddr req |} in
      let cpf := NewCallerPrefConfByHttpRequest req in
      Some {| c_api := api; c_req := req; c_relPath := relPath;
              c_body := GoHttp.Body req;
              c_masterHost := GetMasterHostName api cpf;
              c_addrInfo := GoStrings.Split (GoHttp.RemoteAddr req) ":";
              c_caller := getCallerItemByIp (Api.Caller_ api) (cpf_Ip cpf) |}
  end.

Definition start (c : Ctx) (rw : GoHttp.ResponseWriter)
  (now : nat) : State :=
  {| s_main := Loop (Api.Hosts (c_api c)); s_wg := 0%nat; s_threads := [];
     s_rw := rw; s_logData := ∅; s_calls := [];
     s_log := [ELUrl (GoHttp.URL_String (c_req c))];
     s_now := now; s_entered := now; s_returned := None;
     s_panicked := false |}.

(** The closure [newHandler(api)] returns, run on [rw] and [req] from time
    [now] under the schedule [sched]. *)
Definition serve `{E : Engine} (port : Z) (h : Handler)
  (rw : GoHttp.ResponseWriter) (req : GoHttp.Request) (now : nat)
  (sched : Schedule) : option State :=
  match h with
  | FanoutHandler bindPath api =>
      match enter bindPath api req with
      | None => None
      | Some c => Some (run port c sched (start c rw now))
      end
  end.

(** a schedule under which every goroutine runs to its end as soon as it
    is started; [fair hosts] has enough steps for the list [hosts] *)
Definition round `{E : Engine} (c : Ctx) (i : nat) (h : Host.t) : Schedule :=
  (0%nat, Closure) :: replicate (List.length (goroutine c h)) (0%nat, Go i).

Fixpoint rounds `{E : Engine} (c : Ctx) (i : nat) (hosts : list Host.t)
  : Schedule :=
  match hosts with
  | [] => []
  | h :: rest => round c i h ++ rounds c (S i) rest
  end.

Definition in_order `{E : Engine} (c : Ctx) : Schedule :=
  rounds c 0 (Api.Hosts (c_api c)) ++ [(0%nat, Closure); (0%nat, Closure)].

(** the same engine on another network *)
Definition with_Do (E : Engine)
  (net : Host.t → GoHttp.ClientRequest → GoHttp.Response + string)
  : Engine :=
  {| CallerPrefConf := @CallerPrefConf E;
     cpf_Ip := @cpf_Ip E;
     NewCallerPrefConfByHttpRequest := @NewCallerPrefConfByHttpRequest E;
     GetMasterHostName := @GetMasterHostName E;
     getCallerItemByIp := @getCallerItemByIp E;
     IsHostIgnore := @IsHostIgnore E;
     copyHeaders := @copyHeaders E;
     NewRequest_ok := @NewRequest_ok E;
     Do := net |}.

(** ** Instances used to run the functions on concrete inputs *)

(** Modelled from the spec: the caller functions of section 4.2 as the
    implementation of [Engine]; the caller is identified by the address
    part of [RemoteAddr], and [copyHeaders] adds the values of the source
    map to the destination. *)
Definition spec_engine (ok : string → string → bool)
  (net : Host.t → GoHttp.ClientRequest → GoHttp.Response + string)
  : Engine :=
  {| CallerPrefConf := string;
     cpf_Ip := λ ip, ip;
     NewCallerPrefConfByHttpRequest :=
       λ req, hd "" (GoStrings.Split (GoHttp.RemoteAddr req) ":");
     GetMasterHostName :=
       λ api ip, selectMaster api (resolveCaller (Api.Caller_ api) ip);
     getCallerItemByIp := resolveCaller;
     IsHostIgnore := isIgnored;
     copyHeaders := λ dst src, union_with (λ a b, Some (a ++ b)) dst src;
     NewRequest_ok := ok;
     Do := net |}.

Definition def_path (dir name : string) : string :=
  dir +:+ "/" +:+ name +:+ ".json".

Definition set_Name (a : Api.t) (name : string) : Api.t :=
  {| Api.Name := name; Api.Path := Api.Path a; Api.Hosts := Api.Hosts a;
     Api.Caller_ := Api.Caller_ a; Api.TimeoutMs := Api.TimeoutMs a;
     Api.Enable := Api.Enable a; Api.Note := Api.Note a |}.

(** a query string split at [&] and [=], without percent-decoding *)
Definition parse_pairs (qs : string) : Values :=
  foldl (λ (v : Values) (kv : string),
           match GoStrings.Split kv "=" with
           | k :: x :: _ => <[k := index v k ++ [x]]> v
           | _ => v
           end)
        ∅ (GoStrings.Split qs "&").

(** Modelled from the spec: the persistence collaborator of section 6, one
    definition per name stored as [<dir>/<name>.json] (a file that does not
    parse holds [None]), and the host-set operations of [Api] (a host is
    keyed by its name, a renamed host leaves its old name, hosts that are
    not in the submitted list are removed). *)
Definition spec_store (dir : string) : Store :=
  {| Disk := gmap string (option Api.t);
     LoadApiByConf := λ d confDir apiName,
       match d !! def_path confDir apiName with
       | Some (Some a) => inl (set_Name a apiName)
       | Some None => inr "parse error"
       | None => inr "not found"
       end;
     Save := λ d api, inl (<[def_path dir (Api.Name api) := Some api]> d);
     Delete := λ d api, delete (def_path dir (Api.Name api)) d;
     Glob := λ d pattern,
       List.filter (GoFilepath.Match pattern) (map_to_list d).*1;
     NewApi := λ confDir name,
       {| Api.Name := name; Api.Path := "/" +:+ name; Api.Hosts := [];
          Api.Caller_ := ∅; Api.TimeoutMs := 0; Api.Enable := true;
          Api.Note := "" |};
     AddNewHost := λ hs h,
       List.filter (λ x, negb (String.eqb (Host.Name x) (Host.Name h))) hs
       ++ [h];
     HostRename := λ api orig name,
       if String.eqb orig name then api
       else set_Hosts api
              (List.filter (λ x, negb (String.eqb (Host.Name x) orig))
                           (Api.Hosts api));
     HostCheckDelete := λ api names,
       set_Hosts api
         (List.filter (λ x, bool_decide (Host.Name x ∈ names))
                      (Api.Hosts api));
     ParseQuery := parse_pairs |}.
(** ** The server and its administrative pages *)

Module GoFmt.

Definition digit_char (d : Z) : ascii := ascii_of_nat (48 + Z.to_nat d).

(** the decimal digits of [n >= 0] in front of [acc], the least
    significant digit produced first, as [strconv] formats a number;
    [fuel] bounds the number of digits *)
Fixpoint format_pos (fuel : nat) (n : Z) (acc : string) : string :=
  match fuel with
  | O => acc
  | S fuel =>
      let acc := String (digit_char (n mod 10)) acc in
      if n <? 10 then acc else format_pos fuel (n / 10) acc
  end.

(** [fmt.Sprintf("%d", n)] *)
Definition Sprintf_d (n : Z) : string :=
  if n <? 0 then String "-"%char (format_pos (S (Z.to_nat (- n))) (- n) "")
  else format_pos (S (Z.to_nat n)) n "".

End GoFmt.

(** The value [strconv.ParseInt(s, 10, 64)] returns beside its error, for
    a caller that drops the error: 0 when [s] is no number, the nearest
    bound of [int64] when the number is out of range. *)
Definition ParseInt_value (s : string) : Z :=
  let r :=
    match s with
    | String "-"%char s' => Z.opp <$> GoStrconv.unsigned s'
    | String "+"%char s' => GoStrconv.unsigned s'
    | _ => GoStrconv.unsigned s
    end in
  match r with
  | Some n =>
      if n <? - 2 ^ 63 then - 2 ^ 63
      else if 2 ^ 63 <=? n then 2 ^ 63 - 1 else n
  | None => 0
  end.

(** [NewApiServer(conf, manager)]; [confDir] stands for
    [filepath.Dir(manager.ConfPath)] and [port] for [conf.Port] *)
Definition NewApiServer (confDir : string) (port : Z) : ApiServer :=
  {| Apis := ∅;
     ConfDir := confDir +:+ "/api_" +:+ GoFmt.Sprintf_d port;
     routers := NewRouters;
     Port := port |}.

(** [apiServer.Start()] up to [http.ListenAndServe]: the APIs are loaded
    and the address to listen on is [":<port>"] *)
Definition Start `{St : Store} (w : World) : World * string :=
  (loadAllApis w, ":" +:+ GoFmt.Sprintf_d (Port (server w))).

(** the inbound request as the administrative pages read it: [req.Form]
    and [req.PostForm] are the parsed forms *)
Record WebRequest := {
  wr_Method : string;
  wr_Host : string;
  wr_Path : string;
  wr_Form : Values;
  wr_PostForm : Values
}.

(** the entries of [wr.values] that [execute] computes from the request;
    the entries that hold objects ([version], [server_list], [conf],
    [apis], [api]) are left out *)
Record PageValues := {
  base_url : string;
  host_name : string;
  host_port : Z
}.

(** what the administrative handler does to the response: it hands the
    request to the static files with a rewritten path, it renders a
    template, or it writes an answer of a save *)
Inductive WebOut :=
| Asset (path : string)
| Page (tplName : string) (values : PageValues)
| Wrote (o : AdminOut).

(** the first statements of [execute]; [None] is the panic of
    [host_info[1]] when [req.Host] has no colon *)
Definition host_values (host : string) : option PageValues :=
  let host_info := GoStrings.Split host ":" in
  match host_info !! 1%nat with
  | None => None
  | Some p =>
      let p := if String.eqb p "" then "80" else p in
      Some {| base_url := "http://" +:+ host +:+ "/";
              host_name := hd "" host_info;
              host_port := ParseInt_value p |}
  end.

(** the answers of a save as what the handler wrote *)
Definition wrote `{St : Store} (r : World * list AdminOut)
  : World * list WebOut :=
  (r.1, Wrote <$> r.2).

(** [wr.apiEdit()]. The page of a [GET] edits a copy of the API
    ([apiOld.Clone()]) or a new one, not the registry. *)
Definition apiEdit `{St : Store} (w : World) (req : WebRequest)
  (values : PageValues) : option (World * list WebOut) :=
  let name := Get (wr_Form req) "name" in
  if negb (String.eqb (wr_Method req) "POST") then
    if negb (String.eqb name "") then
      match getApiByName w name with
      | None => Some (w, [Page "error.html" values])
      | Some apiOld => Some (w, [Page "api.html" values])
      end
    else Some (w, [Page "api.html" values])
  else
    let do := Get (wr_Form req) "do" in
    if String.eqb do "base" then
      wrote <$> apiBaseSave w (wr_Form req) (wr_PostForm req)
    else if String.eqb do "caller" then
      Some (wrote (apiCallerSave w (wr_Form req)))
    else Some (w, []).

(** [wr.execute()] *)
Definition execute `{St : Store} (w : World) (req : WebRequest)
  : option (World * list WebOut) :=
  match host_values (wr_Host req) with
  | None => None
  | Some values =>
      if String.eqb (wr_Path req) "/_api" then apiEdit w req values
      else if String.eqb (wr_Path req) "/_apis"
      then Some (w, [Page "list.html" values])
      else Some (w, [Page "index.html" values])
  end.

(** [web.ServeHTTP(rw, req)]; the slice [req.URL.Path[5:]] cannot panic
    behind the test of the prefix, the model keeps the case all the same *)
Definition WebAdmin_ServeHTTP `{St : Store} (w : World) (req : WebRequest)
  : option (World * list WebOut) :=
  if GoStrings.HasPrefix (wr_Path req) "/_res/" then
    match GoStrings.slice_from (wr_Path req) 5 with
    | Some rest => Some (w, [Asset ("/res/" +:+ rest)])
    | None => None
    end
  else execute w req.

(** the template function [myNum] of [render_html] *)
Definition myNum (n : Z) : string :=
  if n =? 0 then "" else GoFmt.Sprintf_d n.


(** ** Definitions the proofs use *)

(** *** Routing *)

(** [r] is a longest entry of [l] whose prefix matches [reqPath] *)
Definition longest_in (reqPath : string) (l : list (string * RouterItem.t))
  (r : option (string * RouterItem.t)) : Prop :=
  match r with
  | Some e =>
      e ∈ l ∧ GoStrings.HasPrefix reqPath e.1 = true ∧
      ∀ e', e' ∈ l → GoStrings.HasPrefix reqPath e'.1 = true →
            (String.length e'.1 ≤ String.length e.1)%nat
  | None => ∀ e, e ∈ l → GoStrings.HasPrefix reqPath e.1 = false
  end.

(** every route is bound under the path its closure captured, as [loadApi]
    binds it *)
Definition routers_bound (rs : Routers) : Prop :=
  ∀ p router, rs !! p = Some router →
              ∃ api, RouterItem.Hander router = FanoutHandler p api.

(** *** The administrative saves *)

(** a caller item whose [Ignore] meets its [Pref] *)
Definition overlaps (item : CallerItem.t) : Prop :=
  ∃ name, name ∈ CallerItem.Ignore item ∧ name ∈ CallerItem.Pref item.

(** the names [loadApi] was called with, as the log shows them *)
Definition attempted (e : LogEntry) : option string :=
  match e with
  | LogLoadFailed name _ | LogLoadSuccess name => Some name
  | _ => None
  end.

(** *** The response up to its [Server] header *)

Definition strip (h : Header) : Header := delete "Server" h.

Definition strip_rw (rw : GoHttp.ResponseWriter) : GoHttp.ResponseWriter :=
  {| GoHttp.handlerHeader := strip (GoHttp.handlerHeader rw);
     GoHttp.wroteHeader :=
       (λ p, (p.1, strip p.2)) <$> GoHttp.wroteHeader rw;
     GoHttp.written := GoHttp.written rw |}.

Definition rw_ops (os : list Op) (rw : GoHttp.ResponseWriter)
  : GoHttp.ResponseWriter :=
  foldl (λ rw o, rw_op o rw) rw os.

(** a run of [Add]s keeps what the map holds and leaves the status and the
    body alone *)
Definition grows (rw rw' : GoHttp.ResponseWriter) : Prop :=
  GoHttp.wroteHeader rw' = GoHttp.wroteHeader rw ∧
  GoHttp.written rw' = GoHttp.written rw ∧
  ∀ k v, v ∈ GoHttp.values (GoHttp.handlerHeader rw) k →
         v ∈ GoHttp.values (GoHttp.handlerHeader rw') k.

(** *** Statements of a goroutine *)

Definition is_edge (o : Op) : bool :=
  match o with OStart | ODone => true | _ => false end.

(** statements that leave the response, the network and the process alone *)
Definition silent (o : Op) : bool :=
  match o with
  | ODo _ | OHeaderSet _ _ | OHeaderAdd _ _ | OWriteHeader _ | OWrite _
  | OPanic => false
  | _ => true
  end.

(** statements that change nothing of the response but its [Server]
    header *)
Definition quiet (o : Op) : bool :=
  match o with
  | OHeaderSet k _ => String.eqb (GoHttp.CanonicalHeaderKey k) "Server"
  | OHeaderAdd _ _ | OWriteHeader _ | OWrite _ => false
  | _ => true
  end.

(** *** The invariant of a run *)

(** the hosts the closure has still to start *)
Definition pending (m : Main) : list Host.t :=
  match m with Loop rest => rest | _ => [] end.

Definition bl_op (bl : gmap string LogVal) (o : Op) : gmap string LogVal :=
  match o with OBackLog k v => <[k := v]> bl | _ => bl end.

(** a goroutine with statements left keeps the wait group busy *)
Definition busy (t : Thread) : nat :=
  match t_code t with [] => 0 | _ => 1 end.

(** What is known of a goroutine in a state with clock [now] and log [lg]:
    it has run a prefix [done] of its body; it read the clock when it
    began; when it has finished, its [wg.Done()] ran after that; its
    [backLog] holds what [done] stored, and the log has every line [done]
    printed. *)
Definition thread_ok `{E : Engine} (c : Ctx) (entered now : nat)
  (lg : list EngineLog) (t : Thread) : Prop :=
  ∃ done,
    goroutine c (t_host t) = done ++ t_code t ∧
    (done = [] ∨
     ∃ a, t_start t = Some a ∧ (entered ≤ a)%nat ∧ (a ≤ now)%nat) ∧
    (t_code t = [] →
     ∃ a f, t_start t = Some a ∧ t_done t = Some f ∧
            (a ≤ f)%nat ∧ (f ≤ now)%nat) ∧
    (Forall (λ o, o ≠ OUsed) done → t_backLog t = foldl bl_op ∅ done) ∧
    (∀ url err, OLogFetch url err ∈ done → ELFetch url err ∈ lg).

(** The goroutines started so far are those of the first hosts, in order;
    the wait group counts the goroutines that have not finished; the
    closure returns after every goroutine has finished. *)
Record inv `{E : Engine} (c : Ctx) (s : State) : Prop := {
  inv_hosts :
    (t_host <$> s_threads s) ++ pending (s_main s) = Api.Hosts (c_api c);
  inv_threads :
    Forall (thread_ok c (s_entered s) (s_now s) (s_log s)) (s_threads s);
  inv_clock : (s_entered s ≤ s_now s)%nat;
  inv_wg : s_wg s = sum_list_with busy (s_threads s);
  inv_returned :
    s_main s = Returned →
    ∃ T, s_returned s = Some T ∧ (s_entered s ≤ T)%nat ∧
         (T ≤ s_now s)%nat ∧
         Forall (λ t, t_code t = [] ∧
                      ∀ f, t_done t = Some f → (f ≤ T)%nat)
                (s_threads s)
}.

Definition finished (s : State) : Prop :=
  Forall (λ t, t_code t = []) (s_threads s).

Definition key_of (h : Host.t) : string := "host_" +:+ Host.Name h.

(** every key of [logData] points to the goroutine of a host with that key,
    and a goroutine that is past its [logData[key] = backLog] has its key in
    the map *)
Record inv_log (s : State) : Prop := {
  log_keys :
    ∀ key j, s_logData s !! key = Some j →
             ∃ t, s_threads s !! j = Some t ∧ key = key_of (t_host t);
  log_stored :
    Forall (λ t, OLogData (key_of (t_host t)) ∈ t_code t ∨
                 is_Some (s_logData s !! key_of (t_host t)))
           (s_threads s)
}.

(** the response is, up to [Server], what the statements [D] the master has
    run so far make of the writer [rw0] the closure was given *)
Definition inv_rw `{E : Engine} (c : Ctx) (rw0 : GoHttp.ResponseWriter)
  (s : State) : Prop :=
  ∃ D,
    strip_rw (s_rw s) = strip_rw (rw_ops D rw0) ∧
    (∀ j t, s_threads s !! j = Some t →
            isMaster (c_masterHost c) (t_host t) = true →
            goroutine c (t_host t) = D ++ t_code t) ∧
    ((∀ j t, s_threads s !! j = Some t →
             isMaster (c_masterHost c) (t_host t) = false) → D = []).

(** ** Concrete servers, requests and networks *)

Definition get (path : string) : GoHttp.Request :=
  {| GoHttp.Method := "GET"; GoHttp.URL_Path := path;
     GoHttp.URL_RawQuery := ""; GoHttp.URL_String := path;
     GoHttp.ReqHeader := ∅; GoHttp.Body := "";
     GoHttp.RemoteAddr := "10.0.0.7:5312" |}.

Definition api_at (name path : string) (hosts : list Host.t) (enable : bool)
  : Api.t :=
  {| Api.Name := name; Api.Path := path; Api.Hosts := hosts;
     Api.Caller_ := ∅; Api.TimeoutMs := 100; Api.Enable := enable;
     Api.Note := "" |}.

Definition router_of (a : Api.t) : RouterItem.t :=
  NewRouterItem (Api.Name a) (Api.Path a) (FanoutHandler (Api.Path a) a).

Definition r_a : RouterItem.t := router_of (api_at "a" "/a" [] true).
Definition r_ab : RouterItem.t := router_of (api_at "ab" "/a/b" [] true).

(** a server with the prefixes [/a] and [/a/b] bound *)
Definition overlapping : ApiServer :=
  {| Apis := ∅; ConfDir := "conf/api_8080";
     routers := BindRouter (BindRouter NewRouters "/a" r_a) "/a/b" r_ab;
     Port := 8080 |}.

Definition h1 : Host.t := NewHost "h1" "http://10.0.0.1/" true.
Definition h2 : Host.t := NewHost "h2" "http://10.0.0.2/base" true.
Definition h3 : Host.t := NewHost "h3" "http://10.0.0.3/" true.

Definition three_hosts : list Host.t := [h1; h2; h3].

Definition prefers (pref ignore : list string) : CallerItem.t :=
  {| CallerItem.Ip := "10.0.0.7"; CallerItem.Note := "";
     CallerItem.Enable := true; CallerItem.Pref := pref;
     CallerItem.Ignore := ignore |}.

Definition world (st : Store) (s : ApiServer) (d : @Disk st)
  (l : list LogEntry) : @World st :=
  @Build_World st s d l.

Definition dir : string := "conf/api_8080".

Definition empty_server : ApiServer :=
  {| Apis := ∅; ConfDir := dir; routers := NewRouters; Port := 8080 |}.

Definition on_disk (files : list (string * option Api.t))
  : @World (spec_store dir) :=
  world (spec_store dir) empty_server
        (list_to_map files : gmap string (option Api.t)) [].

Definition api_a : Api.t := api_at "a" "/a" [h1] true.
Definition api_a_off : Api.t := api_at "a" "/a" [h1] false.

(** [a.json] is on disk, enabled, and was loaded: [/a] is bound *)
Definition w_bound : @World (spec_store dir) :=
  (loadApi (on_disk [(def_path dir "a", Some api_a)]) "a").1.

(** the same server after [api.Save()] stored the definition with
    [enabled = false] *)
Definition w_saved : @World (spec_store dir) :=
  world (spec_store dir) (server w_bound)
        (list_to_map [(def_path dir "a", Some api_a_off)]
           : gmap string (option Api.t)) (logs w_bound).

(** the form that saves [a] with the box [enable] not ticked *)
Definition disable_form : Values :=
  list_to_map [("timeout", ["100"]); ("api_name", ["a"]);
               ("api_name_orig", ["a"]); ("note", [""]); ("enable", ["0"]);
               ("path", ["/a"])].

Definition one_host_post : Values :=
  list_to_map [("host_name", ["h1"]); ("host_name_orig", ["h1"]);
               ("host_url", ["http://10.0.0.1/"]); ("host_note", [""])].

Definition w_empty : @World (spec_store dir) := on_disk [].

(** the form that creates [a] *)
Definition create_form : Values :=
  list_to_map [("timeout", ["100"]); ("api_name", ["a"]);
               ("api_name_orig", [""]); ("note", [""]); ("enable", ["1"]);
               ("path", ["/a"])].

(** two hosts with the same name [h1] *)
Definition duplicate_post : Values :=
  list_to_map [("host_name", ["h1"; "h1"]); ("host_name_orig", [""; ""]);
               ("host_url", ["http://10.0.0.1/"; "http://10.0.0.2/"]);
               ("host_note", [""; ""])].

Definition orders : Api.t := api_at "orders" "/orders" [h1] true.

(** a configuration directory that holds [orders.json] *)
Definition w_orders : @World (spec_store dir) :=
  on_disk [(def_path dir "orders", Some orders)].

Definition api2 : Api.t := api_at "a" "/a" [h1; h2] true.

(** the answer of an upstream that does not know the path *)
Definition not_found : GoHttp.Response :=
  {| GoHttp.StatusCode := 404;
     GoHttp.RespHeader :=
       list_to_map [("Server", ["nginx"]); ("Api-Url", ["x"]);
                    ("X-A", ["1"; "2"])];
     GoHttp.RespBody := "nf" |}.

Definition shadow_ok : GoHttp.Response :=
  {| GoHttp.StatusCode := 200; GoHttp.RespHeader := ∅;
     GoHttp.RespBody := "shadow" |}.

(** [h1] answers 404 and every other host answers 200 *)
Definition net_up (h : Host.t) (r : GoHttp.ClientRequest)
  : GoHttp.Response + string :=
  if String.eqb (Host.Name h) "h1" then inl not_found else inl shadow_ok.

(** [h1] answers 404 and every other host refuses the connection *)
Definition net_down (h : Host.t) (r : GoHttp.ClientRequest)
  : GoHttp.Response + string :=
  if String.eqb (Host.Name h) "h1" then inl not_found
  else inr "connection refused".

Definition E_up : Engine := spec_engine (λ _ _, true) net_up.
Definition E_down : Engine := with_Do E_up net_down.

(** what the closure of [api2] computes for [GET /a/x/y] *)
Definition ctx2 : Ctx :=
  {| c_api := api2; c_req := get "/a/x/y"; c_relPath := "/x/y";
     c_body := ""; c_masterHost := "h1";
     c_addrInfo := ["10.0.0.7"; "5312"];
     c_caller := NewCallerItem "10.0.0.7" |}.

Definition steps (n : nat) (who : Who) : Schedule :=
  replicate n (1%nat, who).

(** the shadow sets [Server] after the master has copied the headers and
    before the master writes the body *)
Definition late_shadow : Schedule :=
  steps 2 Closure ++ steps 5 (Go 1) ++ steps 10 (Go 0) ++ steps 1 (Go 1) ++
  steps 4 (Go 0) ++ steps 2 (Go 1) ++ steps 2 Closure.

Definition s_up : State :=
  run (E:=E_up) 8080 ctx2 (in_order (E:=E_up) ctx2)
      (start ctx2 GoHttp.fresh 0).

Definition s_order : State :=
  run (E:=E_down) 8080 ctx2 (in_order (E:=E_down) ctx2)
      (start ctx2 GoHttp.fresh 0).

Definition s_late : State :=
  run (E:=E_down) 8080 ctx2 late_shadow (start ctx2 GoHttp.fresh 0).

(** an API without hosts *)
Definition api_none : Api.t := api_at "e" "/e" [] true.

(** an API whose caller [10.0.0.7] ignores both hosts *)
Definition api_ignored : Api.t :=
  {| Api.Name := "a"; Api.Path := "/a"; Api.Hosts := [h1; h2];
     Api.Caller_ := {[ "10.0.0.7" := prefers [] ["h1"; "h2"] ]};
     Api.TimeoutMs := 100; Api.Enable := true; Api.Note := "" |}.

Definition ctx_ignored : Ctx :=
  {| c_api := api_ignored; c_req := get "/a/x/y"; c_relPath := "/x/y";
     c_body := ""; c_masterHost := "h1";
     c_addrInfo := ["10.0.0.7"; "5312"];
     c_caller := prefers [] ["h1"; "h2"] |}.

(** *** Upstream calls *)

Definition is_Do (o : Op) : bool :=
  match o with ODo _ => true | _ => false end.

(** the upstream call a goroutine has issued so far: none while its
    [httpClient.Do] is still ahead, or when its body has none *)
Definition issued `{E : Engine} (c : Ctx) (t : Thread)
  : list (Host.t * GoHttp.ClientRequest) :=
  if existsb is_Do (goroutine c (t_host t)) && negb (existsb is_Do (t_code t))
  then [(t_host t, reqNew c (t_host t))] else [].

(** what [run] keeps of the calls: they are the calls of the goroutines *)
Definition calls_inv `{E : Engine} (c : Ctx) (s : State) : Prop :=
  s_calls s ≡ₚ s_threads s ≫= issued c.

(** the four statements of a goroutine before its [httpClient.Do] *)
Definition preamble (c : Ctx) (h : Host.t) : list Op :=
  [OStart; OLogData ("host_" +:+ Host.Name h);
   OBackLog "isMaster" (LBool (isMaster (c_masterHost c) h));
   OBackLog "url" (LStr (urlNew c h))].

(** one call per host that the caller does not ignore, in the order of the
    hosts *)
Definition fanout `{E : Engine} (c : Ctx)
  : list (Host.t * GoHttp.ClientRequest) :=
  (λ h, (h, reqNew c h)) <$>
  List.filter (λ h, negb (IsHostIgnore (c_caller c) (Host.Name h)))
              (Api.Hosts (c_api c)).


Definition set_Server : Op := OHeaderSet "Server" "api-proxy".

(** a goroutine that is past its [rw.Header().Set("Server", "api-proxy")] *)
Definition past_Server `{E : Engine} (c : Ctx) (t : Thread) : Prop :=
  set_Server ∈ goroutine c (t_host t) ∧ set_Server ∉ t_code t.

(** once a goroutine has set [Server], the header holds [api-proxy] alone,
    and so does the header that was sent *)
Definition inv_Server `{E : Engine} (c : Ctx) (s : State) : Prop :=
  ((∃ j t, s_threads s !! j = Some t ∧ past_Server c t) →
   GoHttp.handlerHeader (s_rw s) !! "Server" = Some ["api-proxy"]) ∧
  (∀ code h, GoHttp.wroteHeader (s_rw s) = Some (code, h) →
             h !! "Server" = Some ["api-proxy"]).

(** the statements that send the header: [WriteHeader] and [Write] *)
Definition writes (o : Op) : bool :=
  match o with OWriteHeader _ | OWrite _ => true | _ => false end.

(** the two headers a goroutine sets *)
Definition sets_known (o : Op) : bool :=
  match o with
  | OHeaderSet k v =>
      String.eqb k "Server" && String.eqb v "api-proxy" ||
      String.eqb k "api-url"
  | _ => true
  end.

(** the line the deferred function of the closure prints *)
Definition access_line `{E : Engine} (port : Z) (c : Ctx) (s : State)
  : EngineLog :=
  ELAccess port (GoHttp.RemoteAddr (c_req c)) (GoHttp.Method (c_req c))
           (uri (c_req c)) (c_masterHost c) (resolve_logData s).

(** once the closure has returned, the last line of the log is its access
    line *)
Definition inv_access `{E : Engine} (port : Z) (c : Ctx) (s : State)
  : Prop :=
  s_main s = Returned → last (s_log s) = Some (access_line port c s).

(** whether the byte [b] occurs in [s] *)
Definition has_byte (b : ascii) (s : string) : bool :=
  existsb (Ascii.eqb b) (list_ascii_of_string s).

(** *** Progress *)

(** the statements the goroutines and the closure have still to run *)
Definition work `{E : Engine} (c : Ctx) (s : State) : nat :=
  (sum_list_with (λ t, List.length (t_code t)) (s_threads s) +
   sum_list_with (λ h, S (List.length (goroutine c h))) (pending (s_main s)) +
   match s_main s with Loop _ => 2 | Wait => 1 | Returned => 0 end)%nat.

(** the state but its clock *)
Definition timeless (s : State)
  : Main * nat * list Thread * GoHttp.ResponseWriter * gmap string nat *
    list (Host.t * GoHttp.ClientRequest) * list EngineLog * option nat *
    bool :=
  (s_main s, s_wg s, s_threads s, s_rw s, s_logData s, s_calls s, s_log s,
   s_returned s, s_panicked s).

(** *** More servers and networks *)

(** [h1] refuses the connection and every other host answers 200 *)
Definition net_master_down (h : Host.t) (r : GoHttp.ClientRequest)
  : GoHttp.Response + string :=
  if String.eqb (Host.Name h) "h1" then inr "connection refused"
  else inl shadow_ok.

Definition E_master_down : Engine := with_Do E_up net_master_down.

Definition s_master_down : State :=
  run (E:=E_master_down) 8080 ctx2 (in_order (E:=E_master_down) ctx2)
      (start ctx2 GoHttp.fresh 0).


(** an API whose caller [10.0.0.7] has no preference and ignores the first
    host *)
Definition api_first_ignored : Api.t :=
  {| Api.Name := "a"; Api.Path := "/a"; Api.Hosts := [h1; h2];
     Api.Caller_ := {[ "10.0.0.7" := prefers [] ["h1"] ]};
     Api.TimeoutMs := 100; Api.Enable := true; Api.Note := "" |}.

Definition ctx_first_ignored : Ctx :=
  {| c_api := api_first_ignored; c_req := get "/a/x/y";
     c_relPath := "/x/y"; c_body := ""; c_masterHost := "h1";
     c_addrInfo := ["10.0.0.7"; "5312"];
     c_caller := prefers [] ["h1"] |}.

Definition s_first_ignored : State :=
  run (E:=E_up) 8080 ctx_first_ignored (in_order (E:=E_up) ctx_first_ignored)
      (start ctx_first_ignored GoHttp.fresh 0).

(** the request [req] with the header map [h] *)
Definition set_ReqHeader (req : GoHttp.Request) (h : Header)
  : GoHttp.Request :=
  {| GoHttp.Method := GoHttp.Method req;
     GoHttp.URL_Path := GoHttp.URL_Path req;
     GoHttp.URL_RawQuery := GoHttp.URL_RawQuery req;
     GoHttp.URL_String := GoHttp.URL_String req;
     GoHttp.ReqHeader := h;
     GoHttp.Body := GoHttp.Body req;
     GoHttp.RemoteAddr := GoHttp.RemoteAddr req |}.

(** *** File names *)

(** the last byte of a string *)
Fixpoint last_byte (s : string) : option ascii :=
  match s with
  | EmptyString => None
  | String a EmptyString => Some a
  | String _ s' => last_byte s'
  end.

(** a configuration directory that holds [users.json] and [a.json] *)
Definition w_users : @World (spec_store dir) :=
  on_disk [(def_path dir "users", Some (api_at "users" "/users" [h1] true));
           (def_path dir "a", Some api_a)].

(** *** More forms *)

(** a store on a directory that cannot be written: [api.Save()] fails *)
Definition readonly_store (dir : string) : Store :=
  {| Disk := @Disk (spec_store dir);
     LoadApiByConf := @LoadApiByConf (spec_store dir);
     Save := λ d api, inr "read-only file system";
     Delete := @Delete (spec_store dir);
     Glob := @Glob (spec_store dir);
     NewApi := @NewApi (spec_store dir);
     AddNewHost := @AddNewHost (spec_store dir);
     HostRename := @HostRename (spec_store dir);
     HostCheckDelete := @HostCheckDelete (spec_store dir);
     ParseQuery := @ParseQuery (spec_store dir) |}.

(** the server of [w_bound] on the directory that cannot be written *)
Definition w_readonly : @World (readonly_store dir) :=
  world (readonly_store dir) (server w_bound) (disk w_bound) [].

(** the form that moves [a] to the path [/b], with a timeout of 250 ms *)
Definition move_form : Values :=
  list_to_map [("timeout", ["250"]); ("api_name", ["a"]);
               ("api_name_orig", ["a"]); ("note", ["moved"]);
               ("enable", ["1"]); ("path", ["/b"])].

(** the form that renames [a] to [b] *)
Definition rename_form : Values :=
  list_to_map [("timeout", ["100"]); ("api_name", ["b"]);
               ("api_name_orig", ["a"]); ("note", [""]); ("enable", ["1"]);
               ("path", ["/a"])].

(** one host name and two host URLs *)
Definition mismatch_post : Values :=
  list_to_map [("host_name", ["h1"]); ("host_name_orig", [""]);
               ("host_url", ["http://10.0.0.1/"; "http://10.0.0.2/"]);
               ("host_note", [""])].

(** two host names and one host URL *)
Definition short_post : Values :=
  list_to_map [("host_name", ["h1"; "h2"]); ("host_name_orig", [""; ""]);
               ("host_url", ["http://10.0.0.1/"]);
               ("host_note", [""; ""])].

(** a caller rule that prefers [h1] and ignores it *)
Definition conflict_form : Values :=
  list_to_map [("api_name", ["a"]);
               ("datas[]", ["ip=10.0.0.7&host_names=h1&host_ignore=h1"])].

(** *** Numerals *)

(** a string of decimal digits *)
Definition numeral (s : string) : Prop :=
  ∀ c, c ∈ list_ascii_of_string s →
       c ∈ ["0"; "1"; "2"; "3"; "4"; "5"; "6"; "7"; "8"; "9"]%char.

(** the sign and the digits [strconv.ParseInt] reads, before the check of
    the range *)
Definition signed (s : string) : option Z :=
  match s with
  | String "-"%char s' => Z.opp <$> GoStrconv.unsigned s'
  | String "+"%char s' => GoStrconv.unsigned s'
  | _ => GoStrconv.unsigned s
  end.

(** *** Administrative requests *)

(** [GET /_apis] on the host [host] *)
Definition admin_get (host path : string) : WebRequest :=
  {| wr_Method := "GET"; wr_Host := host; wr_Path := path; wr_Form := ∅;
     wr_PostForm := ∅ |}.

(** the [POST] that creates [a], sent with a [Host] header without port *)
Definition create_post : WebRequest :=
  {| wr_Method := "POST"; wr_Host := "gateway.example";
     wr_Path := "/_api";
     wr_Form := <["do" := ["base"]]> create_form;
     wr_PostForm := one_host_post |}.

(** * Theorems *)

(** ** The Go library functions on examples *)

Example TrimRight_ex : GoStrings.TrimRight "a.json" ".json" = "a".
Proof. reflexivity. Qed.

Example TrimRight_cutset_ex :
  GoStrings.TrimRight "jason.json" ".json" = "ja".
Proof. reflexivity. Qed.

Example Base_ex : GoFilepath.Base "conf/api_8080/a.json" = "a.json".
Proof. reflexivity. Qed.

Example Match_ex :
  GoFilepath.Match "conf/api_8080/*.json" "conf/api_8080/a.json" = true.
Proof. reflexivity. Qed.

Example Match_dir_ex :
  GoFilepath.Match "conf/*.json" "conf/api_8080/a.json" = false.
Proof. reflexivity. Qed.

Example Split_ex :
  GoStrings.Split "10.0.0.7:5312" ":" = ["10.0.0.7"; "5312"].
Proof. reflexivity. Qed.

Example ParseInt_ex : GoStrconv.ParseInt "-250" = Some (-250).
Proof. reflexivity. Qed.

Example CanonicalHeaderKey_ex :
  GoHttp.CanonicalHeaderKey "api-url" = "Api-Url".
Proof. reflexivity. Qed.

(** ** Routing *)

Lemma prefix_same_length (p p' s : string) :
  String.prefix p s = true → String.prefix p' s = true →
  String.length p = String.length p' → p = p'.
Proof.
  revert p' s. induction p as [|c p IH]; intros [|c' p'] [|d s]; simpl;
    try done.
  destruct (ascii_dec c d) as [->|]; [|done].
  destruct (ascii_dec c' d) as [->|]; [|done].
  intros H1 H2 Hl. f_equal. eapply IH; eauto.
Qed.

Lemma foldl_longer (reqPath : string) (l : list (string * RouterItem.t)) :
  longest_in reqPath l (foldl (longer reqPath) None l).
Proof.
  induction l as [|x l IH] using rev_ind; [by intros e ?%elem_of_nil|].
  rewrite foldl_app. simpl. unfold longer at 1.
  destruct (GoStrings.HasPrefix reqPath x.1) eqn:Hx.
  - destruct (foldl (longer reqPath) None l) as [b|]; simpl in *.
    + destruct IH as (Hb & Hpb & Hmax).
      destruct (String.length b.1 <? String.length x.1)%nat eqn:Hlt; simpl.
      * apply Nat.ltb_lt in Hlt. split_and!; [set_solver|done|].
        intros e' [He'| ->%list_elem_of_singleton]%elem_of_app Hp; [|lia].
        specialize (Hmax e' He' Hp). lia.
      * apply Nat.ltb_ge in Hlt. split_and!; [set_solver|done|].
        intros e' [He'| ->%list_elem_of_singleton]%elem_of_app Hp; [|lia].
        by apply Hmax.
    + split_and!; [set_solver|done|].
      intros e' [He'| ->%list_elem_of_singleton]%elem_of_app Hp; [|lia].
      rewrite (IH e' He') in Hp. done.
  - destruct (foldl (longer reqPath) None l) as [b|]; simpl in *.
    + destruct IH as (Hb & Hpb & Hmax). split_and!; [set_solver|done|].
      intros e' [He'| ->%list_elem_of_singleton]%elem_of_app Hp;
        [by apply Hmax|congruence].
    + intros e [He| ->%list_elem_of_singleton]%elem_of_app; [by apply IH|done].
Qed.

Lemma GetRouterByReqPath_Some (rs : Routers) (reqPath : string) router :
  GetRouterByReqPath rs reqPath = Some router →
  ∃ p, rs !! p = Some router ∧ GoStrings.HasPrefix reqPath p = true ∧
       ∀ p' router', rs !! p' = Some router' →
                     GoStrings.HasPrefix reqPath p' = true →
                     (String.length p' ≤ String.length p)%nat.
Proof.
  unfold GetRouterByReqPath. intros Hget.
  pose proof (foldl_longer reqPath (map_to_list rs)) as Hl.
  destruct (foldl (longer reqPath) None (map_to_list rs)) as [[p r]|];
    simplify_eq/=.
  destruct Hl as (Hin & Hp & Hmax). exists p.
  split_and!; [by apply elem_of_map_to_list|done|].
  intros p' router' Hp' Hpre.
  apply (Hmax (p', router')); [by apply elem_of_map_to_list|done].
Qed.

Lemma GetRouterByReqPath_None (rs : Routers) (reqPath : string) :
  GetRouterByReqPath rs reqPath = None →
  ∀ p router, rs !! p = Some router → GoStrings.HasPrefix reqPath p = false.
Proof.
  unfold GetRouterByReqPath. intros Hget p router Hp.
  pose proof (foldl_longer reqPath (map_to_list rs)) as Hl.
  destruct (foldl (longer reqPath) None (map_to_list rs)) as [[p0 r]|];
    simplify_eq/=.
  apply (Hl (p, router)). by apply elem_of_map_to_list.
Qed.

(** C4: route resolution hands the request to the handler of the longest
    bound prefix that is a prefix of the request path, and a request that
    no bound prefix matches goes to the administrative UI. *)
Theorem route_longest_prefix (apiServer : ApiServer) (req : GoHttp.Request) :
  (∀ p router,
      routers apiServer !! p = Some router →
      GoStrings.HasPrefix (GoHttp.URL_Path req) p = true →
      (∀ p' router', routers apiServer !! p' = Some router' →
                     GoStrings.HasPrefix (GoHttp.URL_Path req) p' = true →
                     (String.length p' ≤ String.length p)%nat) →
      ServeHTTP apiServer req = ByRouter router) ∧
  ((∀ p router, routers apiServer !! p = Some router →
                GoStrings.HasPrefix (GoHttp.URL_Path req) p = false) →
   ServeHTTP apiServer req = ByWebAdmin).
Proof.
  unfold ServeHTTP. split.
  - intros p router Hp Hpre Hmax.
    destruct (GetRouterByReqPath _ _) as [r|] eqn:Hget.
    + apply GetRouterByReqPath_Some in Hget as (q & Hq & Hqpre & Hqmax).
      assert (q = p) as ->; [|congruence].
      apply (prefix_same_length _ _ (GoHttp.URL_Path req)); [done..|].
      specialize (Hmax _ _ Hq Hqpre). specialize (Hqmax _ _ Hp Hpre). lia.
    + pose proof (GetRouterByReqPath_None _ _ Hget _ _ Hp). congruence.
  - intros Hnone.
    destruct (GetRouterByReqPath _ _) as [r|] eqn:Hget; [|done].
    apply GetRouterByReqPath_Some in Hget as (q & Hq & Hqpre & _).
    rewrite (Hnone _ _ Hq) in Hqpre. done.
Qed.

Ltac bound_prefixes H :=
  repeat (apply lookup_insert_Some in H as [[<- <-]|[_ H]]);
  [..|by rewrite lookup_empty in H].

Lemma route_longest_prefix_overlapping :
  ServeHTTP overlapping (get "/a/b/c") = ByRouter r_ab ∧
  ServeHTTP overlapping (get "/a/x") = ByRouter r_a ∧
  ServeHTTP overlapping (get "/z") = ByWebAdmin.
Proof.
  split_and!.
  - apply (proj1 (route_longest_prefix overlapping (get "/a/b/c"))
             "/a/b" r_ab); [reflexivity..|].
    intros p' r' H _. cbn in H. unfold BindRouter, NewRouters in H.
    bound_prefixes H; simpl; lia.
  - apply (proj1 (route_longest_prefix overlapping (get "/a/x"))
             "/a" r_a); [reflexivity..|].
    intros p' r' H Hp. cbn in H. unfold BindRouter, NewRouters in H.
    bound_prefixes H; [discriminate Hp|simpl; lia].
  - apply (proj2 (route_longest_prefix overlapping (get "/z"))).
    intros p' r' H. cbn in H. unfold BindRouter, NewRouters in H.
    bound_prefixes H; reflexivity.
Defined.

(** a request the routing table dispatches has the bound path of the
    closure as a prefix of its path *)
Lemma ServeHTTP_bound (apiServer : ApiServer) (req : GoHttp.Request)
  (router : RouterItem.t) (bindPath : string) (api : Api.t) :
  routers_bound (routers apiServer) →
  ServeHTTP apiServer req = ByRouter router →
  RouterItem.Hander router = FanoutHandler bindPath api →
  GoStrings.HasPrefix (GoHttp.URL_Path req) bindPath = true.
Proof.
  intros Hb. unfold ServeHTTP.
  destruct (GetRouterByReqPath _ _) as [r|] eqn:Hget; [|done].
  intros [= ->] Hh.
  apply GetRouterByReqPath_Some in Hget as (p & Hp & Hpre & _).
  destruct (Hb _ _ Hp) as [api' Hh']. congruence.
Qed.

Lemma loadApi_bound `{St : Store} (w : World) (apiName : string) :
  routers_bound (routers (server w)) →
  routers_bound (routers (server (loadApi w apiName).1)).
Proof.
  intros Hb. unfold loadApi.
  destruct (LoadApiByConf _ _ _) as [api|err]; [|done].
  destruct (Api.Enable api); [|done]. cbn. unfold BindRouter.
  intros p router [[<- <-]|[_ Hp]]%lookup_insert_Some; [by eexists|].
  by apply Hb.
Qed.

(** ** Master selection *)

Lemma find_first {A} (f : A → bool) (pre : list A) (x : A) (post : list A) :
  f x = true → (∀ y, y ∈ pre → f y = false) →
  find f (pre ++ x :: post) = Some x.
Proof.
  intros Hx. induction pre as [|y pre IH]; intros Hpre; simpl.
  - by rewrite Hx.
  - rewrite (Hpre y); [|set_solver]. apply IH. intros; apply Hpre. set_solver.
Qed.

Lemma find_none_iff {A} (f : A → bool) (l : list A) :
  (∀ y, y ∈ l → f y = false) → find f l = None.
Proof.
  induction l as [|y l IH]; intros Hl; simpl; [done|].
  rewrite (Hl y); [|set_solver]. apply IH. intros; apply Hl. set_solver.
Qed.

Lemma eligible_true (api : Api.t) (item : CallerItem.t) (name : string) :
  eligible api item name = true ↔
  name ∈ Host.Name <$> Api.Hosts api ∧ name ∉ CallerItem.Ignore item.
Proof.
  unfold eligible, isIgnored.
  rewrite andb_true_iff, negb_true_iff, bool_decide_eq_true,
    bool_decide_eq_false. done.
Qed.

Lemma eligible_false (api : Api.t) (item : CallerItem.t) (name : string) :
  eligible api item name = false ↔
  ¬ (name ∈ Host.Name <$> Api.Hosts api ∧ name ∉ CallerItem.Ignore item).
Proof.
  rewrite <-eligible_true. destruct (eligible api item name); naive_solver.
Qed.

Lemma selectMaster_is_host (api : Api.t) (item : CallerItem.t) :
  Api.Hosts api ≠ [] → selectMaster api item ∈ Host.Name <$> Api.Hosts api.
Proof.
  intros Hne. unfold selectMaster.
  destruct (find _ _) as [name|] eqn:Hfind.
  - apply find_some in Hfind as [_ He]. by apply eligible_true in He as [? _].
  - destruct (Api.Hosts api) as [|h hs]; [done|]. set_solver.
Qed.

Lemma one_master (m : string) (hosts : list Host.t) :
  NoDup (Host.Name <$> hosts) → m ∈ Host.Name <$> hosts →
  List.length (List.filter (isMaster m) hosts) = 1%nat.
Proof.
  unfold isMaster.
  induction hosts as [|h hs IH]; intros Hnd Hin; [by apply elem_of_nil in Hin|].
  apply NoDup_cons in Hnd as [Hh Hnd]. simpl.
  destruct (String.eqb_spec m (Host.Name h)) as [->|Hne].
  - simpl. f_equal. clear IH Hin Hnd.
    induction hs as [|x hs IH]; [done|]. simpl.
    destruct (String.eqb_spec (Host.Name h) (Host.Name x)) as [He|_].
    + exfalso. apply Hh. rewrite He. set_solver.
    + apply IH. set_solver.
  - apply IH; [done|]. set_solver.
Qed.

(** C5: for an API with hosts (their names unique), [selectMaster] returns
    the first name of the caller's [Pref] that is a host of the API and is
    not in the caller's [Ignore]; when no name of [Pref] is such, it
    returns the first host of the API; and exactly one host of the API
    passes the test [isMaster] of the engine. *)
Theorem master_selection (api : Api.t) (item : CallerItem.t) :
  Api.Hosts api ≠ [] →
  NoDup (Host.Name <$> Api.Hosts api) →
  (∀ pre name post,
      CallerItem.Pref item = pre ++ name :: post →
      name ∈ Host.Name <$> Api.Hosts api →
      name ∉ CallerItem.Ignore item →
      (∀ n, n ∈ pre →
            ¬ (n ∈ Host.Name <$> Api.Hosts api ∧
               n ∉ CallerItem.Ignore item)) →
      selectMaster api item = name) ∧
  ((∀ n, n ∈ CallerItem.Pref item →
         ¬ (n ∈ Host.Name <$> Api.Hosts api ∧
            n ∉ CallerItem.Ignore item)) →
   Host.Name <$> head (Api.Hosts api) = Some (selectMaster api item)) ∧
  List.length
    (List.filter (isMaster (selectMaster api item)) (Api.Hosts api)) = 1%nat.
Proof.
  intros Hne Hnd. split_and!.
  - intros pre name post Hpref Hin Hig Hpre. unfold selectMaster.
    rewrite Hpref, (find_first _ pre name post); [done| |].
    + by apply eligible_true.
    + intros n Hn. apply eligible_false. by apply Hpre.
  - intros Hnone. unfold selectMaster. rewrite find_none_iff.
    + by destruct (Api.Hosts api).
    + intros n Hn. apply eligible_false. by apply Hnone.
  - apply one_master; [done|]. by apply selectMaster_is_host.
Qed.

Lemma master_selection_pref :
  selectMaster (api_at "a" "/a" three_hosts true) (prefers ["h2"; "h1"] [])
  = "h2" ∧
  selectMaster (api_at "a" "/a" three_hosts true)
               (prefers ["h2"; "h1"] ["h2"]) = "h1" ∧
  Host.Name <$> head three_hosts
  = Some (selectMaster (api_at "a" "/a" three_hosts true) (prefers [] [])) ∧
  List.length
    (List.filter
       (isMaster (selectMaster (api_at "a" "/a" three_hosts true)
                               (prefers ["h2"; "h1"] [])))
       three_hosts) = 1%nat.
Proof.
  assert (Hnd : NoDup (Host.Name <$> three_hosts)).
  { cbn. repeat (apply NoDup_cons; split; [set_solver|]). apply NoDup_nil_2. }
  split_and!.
  - apply (proj1 (master_selection (api_at "a" "/a" three_hosts true)
                    (prefers ["h2"; "h1"] []) ltac:(discriminate) Hnd)
             [] "h2" ["h1"]); [reflexivity|cbn; set_solver..].
  - apply (proj1 (master_selection (api_at "a" "/a" three_hosts true)
                    (prefers ["h2"; "h1"] ["h2"]) ltac:(discriminate) Hnd)
             ["h2"] "h1" []); [reflexivity|cbn; set_solver..].
  - apply (proj1 (proj2 (master_selection (api_at "a" "/a" three_hosts true)
                    (prefers [] []) ltac:(discriminate) Hnd))).
    cbn; set_solver.
  - apply (proj2 (proj2 (master_selection (api_at "a" "/a" three_hosts true)
                    (prefers ["h2"; "h1"] []) ltac:(discriminate) Hnd))).
Defined.

(** ** The registry *)

Lemma loadApi_disabled `{Store} (w : World) (apiName : string) (api : Api.t) :
  LoadApiByConf (disk w) (ConfDir (server w)) apiName = inl api →
  Api.Enable api = false →
  Apis (server (loadApi w apiName).1) = <[apiName := api]> (Apis (server w)) ∧
  routers (server (loadApi w apiName).1) = routers (server w).
Proof. intros Hload Hen. unfold loadApi. by rewrite Hload, Hen. Qed.

(** C6 as the code has it: loading a definition that is not enabled
    replaces the entry of the registry and leaves the routing table as it
    was, so every request is dispatched as before the reload. *)
Theorem reload_disabled_keeps_routes `{Store} (w : World) (apiName : string)
  (api : Api.t) :
  LoadApiByConf (disk w) (ConfDir (server w)) apiName = inl api →
  Api.Enable api = false →
  Apis (server (loadApi w apiName).1) !! apiName = Some api ∧
  routers (server (loadApi w apiName).1) = routers (server w) ∧
  ∀ req, ServeHTTP (server (loadApi w apiName).1) req
         = ServeHTTP (server w) req.
Proof.
  intros Hload Hen.
  destruct (loadApi_disabled w apiName api Hload Hen) as [Ha Hr].
  split_and!; [by rewrite Ha, lookup_insert_eq|done|].
  intros req. unfold ServeHTTP. by rewrite Hr.
Qed.

Lemma reload_disabled_keeps_routes_bound :
  Apis (server (loadApi w_saved "a").1) !! "a" = Some api_a_off ∧
  routers (server (loadApi w_saved "a").1) !! "/a" = Some (router_of api_a) ∧
  ServeHTTP (server (loadApi w_saved "a").1) (get "/a/x")
  = ByRouter (router_of api_a).
Proof.
  destruct (reload_disabled_keeps_routes w_saved "a" api_a_off)
    as (Ha & Hr & Hs); [reflexivity..|].
  split_and!; [exact Ha|by rewrite Hr|by rewrite Hs].
Defined.

Lemma reload_disabled_still_routed :
  (λ r, Api.Enable <$> Apis (server r.1) !! "a")
    <$> apiBaseSave w_bound disable_form one_host_post = Some (Some false) ∧
  (λ r, ServeHTTP (server r.1) (get "/a/x"))
    <$> apiBaseSave w_bound disable_form one_host_post
  = Some (ByRouter (router_of api_a)) ∧
  (λ r, ServeHTTP (server r.1) (get "/a/x"))
    <$> apiBaseSave w_bound disable_form one_host_post ≠ Some ByWebAdmin.
Proof. split_and!; [vm_compute; reflexivity..|vm_compute; discriminate]. Qed.

Lemma loadApi_attempt `{St : Store} (w : World) (apiName : string) :
  omap attempted (logs (loadApi w apiName).1)
  = omap attempted (logs w) ++ [apiName] ∧
  disk (loadApi w apiName).1 = disk w ∧
  ConfDir (server (loadApi w apiName).1) = ConfDir (server w).
Proof.
  unfold loadApi. destruct (LoadApiByConf _ _ _) as [api|err]; cbn.
  - destruct (Api.Enable api); cbn; rewrite !omap_app; cbn;
      by rewrite ?app_nil_r, <-?app_assoc.
  - by rewrite omap_app.
Qed.

(** [loadAllApis] calls [loadApi] once for every file of the directory, in
    order, whether the calls before failed or not *)
Lemma loadAllApis_attempts `{St : Store} (w : World) :
  omap attempted (logs (loadAllApis w))
  = omap attempted (logs w) ++
    (apiName_of <$> Glob (disk w) (ConfDir (server w) +:+ "/*.json")).
Proof.
  unfold loadAllApis.
  generalize (Glob (disk w) (ConfDir (server w) +:+ "/*.json")).
  intros l. revert w. induction l as [|f l IH]; intros w; cbn.
  - by rewrite app_nil_r.
  - rewrite IH. destruct (loadApi_attempt w (apiName_of f)) as (-> & _ & _).
    by rewrite <-app_assoc.
Qed.

(** C8: [loadAllApis] on a directory that holds [orders.json] calls
    [loadApi] with the name [order]: [strings.TrimRight] drops every
    trailing byte of the set [.json], the [s] of [orders] too, where
    [strings.TrimSuffix] would leave [orders]; the definition is not
    loaded. *)
Theorem loadAllApis_trims_name :
  Glob (disk w_orders) (ConfDir (server w_orders) +:+ "/*.json")
  = ["conf/api_8080/orders.json"] ∧
  apiName_of "conf/api_8080/orders.json" = "order" ∧
  GoStrings.TrimSuffix (GoFilepath.Base "conf/api_8080/orders.json") ".json"
  = "orders" ∧
  logs (loadAllApis w_orders) = [LogLoadFailed "order" "not found"] ∧
  Apis (server (loadAllApis w_orders)) !! "orders" = None.
Proof. split_and!; vm_compute; reflexivity. Qed.

(** ** The administrative saves *)

Lemma host_name_check_never (host_name : list string) :
  host_name_check ∅ host_name = None.
Proof.
  induction host_name as [|val rest IH]; simpl; [done|].
  by rewrite lookup_empty.
Qed.

Lemma apiBaseSave_no_duplicate_alert `{St : Store} (w : World)
  (form postForm : Values) (w' : World) (out : list AdminOut) (val : string) :
  apiBaseSave w form postForm = Some (w', out) →
  Alert ("别名:" +:+ val +:+ "，重复了") ∉ out.
Proof.
  unfold apiBaseSave. rewrite host_name_check_never. intros Heq Hin.
  repeat (case_match; simplify_eq);
    repeat (apply elem_of_app in Hin as [Hin|Hin]
            || apply elem_of_cons in Hin as [Hin|Hin]
            || apply elem_of_nil in Hin);
    try done; try discriminate.
Qed.

(** C7: a save whose [host_name] lists [h1] twice is not rejected: the
    check finds no duplicate, the API is stored and loaded, and the answer
    is the confirmation; the second [h1] has replaced the first. *)
Theorem duplicate_host_name_saved :
  index duplicate_post "host_name" = ["h1"; "h1"] ∧
  snd <$> apiBaseSave w_empty create_form duplicate_post
  = Some [AlertAndGo "已经更新！" "/_api?name=a"] ∧
  Apis (server w_empty) !! "a" = None ∧
  (λ r, Api.Hosts <$> Apis (server r.1) !! "a")
    <$> apiBaseSave w_empty create_form duplicate_post
  = Some (Some [NewHost "h1" "http://10.0.0.2/" true]).
Proof. split_and!; vm_compute; reflexivity. Qed.

Lemma conflict_Some (item : CallerItem.t) :
  overlaps item →
  ∃ name, conflict item = Some name ∧ name ∈ CallerItem.Ignore item ∧
          name ∈ CallerItem.Pref item.
Proof.
  intros (name & Hi & Hp). unfold conflict.
  destruct (find _ _) as [n|] eqn:Hfind.
  - apply find_some in Hfind as [Hin Hb]. exists n.
    split_and!; [done|by apply list_elem_of_In|].
    unfold In_StringSlice in Hb. by apply bool_decide_eq_true in Hb.
  - apply list_elem_of_In in Hi.
    pose proof (find_none _ _ Hfind _ Hi) as Hb. simpl in Hb.
    unfold In_StringSlice in Hb. by apply bool_decide_eq_false in Hb.
Qed.

Lemma caller_item_ignore_set (qv : Values) :
  CallerItem.Ignore (caller_item_of qv) ≠ [] →
  String.eqb (Get qv "host_ignore") "" = false.
Proof.
  unfold caller_item_of. simpl. by destruct (String.eqb _ _).
Qed.

Lemma caller_loop_rejects `{St : Store} (datas : list string) :
  ∀ callers,
    Exists (λ qs, overlaps (caller_item_of (ParseQuery qs))) datas →
    ∃ qs name,
      qs ∈ datas ∧
      name ∈ CallerItem.Ignore (caller_item_of (ParseQuery qs)) ∧
      name ∈ CallerItem.Pref (caller_item_of (ParseQuery qs)) ∧
      caller_loop callers datas
      = inr (Json 1 ("配置冲突(" +:+
                     CallerItem.Ip (caller_item_of (ParseQuery qs)) +:+ ")" +:+
                     newline +:+ "屏蔽:" +:+ name)).
Proof.
  induction datas as [|qs rest IH]; intros callers Hex;
    [by apply Exists_nil in Hex|].
  cbn [caller_loop].
  destruct (if String.eqb (Get (ParseQuery qs) "host_ignore") "" then None
            else conflict (caller_item_of (ParseQuery qs)))
    as [name|] eqn:Hc.
  - exists qs, name. destruct (String.eqb _ _); [done|].
    unfold conflict in Hc. apply find_some in Hc as [Hin Hb].
    split_and!; [set_solver|by apply list_elem_of_In| |done].
    unfold In_StringSlice in Hb. by apply bool_decide_eq_true in Hb.
  - apply Exists_cons in Hex as [Hov|Hex].
    + exfalso. destruct (conflict_Some _ Hov) as (name & Hcf & Hi & _).
      rewrite caller_item_ignore_set in Hc; [congruence|].
      intros Hnil. rewrite Hnil in Hi. by apply elem_of_nil in Hi.
    + destruct (IH (AddNewCallerItem callers (caller_item_of (ParseQuery qs)))
                  Hex) as (qs' & name & ? & ? & ? & ?).
      exists qs', name. split_and!; [set_solver|done..].
Qed.

(** a caller save with a conflicting item answers with the conflict and
    changes nothing *)
Lemma apiCallerSave_conflict_rejected `{St : Store} (w : World)
  (form : Values) (api : Api.t) :
  getApiByName w (Get form "api_name") = Some api →
  Exists (λ qs, overlaps (caller_item_of (ParseQuery qs)))
         (index form "datas[]") →
  ∃ qs name,
    qs ∈ index form "datas[]" ∧
    name ∈ CallerItem.Ignore (caller_item_of (ParseQuery qs)) ∧
    name ∈ CallerItem.Pref (caller_item_of (ParseQuery qs)) ∧
    apiCallerSave w form
    = (w, [Json 1 ("配置冲突(" +:+
                   CallerItem.Ip (caller_item_of (ParseQuery qs)) +:+ ")" +:+
                   newline +:+ "屏蔽:" +:+ name)]).
Proof.
  intros Hapi Hex. unfold apiCallerSave. rewrite Hapi.
  destruct (caller_loop_rejects _ NewCaller Hex) as (qs & name & ? & ? & ? & ->).
  by exists qs, name.
Qed.


(** ** The response up to its [Server] header *)

Lemma strip_insert (h : Header) (k : string) (vs : list string) :
  strip (<[k := vs]> h)
  = if String.eqb k "Server" then strip h else <[k := vs]> (strip h).
Proof.
  unfold strip. destruct (String.eqb_spec k "Server") as [->|Hne].
  - apply delete_insert_eq.
  - by rewrite delete_insert_ne.
Qed.

Lemma strip_values (h : Header) (k : string) :
  k ≠ "Server" → GoHttp.values (strip h) k = GoHttp.values h k.
Proof. intros Hne. unfold GoHttp.values, strip. by rewrite lookup_delete_ne. Qed.

Lemma strip_rw_inv a b :
  strip_rw a = strip_rw b →
  strip (GoHttp.handlerHeader a) = strip (GoHttp.handlerHeader b) ∧
  (λ p, (p.1, strip p.2)) <$> GoHttp.wroteHeader a
  = (λ p, (p.1, strip p.2)) <$> GoHttp.wroteHeader b ∧
  GoHttp.written a = GoHttp.written b.
Proof. unfold strip_rw. by intros [= ? ? ?]. Qed.

Lemma strip_rw_op (o : Op) a b :
  strip_rw a = strip_rw b → strip_rw (rw_op o a) = strip_rw (rw_op o b).
Proof.
  intros (Hh & Hw & Hb)%strip_rw_inv.
  assert (HWH : ∀ code, strip_rw (GoHttp.WriteHeader a code)
                        = strip_rw (GoHttp.WriteHeader b code)).
  { intros code. unfold GoHttp.WriteHeader.
    destruct (GoHttp.wroteHeader a) as [[]|] eqn:Ha,
             (GoHttp.wroteHeader b) as [[]|] eqn:Hb'; simplify_eq/=;
      unfold strip_rw; simpl; rewrite ?Ha, ?Hb'; simpl; congruence. }
  destruct o; cbn [rw_op]; try (unfold strip_rw; congruence).
  - unfold strip_rw, GoHttp.HeaderSet, GoHttp.Set_; cbn [GoHttp.handlerHeader GoHttp.wroteHeader GoHttp.written].
    rewrite !strip_insert. case_match; congruence.
  - unfold strip_rw, GoHttp.HeaderAdd, GoHttp.Add; cbn [GoHttp.handlerHeader GoHttp.wroteHeader GoHttp.written].
    rewrite !strip_insert.
    destruct (String.eqb_spec (GoHttp.CanonicalHeaderKey key) "Server");
      [congruence|].
    rewrite <-(strip_values (GoHttp.handlerHeader a)),
            <-(strip_values (GoHttp.handlerHeader b)) by done.
    congruence.
  - apply HWH.
  - unfold GoHttp.Write.
    specialize (HWH GoHttp.StatusOK). apply strip_rw_inv in HWH as (?&?&?).
    unfold strip_rw; cbn [GoHttp.handlerHeader GoHttp.wroteHeader GoHttp.written]. congruence.
Qed.

Lemma strip_rw_ops (os : list Op) a b :
  strip_rw a = strip_rw b → strip_rw (rw_ops os a) = strip_rw (rw_ops os b).
Proof.
  revert a b. induction os as [|o os IH]; intros a b Hab; [done|].
  simpl. by apply IH, strip_rw_op.
Qed.

Lemma strip_rw_quiet (o : Op) a :
  quiet o = true → strip_rw (rw_op o a) = strip_rw a.
Proof.
  destruct o; cbn [rw_op quiet]; try done. intros Hq.
  unfold strip_rw, GoHttp.HeaderSet, GoHttp.Set_; cbn [GoHttp.handlerHeader GoHttp.wroteHeader GoHttp.written].
  by rewrite strip_insert, Hq.
Qed.

Lemma finish_strip a b :
  strip_rw a = strip_rw b →
  GoHttp.status (GoHttp.finish a) = GoHttp.status (GoHttp.finish b) ∧
  GoHttp.body (GoHttp.finish a) = GoHttp.body (GoHttp.finish b) ∧
  strip (GoHttp.header (GoHttp.finish a))
  = strip (GoHttp.header (GoHttp.finish b)).
Proof.
  intros (Hh & Hw & Hb)%strip_rw_inv. unfold GoHttp.finish.
  destruct (GoHttp.wroteHeader a) as [[]|], (GoHttp.wroteHeader b) as [[]|];
    simplify_eq/=; done.
Qed.

(** ** What the goroutine of the master writes *)

Lemma values_Add (h : Header) (k v k' : string) :
  GoHttp.values (GoHttp.Add h k v) k'
  = if decide (GoHttp.CanonicalHeaderKey k = k')
    then GoHttp.values h k' ++ [v] else GoHttp.values h k'.
Proof.
  unfold GoHttp.Add, GoHttp.values at 1. rewrite lookup_insert.
  by case_decide; subst.
Qed.

Lemma values_Set (h : Header) (k v k' : string) :
  GoHttp.values (GoHttp.Set_ h k v) k'
  = if decide (GoHttp.CanonicalHeaderKey k = k') then [v]
    else GoHttp.values h k'.
Proof.
  unfold GoHttp.Set_, GoHttp.values at 1. rewrite lookup_insert.
  by case_decide.
Qed.

Lemma grows_refl rw : grows rw rw.
Proof. by split_and!. Qed.

Lemma grows_trans a b d : grows a b → grows b d → grows a d.
Proof.
  intros (?&?&Hab) (?&?&Hbd). split_and!; [congruence..|].
  intros k v Hin. by apply Hbd, Hab.
Qed.

Lemma rw_ops_app os1 os2 rw :
  rw_ops (os1 ++ os2) rw = rw_ops os2 (rw_ops os1 rw).
Proof. apply foldl_app. Qed.

Lemma add_values (k : string) (vs : list string) : ∀ rw,
  grows rw (rw_ops (OHeaderAdd k <$> vs) rw) ∧
  ∀ v, v ∈ vs →
       v ∈ GoHttp.values
             (GoHttp.handlerHeader (rw_ops (OHeaderAdd k <$> vs) rw))
             (GoHttp.CanonicalHeaderKey k).
Proof.
  induction vs as [|x vs IH]; intros rw.
  - split; [apply grows_refl|]. by intros v ?%elem_of_nil.
  - cbn [fmap list_fmap rw_ops foldl rw_op].
    change (foldl _ ?a ?l) with (rw_ops l a).
    destruct (IH (GoHttp.HeaderAdd rw k x)) as [Hg Hin].
    assert (Hstep : grows rw (GoHttp.HeaderAdd rw k x)).
    { split_and!; [done..|]. intros k' v Hv.
      cbn [GoHttp.HeaderAdd GoHttp.handlerHeader]. rewrite values_Add.
      case_decide; set_solver. }
    split; [by eapply grows_trans|].
    intros v [->|Hv]%elem_of_cons; [|by apply Hin].
    destruct Hg as (_ & _ & Hg). apply Hg.
    cbn [GoHttp.HeaderAdd GoHttp.handlerHeader]. rewrite values_Add.
    rewrite decide_True by done. set_solver.
Qed.

Lemma add_list_values (l : list (string * list string)) : ∀ rw,
  grows rw (rw_ops (flat_map (λ kv, OHeaderAdd kv.1 <$> kv.2) l) rw) ∧
  ∀ k vs v, (k, vs) ∈ l → v ∈ vs →
    v ∈ GoHttp.values
          (GoHttp.handlerHeader
             (rw_ops (flat_map (λ kv, OHeaderAdd kv.1 <$> kv.2) l) rw))
          (GoHttp.CanonicalHeaderKey k).
Proof.
  induction l as [|[k0 vs0] l IH]; intros rw.
  - split; [apply grows_refl|]. by intros k vs v ?%elem_of_nil.
  - cbn [flat_map]. rewrite rw_ops_app. cbn [fst snd].
    destruct (add_values k0 vs0 rw) as [Hg0 Hin0].
    destruct (IH (rw_ops (OHeaderAdd k0 <$> vs0) rw)) as [Hg Hin].
    split; [by eapply grows_trans|].
    intros k vs v [[= -> ->]|Hl]%elem_of_cons Hv; [|by eapply Hin].
    destruct Hg as (_ & _ & Hg). by apply Hg, Hin0.
Qed.

Lemma add_all_values (h : Header) (rw : GoHttp.ResponseWriter) :
  grows rw (rw_ops (add_all h) rw) ∧
  ∀ k vs v, h !! k = Some vs → v ∈ vs →
    v ∈ GoHttp.values (GoHttp.handlerHeader (rw_ops (add_all h) rw))
          (GoHttp.CanonicalHeaderKey k).
Proof.
  destruct (add_list_values (map_to_list h) rw) as [Hg Hin].
  split; [done|]. intros k vs v Hk Hv.
  apply (Hin k vs v); [|done]. by apply elem_of_map_to_list.
Qed.

(** the response after the statements of a master whose call succeeded *)
Lemma master_response (resp : GoHttp.Response) (url : string)
  (pre post : list Op) (rw : GoHttp.ResponseWriter) :
  Forall (λ o, rw_op o = id) pre → Forall (λ o, rw_op o = id) post →
  GoHttp.wroteHeader rw = None → GoHttp.written rw = "" →
  let r :=
    GoHttp.finish
      (rw_ops (pre ++ [OHeaderSet "Server" "api-proxy"] ++
               add_all (GoHttp.RespHeader resp) ++
               [OHeaderSet "api-url" url] ++
               io_Copy (GoHttp.RespBody resp) ++ post) rw) in
  GoHttp.status r = GoHttp.StatusOK ∧
  GoHttp.body r = GoHttp.RespBody resp ∧
  GoHttp.values (GoHttp.header r) "Api-Url" = [url] ∧
  ∀ k vs v, GoHttp.RespHeader resp !! k = Some vs → v ∈ vs →
            GoHttp.CanonicalHeaderKey k ≠ "Api-Url" →
            v ∈ GoHttp.values (GoHttp.header r) (GoHttp.CanonicalHeaderKey k).
Proof.
  intros Hpre Hpost Hw Hb.
  assert (Hid : ∀ os a, Forall (λ o, rw_op o = id) os → rw_ops os a = a).
  { intros os. induction os as [|o os IH]; intros a Hos; [done|].
    apply Forall_cons in Hos as [Ho Hos]. simpl. rewrite Ho. by apply IH. }
  rewrite !rw_ops_app, (Hid pre), (Hid post) by done.
  cbn [rw_ops foldl rw_op].
  set (rw1 := GoHttp.HeaderSet rw "Server" "api-proxy").
  change (foldl _ rw1 ?l) with (rw_ops l rw1).
  destruct (add_all_values (GoHttp.RespHeader resp) rw1)
    as [(Hw2 & Hb2 & _) Hin].
  set (rw2 := rw_ops (add_all (GoHttp.RespHeader resp)) rw1) in *.
  set (rw3 := GoHttp.HeaderSet rw2 "api-url" url).
  assert (Hfin : GoHttp.finish (rw_ops (io_Copy (GoHttp.RespBody resp)) rw3)
                 = {| GoHttp.status := GoHttp.StatusOK;
                      GoHttp.header := GoHttp.handlerHeader rw3;
                      GoHttp.body := GoHttp.RespBody resp |}).
  { assert (Hw3 : GoHttp.wroteHeader rw3 = None).
    { transitivity (GoHttp.wroteHeader rw2); [done|].
      rewrite Hw2. exact Hw. }
    assert (Hb3 : GoHttp.written rw3 = "").
    { transitivity (GoHttp.written rw2); [done|]. rewrite Hb2. exact Hb. }
    unfold io_Copy. destruct (String.eqb_spec (GoHttp.RespBody resp) "")
      as [->|Hne]; cbn [rw_ops foldl rw_op].
    - unfold GoHttp.finish. by rewrite Hw3.
    - unfold GoHttp.finish, GoHttp.Write, GoHttp.WriteHeader.
      rewrite Hw3. cbn [GoHttp.wroteHeader GoHttp.written]. by rewrite Hb3. }
  rewrite Hfin. cbn [GoHttp.status GoHttp.body GoHttp.header].
  split_and!; [done..| |].
  - cbn [rw3 GoHttp.HeaderSet GoHttp.handlerHeader]. by rewrite values_Set.
  - intros k vs v Hk Hv Hne.
    cbn [rw3 GoHttp.HeaderSet GoHttp.handlerHeader]. rewrite values_Set.
    rewrite decide_False by (intros Heq; apply Hne; by rewrite <-Heq).
    by eapply Hin.
Qed.

(** ** The engine *)

Section engine.
Context `{E : Engine} (port : Z) (c : Ctx).

Local Abbreviation hosts := (Api.Hosts (c_api c)).

Lemma run_ind (P : State → Prop) :
  (∀ s d, P s → P (step port c s d)) →
  ∀ sched s, P s → P (run port c sched s).
Proof.
  intros Hstep sched. induction sched as [|d sched IH]; intros s Hs; [done|].
  simpl. apply IH, Hstep, Hs.
Qed.

Lemma thread_op_host now o t : t_host (thread_op now o t) = t_host t.
Proof. by destruct o. Qed.

Lemma thread_op_code now o t : t_code (thread_op now o t) = tail (t_code t).
Proof. by destruct o. Qed.

(** *** The shape of a goroutine *)

Lemma add_all_Forall (P : Op → Prop) (h : Header) :
  (∀ k v, P (OHeaderAdd k v)) → Forall P (add_all h).
Proof.
  intros HP. unfold add_all. apply Forall_flat_map, Forall_forall.
  intros [k vs] _. apply Forall_fmap, Forall_forall. intros v _. apply HP.
Qed.

Lemma io_Copy_Forall (P : Op → Prop) (data : string) :
  (∀ d, P (OWrite d)) → Forall P (io_Copy data).
Proof. intros HP. unfold io_Copy. case_match; repeat constructor; done. Qed.

Ltac each_op :=
  repeat first
    [ apply Forall_nil_2
    | apply Forall_cons; split; [done|]
    | apply Forall_app; split
    | apply add_all_Forall; done
    | apply io_Copy_Forall; done
    | case_match ].

Lemma goroutine_shape (h : Host.t) :
  ∃ body, goroutine c h = OStart :: body ++ [ODone] ∧
          Forall (λ o, is_edge o = false) body.
Proof.
  unfold goroutine. simpl. eexists (_ :: _ :: _). split; [done|].
  each_op.
Qed.

Lemma goroutine_ignored (h : Host.t) :
  IsHostIgnore (c_caller c) (Host.Name h) = true →
  goroutine c h =
    [OStart; OLogData ("host_" +:+ Host.Name h);
     OBackLog "isMaster" (LBool (isMaster (c_masterHost c) h));
     OBackLog "ignore" (LBool true); ODone].
Proof. intros Hig. unfold goroutine. by rewrite Hig. Qed.

Lemma goroutine_shadow (h : Host.t) :
  isMaster (c_masterHost c) h = false → Forall (λ o, quiet o = true) (goroutine c h).
Proof. intros Hm. unfold goroutine. rewrite Hm. each_op. Qed.

Lemma goroutine_no_panic (h : Host.t) :
  (IsHostIgnore (c_caller c) (Host.Name h) = false →
   NewRequest_ok (GoHttp.Method (c_req c)) (urlNew c h) = true) →
  Forall (λ o, o ≠ OPanic) (goroutine c h).
Proof.
  intros Hok. unfold goroutine.
  destruct (IsHostIgnore _ _); [each_op|]. rewrite Hok; [|done]. each_op.
Qed.

Lemma goroutine_master_ok (h : Host.t) (resp : GoHttp.Response) :
  isMaster (c_masterHost c) h = true →
  IsHostIgnore (c_caller c) (Host.Name h) = false →
  NewRequest_ok (GoHttp.Method (c_req c)) (urlNew c h) = true →
  Do h (reqNew c h) = inl resp →
  goroutine c h =
    [OStart; OLogData ("host_" +:+ Host.Name h);
     OBackLog "isMaster" (LBool true);
     OBackLog "url" (LStr (urlNew c h));
     ODo (reqNew c h)] ++
    [OHeaderSet "Server" "api-proxy"] ++
    add_all (GoHttp.RespHeader resp) ++
    [OHeaderSet "api-url" (urlNew c h)] ++
    io_Copy (GoHttp.RespBody resp) ++ [OUsed; ODone].
Proof.
  intros Hm Hig Hok Hdo. unfold goroutine.
  rewrite Hm, Hig, Hok, Hdo. simpl. by rewrite <-!app_assoc.
Qed.


Lemma goroutine_first (h : Host.t) o rest :
  goroutine c h = o :: rest → o = OStart.
Proof.
  destruct (goroutine_shape h) as (body & -> & _). by intros [= <- _].
Qed.

Lemma goroutine_last (h : Host.t) done o :
  goroutine c h = done ++ [o] → o = ODone.
Proof.
  destruct (goroutine_shape h) as (body & -> & _).
  rewrite app_comm_cons. by intros [_ <-]%app_inj_tail.
Qed.

Lemma goroutine_Done_last (h : Host.t) done rest :
  goroutine c h = done ++ ODone :: rest → rest = [].
Proof.
  destruct (goroutine_shape h) as (body & -> & Hb).
  destruct rest as [|x rest _] using rev_ind; [done|].
  rewrite app_comm_cons, (app_comm_cons rest), app_assoc.
  intros [Heq _]%app_inj_tail.
  assert (Hin : ODone ∈ OStart :: body) by (rewrite Heq; set_solver).
  apply elem_of_cons in Hin as [?|Hin]; [done|].
  rewrite Forall_forall in Hb. by specialize (Hb _ Hin).
Qed.

(** *** The invariant of a run *)

Local Arguments goroutine : simpl never.

Lemma thread_ok_mono entered now now' lg lg' t :
  (now ≤ now')%nat → lg ⊆ lg' →
  thread_ok c entered now lg t → thread_ok c entered now' lg' t.
Proof.
  intros Hn Hl (done & Hg & Hs & Hd & Hb & Hf). exists done.
  split_and!; [done| | |done|].
  - destruct Hs as [?|(a & ? & ? & ?)]; [by left|right].
    exists a. split_and!; [done..|lia].
  - intros Hc. destruct (Hd Hc) as (a & f & ? & ? & ? & ?).
    exists a, f. split_and!; [done..|lia].
  - intros url err Hin. apply Hl, Hf, Hin.
Qed.

Lemma busy_insert (ts : list Thread) i t t' :
  ts !! i = Some t →
  (sum_list_with busy (<[i := t']> ts) + busy t
   = sum_list_with busy ts + busy t')%nat.
Proof.
  revert i. induction ts as [|x ts IH]; intros [|i] Hi; simplify_eq/=;
    [lia|]. specialize (IH _ Hi). lia.
Qed.

Lemma busy_zero (ts : list Thread) :
  sum_list_with busy ts = 0%nat → Forall (λ t, t_code t = []) ts.
Proof.
  induction ts as [|x ts IH]; [constructor|]. simpl.
  intros Hs. constructor.
  - unfold busy in Hs. destruct (t_code x); [done|lia].
  - apply IH. lia.
Qed.

Lemma inv_start rw now : inv c (start c rw now).
Proof. split; simpl; try done. Qed.

Lemma inv_tick dt s : inv c s → inv c (tick dt s).
Proof.
  intros [Hh Ht Hc Hw Hr]. split; simpl; try done.
  - eapply Forall_impl; [exact Ht|]. intros t.
    apply thread_ok_mono; [lia|done].
  - lia.
  - intros Hm. destruct (Hr Hm) as (T & ? & ? & ? & ?). exists T.
    split_and!; [done..|lia|done].
Qed.

Lemma inv_step_main s : inv c s → inv c (step_main port c s).
Proof.
  intros [Hh Ht Hc Hw Hr]. unfold step_main.
  destruct (s_main s) as [[|h rest]| |] eqn:Hm; simpl in *.
  - split; simpl; done.
  - split; simpl; try done.
    + by rewrite fmap_app, <-app_assoc.
    + apply Forall_app; split; [done|]. constructor; [|constructor].
      exists []. split_and!; simpl; try done; [by left|].
      intros url err Hin. by apply elem_of_nil in Hin.
    + pose proof (goroutine_shape h) as (b & Hb & _).
      assert (busy (new_thread c h) = 1%nat) as Hbusy.
      { unfold busy, new_thread. cbn [t_code]. by rewrite Hb. }
      rewrite sum_list_with_app, Hw. cbn [sum_list_with].
      rewrite Hbusy. lia.
  - destruct (s_wg s) eqn:Hwg.
    + split; simpl; try done.
      * eapply Forall_impl; [exact Ht|]. intros t.
        apply thread_ok_mono; [lia|set_solver].
      * intros _. exists (s_now s). split_and!; [done..|].
        symmetry in Hw. apply busy_zero in Hw.
        rewrite Forall_forall in Ht, Hw. apply Forall_forall.
        intros t Hin. split; [by apply Hw|].
        destruct (Ht _ Hin) as (_ & _ & _ & Hd & _).
        destruct (Hd (Hw _ Hin)) as (a & f & _ & Hf & _ & ?).
        intros f' Hf'. congruence.
    + split; rewrite ?Hm, ?Hwg; simpl; done.
  - split; rewrite ?Hm; simpl; try done.
Qed.


Lemma thread_op_start now o t :
  t_start (thread_op now o t)
  = match o with OStart => Some now | _ => t_start t end.
Proof. by destruct o. Qed.

Lemma thread_op_done now o t :
  t_done (thread_op now o t)
  = match o with ODone => Some now | _ => t_done t end.
Proof. by destruct o. Qed.

Lemma thread_op_backLog now o t :
  o ≠ OUsed → t_backLog (thread_op now o t) = bl_op (t_backLog t) o.
Proof. by destruct o. Qed.

Lemma shared_op_log i t o s :
  s_log s ⊆ s_log (shared_op i t o s).
Proof. destruct o; simpl; set_solver. Qed.

Lemma thread_ok_step entered now lg i s t o rest :
  (entered ≤ now)%nat →
  t_code t = o :: rest →
  lg = s_log (shared_op i t o s) →
  thread_ok c entered now (s_log s) t →
  thread_ok c entered now lg (thread_op now o t).
Proof.
  intros Hen Hcode -> (done & Hg & Hs & _ & Hb & Hf).
  rewrite Hcode in Hg.
  assert (Hst : o = OStart ∨
                ∃ a, t_start t = Some a ∧ (entered ≤ a)%nat ∧ (a ≤ now)%nat).
  { destruct Hs as [->|?]; [left|by right].
    eapply goroutine_first, Hg. }
  assert (Hst' : ∃ a, t_start (thread_op now o t) = Some a ∧
                      (entered ≤ a)%nat ∧ (a ≤ now)%nat).
  { rewrite thread_op_start.
    destruct Hst as [->|(a & Ha & ? & ?)]; [by exists now|].
    destruct o; eauto. }
  exists (done ++ [o]).
  rewrite thread_op_host, thread_op_code, Hcode. simpl.
  split_and!.
  - by rewrite <-app_assoc.
  - by right.
  - intros ->. rewrite (goroutine_last _ _ _ Hg) in *.
    destruct Hst' as (a & Ha & ? & ?). exists a, now.
    by rewrite thread_op_done.
  - intros [Hd Ho]%Forall_app. rewrite Forall_singleton in Ho.
    rewrite thread_op_backLog, foldl_app, Hb; done.
  - intros url err [Hin| <-%list_elem_of_singleton]%elem_of_app.
    + by apply (shared_op_log i t o s), Hf.
    + simpl. set_solver.
Qed.

Lemma inv_step_go i s : inv c s → inv c (step_go i s).
Proof.
  intros Hinv. pose proof Hinv as [Hh Ht Hc Hw Hr]. unfold step_go.
  destruct (s_threads s !! i) as [t|] eqn:Hi; [|done].
  destruct (t_code t) as [|o rest] eqn:Hcode; [done|].
  assert (Hmain : s_main s ≠ Returned).
  { intros Hm. destruct (Hr Hm) as (T & _ & _ & _ & Hall).
    rewrite Forall_lookup in Hall. destruct (Hall _ _ Hi) as [? _].
    congruence. }
  pose proof Ht as Ht'. rewrite Forall_lookup in Ht'.
  pose proof (Ht' _ _ Hi) as Hok.
  split; simpl.
  - rewrite list_fmap_insert, thread_op_host, list_insert_id; [done|].
    by rewrite list_lookup_fmap, Hi.
  - apply Forall_insert.
    + eapply Forall_impl; [exact Ht|]. intros t0.
      apply thread_ok_mono; [done|]. destruct o; simpl; set_solver.
    + eapply (thread_ok_step _ _ _ i s); [done..| |done].
      by destruct o.
  - done.
  - pose proof (busy_insert _ _ _ (thread_op (s_now s) o t) Hi) as Hb.
    assert (busy t = 1%nat) as Hb1 by (unfold busy; by rewrite Hcode).
    assert (busy (thread_op (s_now s) o t)
            = match rest with [] => 0 | _ => 1 end%nat) as Hb2
      by (unfold busy; by rewrite thread_op_code, Hcode).
    rewrite Hb1, Hb2 in Hb. destruct Hok as (done & Hg & _).
    rewrite Hcode in Hg.
    assert (o = ODone ∨ o ≠ ODone) as [->|Hne]
      by (destruct o; (by left) || (by right)).
    + rewrite (goroutine_Done_last _ _ _ Hg) in Hb. lia.
    + assert (rest ≠ []) as Hrest.
      { intros ->. by apply goroutine_last in Hg. }
      destruct rest; [done|]. destruct o; try done; lia.
  - intros Hm. done.
Qed.

Lemma inv_step s d : inv c s → inv c (step port c s d).
Proof.
  intros Hinv. unfold step. destruct (s_panicked s); [done|].
  destruct d as [dt [|i]]; simpl.
  - by apply inv_step_main, inv_tick.
  - by apply inv_step_go, inv_tick.
Qed.

Lemma inv_run rw now sched : inv c (run port c sched (start c rw now)).
Proof. apply run_ind; [apply inv_step|apply inv_start]. Qed.


Lemma thread_host s i t :
  inv c s → s_threads s !! i = Some t → hosts !! i = Some (t_host t).
Proof.
  intros [Hh _ _ _ _] Hi. rewrite <-Hh.
  rewrite lookup_app_l; [by rewrite list_lookup_fmap, Hi|].
  rewrite length_fmap. by eapply lookup_lt_Some.
Qed.

Lemma thread_next s i t o rest :
  inv c s → s_threads s !! i = Some t → t_code t = o :: rest →
  ∃ h, hosts !! i = Some h ∧ t_host t = h ∧ o ∈ goroutine c h.
Proof.
  intros Hinv Hi Hcode. exists (t_host t).
  split_and!; [by eapply thread_host|done|].
  destruct Hinv as [_ Ht _ _ _]. rewrite Forall_lookup in Ht.
  destruct (Ht _ _ Hi) as (done & -> & _). rewrite Hcode. set_solver.
Qed.

Lemma run_entered sched s :
  s_entered (run port c sched s) = s_entered s.
Proof.
  apply (run_ind (λ s', s_entered s' = s_entered s)); [|done].
  intros s' [dt who] <-. unfold step. destruct (s_panicked s'); [done|].
  destruct who as [|i]; simpl.
  - unfold step_main. simpl. by repeat case_match.
  - unfold step_go. simpl. by repeat case_match.
Qed.

(** when the closure has returned, every host has a goroutine that ran
    to its end between the entry of the closure and its return *)
Lemma returned_after_all s :
  inv c s → s_main s = Returned →
  ∃ T, s_returned s = Some T ∧ (s_entered s ≤ T)%nat ∧
    ∀ i h, hosts !! i = Some h →
      ∃ t a f, s_threads s !! i = Some t ∧ t_host t = h ∧
               t_code t = [] ∧ t_start t = Some a ∧ t_done t = Some f ∧
               (s_entered s ≤ a)%nat ∧ (a ≤ f)%nat ∧ (f ≤ T)%nat.
Proof.
  intros Hinv Hm. pose proof Hinv as [Hh Ht Hc Hw Hr].
  destruct (Hr Hm) as (T & HT & HeT & HTn & Hall). exists T.
  rewrite Hm in Hh. simpl in Hh. rewrite app_nil_r in Hh.
  assert (Hhosts : ∀ i h, hosts !! i = Some h →
    ∃ t a f, s_threads s !! i = Some t ∧ t_host t = h ∧
             t_code t = [] ∧ t_start t = Some a ∧ t_done t = Some f ∧
             (s_entered s ≤ a)%nat ∧ (a ≤ f)%nat ∧ (f ≤ T)%nat).
  { intros i h Hi. rewrite <-Hh, list_lookup_fmap in Hi.
    destruct (s_threads s !! i) as [t|] eqn:Hti; simplify_eq/=.
    rewrite Forall_lookup in Ht, Hall.
    destruct (Hall _ _ Hti) as [Hcode HfT].
    destruct (Ht _ _ Hti) as (done & Hg & Hs & Hd & _).
    destruct (Hd Hcode) as (a & f & Ha & Hf & Haf & _).
    destruct Hs as [->|(a' & Ha' & Hea & _)].
    { rewrite Hcode in Hg. by destruct (goroutine_shape (t_host t))
        as (b & Hb & _); rewrite Hb in Hg. }
    simplify_eq. exists t, a', f. split_and!; eauto. }
  done.
Qed.

(** *** Hosts that touch neither the response nor the network *)

Lemma silent_run rw now sched :
  (∀ h, h ∈ hosts → Forall (λ o, silent o = true) (goroutine c h)) →
  let s := run port c sched (start c rw now) in
  s_rw s = rw ∧ s_calls s = [] ∧ s_panicked s = false.
Proof.
  intros Hsilent.
  enough (inv c (run port c sched (start c rw now)) ∧
          s_rw (run port c sched (start c rw now)) = rw ∧
          s_calls (run port c sched (start c rw now)) = [] ∧
          s_panicked (run port c sched (start c rw now)) = false)
    as (_ & ? & ? & ?) by done.
  apply (run_ind (λ s, inv c s ∧ s_rw s = rw ∧ s_calls s = [] ∧
                       s_panicked s = false));
    [|by split; [apply inv_start|]].
  intros s [dt who] (Hinv & Hrw & Hcalls & Hp).
  split; [by apply inv_step|].
  unfold step. rewrite Hp. destruct who as [|i]; simpl.
  - unfold step_main. simpl. by repeat case_match.
  - unfold step_go. simpl.
    destruct (s_threads s !! i) as [t|] eqn:Hi; [|done].
    destruct (t_code t) as [|o rest] eqn:Hcode; [done|]. simpl.
    destruct (thread_next s i t o rest Hinv Hi Hcode) as (h & Hh & _ & Ho).
    assert (Hs : silent o = true).
    { assert (h ∈ hosts) as Hin by (by eapply list_elem_of_lookup_2).
      specialize (Hsilent h Hin). rewrite Forall_forall in Hsilent.
      by apply Hsilent. }
    destruct o; try done.
Qed.


(** *** A schedule under which the closure returns *)

Lemma run_app sched1 sched2 s :
  run port c (sched1 ++ sched2) s = run port c sched2 (run port c sched1 s).
Proof. apply foldl_app. Qed.

Lemma run_thread (code : list Op) : ∀ s i t,
  s_threads s !! i = Some t → t_code t = code →
  s_panicked s = false → Forall (λ o, o ≠ OPanic) code →
  Forall (λ t, t_code t = []) (delete i (s_threads s)) →
  let s' := run port c (replicate (List.length code) (0%nat, Go i)) s in
  s_main s' = s_main s ∧ s_panicked s' = false ∧ finished s' ∧
  List.length (s_threads s') = List.length (s_threads s).
Proof.
  induction code as [|o code IH]; intros s i t Hi Hcode Hp Hnp Hothers.
  - simpl. split_and!; try done. unfold finished.
    rewrite <-(take_drop_middle _ _ _ Hi).
    rewrite delete_take_drop in Hothers.
    apply Forall_app in Hothers as [??].
    apply Forall_app; split; [done|]. by constructor.
  - apply Forall_cons in Hnp as [Ho Hnp].
    cbn [List.length replicate run foldl].
    change (foldl (step port c) ?a ?l) with (run port c l a).
    set (s1 := step port c s (0%nat, Go i)).
    assert (Hs1 : s_threads s1 = <[i := thread_op (s_now s + 0) o t]> (s_threads s) ∧
                  s_main s1 = s_main s ∧ s_panicked s1 = false).
    { unfold s1, step. rewrite Hp. simpl. unfold step_go. simpl.
      rewrite Hi, Hcode. simpl. split_and!; [done..|].
      by destruct o. }
    destruct Hs1 as (Hts & Hm1 & Hp1).
    destruct (IH s1 i (thread_op (s_now s + 0) o t)) as (? & ? & ? & Hlen).
    + rewrite Hts. apply list_lookup_insert_eq. by eapply lookup_lt_Some.
    + by rewrite thread_op_code, Hcode.
    + done.
    + done.
    + rewrite Hts. rewrite !delete_take_drop in *.
      rewrite take_insert_ge, drop_insert_lt; [done|lia..].
    + split_and!; [congruence|done..|].
      by rewrite Hlen, Hts, length_insert.
Qed.

Lemma run_round s h rest :
  s_main s = Loop (h :: rest) → s_panicked s = false → finished s →
  Forall (λ o, o ≠ OPanic) (goroutine c h) →
  let s' := run port c (round c (List.length (s_threads s)) h) s in
  s_main s' = Loop rest ∧ s_panicked s' = false ∧ finished s' ∧
  List.length (s_threads s') = S (List.length (s_threads s)).
Proof.
  intros Hm Hp Hfin Hnp. unfold round.
  cbn [run foldl]. change (foldl (step port c) ?a ?l) with (run port c l a).
  set (s1 := step port c s (0%nat, Closure)).
  assert (Hs1 : s_threads s1 = s_threads s ++ [new_thread c h] ∧
                s_main s1 = Loop rest ∧ s_panicked s1 = false).
  { unfold s1, step. rewrite Hp. simpl. unfold step_main. simpl.
    by rewrite Hm. }
  destruct Hs1 as (Hts & Hm1 & Hp1).
  destruct (run_thread (goroutine c h) s1 (List.length (s_threads s))
              (new_thread c h)) as (? & ? & ? & Hlen).
  - rewrite Hts. by apply list_lookup_middle.
  - done.
  - done.
  - done.
  - rewrite Hts, delete_take_drop.
    rewrite take_app_length, drop_app_ge by lia.
    replace (S _ - _)%nat with 1%nat by lia. simpl. by rewrite app_nil_r.
  - split_and!; [congruence|done..|].
    rewrite Hlen, Hts, length_app. simpl. lia.
Qed.

Lemma run_rounds (hs : list Host.t) : ∀ s,
  s_main s = Loop hs → s_panicked s = false → finished s →
  Forall (λ h, Forall (λ o, o ≠ OPanic) (goroutine c h)) hs →
  let s' := run port c (rounds c (List.length (s_threads s)) hs) s in
  s_main s' = Loop [] ∧ s_panicked s' = false ∧ finished s'.
Proof.
  induction hs as [|h hs IH]; intros s Hm Hp Hfin Hnp; [done|].
  apply Forall_cons in Hnp as [Hh Hnp].
  cbn [rounds]. rewrite run_app.
  destruct (run_round s h hs Hm Hp Hfin Hh) as (Hm1 & Hp1 & Hf1 & Hlen).
  rewrite <-Hlen. by apply IH.
Qed.

Lemma in_order_returns rw now :
  Forall (λ h, Forall (λ o, o ≠ OPanic) (goroutine c h)) hosts →
  s_main (run port c (in_order c) (start c rw now)) = Returned.
Proof.
  intros Hnp. unfold in_order. rewrite run_app.
  pose proof (inv_run rw now (rounds c 0 hosts)) as Hinv.
  destruct (run_rounds hosts (start c rw now)) as (Hm & Hp & Hfin);
    [done..|by constructor|done|].
  change (List.length (s_threads (start c rw now))) with 0%nat in *.
  fold hosts.
  set (s1 := run port c (rounds c 0 hosts) (start c rw now)) in *.
  assert (Hwg : s_wg s1 = 0%nat).
  { destruct Hinv as [_ _ _ Hw _]. rewrite Hw. clear -Hfin.
    unfold finished in Hfin.
    induction Hfin as [|t ts Ht _ IH]; [done|]. simpl.
    unfold busy at 1. by rewrite Ht. }
  cbn [run foldl].
  set (s2 := step port c s1 (0%nat, Closure)).
  assert (Hs2 : s_main s2 = Wait ∧ s_panicked s2 = false ∧
                s_wg s2 = 0%nat).
  { unfold s2, step. rewrite Hp. simpl. unfold step_main. simpl.
    by rewrite Hm. }
  destruct Hs2 as (Hm2 & Hp2 & Hw2).
  unfold step. rewrite Hp2. simpl. unfold step_main. simpl.
  by rewrite Hm2, Hw2.
Qed.


(** *** The per-request diagnostics *)

Lemma goroutine_LogData (h : Host.t) (key : string) :
  OLogData key ∈ goroutine c h → key = key_of h.
Proof.
  assert (Forall (λ o, match o with
                       | OLogData k => k = key_of h
                       | _ => True
                       end) (goroutine c h)) as Hall.
  { unfold goroutine. each_op. }
  rewrite Forall_forall in Hall. intros Hin. apply (Hall _ Hin).
Qed.

Lemma inv_log_step s d : inv c s → inv_log s → inv_log (step port c s d).
Proof.
  intros Hinv [Hk Hs]. unfold step. destruct (s_panicked s); [done|].
  pose proof (inv_tick (fst d) s Hinv) as Hinv'.
  destruct d as [dt [|i]]; cbn [fst snd] in *.
  - unfold step_main. cbn [tick s_main s_wg s_threads].
    destruct (s_main s) as [[|h rest]| |] eqn:Hmain;
      try (by split); [|by destruct (s_wg s); split].
    split; cbn [s_logData s_threads].
    + intros key j Hj. destruct (Hk _ _ Hj) as (t & Ht & ->).
      exists t. split; [|done]. by apply lookup_app_l_Some.
    + apply Forall_app; split; [done|]. constructor; [|constructor].
      left. cbn [new_thread t_host t_code]. unfold goroutine.
      cbn [app]. set_solver.
  - unfold step_go. cbn [tick s_threads].
    destruct (s_threads s !! i) as [t|] eqn:Hi; [|by split].
    destruct (t_code t) as [|o rest] eqn:Hcode; [by split|].
    destruct (thread_next (tick dt s) i t o rest Hinv' Hi Hcode)
      as (h & Hh & <- & Ho).
    split; cbn [set_threads shared_op s_logData s_threads tick s_now].
    + intros key j Hj.
      assert (Hcase : (key = key_of (t_host t) ∧ j = i) ∨
                      s_logData s !! key = Some j).
      { destruct o; try by right.
        apply lookup_insert_Some in Hj as [[<- <-]|[_ Hj]]; [left|by right].
        by rewrite (goroutine_LogData _ _ Ho). }
      destruct Hcase as [[-> ->]|Hold].
      * eexists. rewrite list_lookup_insert_eq by (by eapply lookup_lt_Some).
        split; [done|]. by rewrite thread_op_host.
      * destruct (Hk _ _ Hold) as (t' & Ht' & ->).
        destruct (decide (j = i)) as [->|Hne].
        -- simplify_eq. eexists.
           rewrite list_lookup_insert_eq by (by eapply lookup_lt_Some).
           split; [done|]. by rewrite thread_op_host.
        -- exists t'. by rewrite list_lookup_insert_ne.
    + assert (Hkeep : ∀ key, is_Some (s_logData s !! key) →
         is_Some (match o with
                  | OLogData key0 => <[key0 := i]> (s_logData s)
                  | _ => s_logData s
                  end !! key)).
      { intros key Hsome. destruct o; try done.
        rewrite lookup_insert. case_decide; [by eexists|done]. }
      apply Forall_insert.
      * eapply Forall_impl; [exact Hs|]. intros t' [?|?]; [by left|right].
        by apply Hkeep.
      * rewrite thread_op_host, thread_op_code, Hcode. cbn [tail].
        rewrite Forall_lookup in Hs.
        destruct (Hs _ _ Hi) as [Hin|Hsome]; [|right; by apply Hkeep].
        rewrite Hcode in Hin.
        apply elem_of_cons in Hin as [<-|Hin]; [right|by left].
        rewrite lookup_insert_eq. by eexists.
Qed.

Lemma inv_log_run rw now sched :
  inv_log (run port c sched (start c rw now)).
Proof.
  enough (inv c (run port c sched (start c rw now)) ∧
          inv_log (run port c sched (start c rw now))) as [_ ?] by done.
  apply (run_ind (λ s, inv c s ∧ inv_log s)).
  - intros s d [Hinv Hlog]. split; [by apply inv_step|].
    by apply inv_log_step.
  - split; [apply inv_start|]. split; [|by constructor].
    intros key j Hj. unfold start in Hj. cbn [s_logData] in Hj.
    by rewrite lookup_empty in Hj.
Qed.

(** when every host is ignored, the log line of a finished request
    holds, for every host, a [backLog] with [isMaster] and [ignore] *)
Lemma returned_ignored rw now sched :
  let s := run port c sched (start c rw now) in
  (∀ h, h ∈ hosts → IsHostIgnore (c_caller c) (Host.Name h) = true) →
  s_main s = Returned →
  ∀ h, h ∈ hosts →
    resolve_logData s !! key_of h
    = Some (<["ignore" := LBool true]>
              (<["isMaster" := LBool (isMaster (c_masterHost c) h)]> ∅)).
Proof.
  intros s Hig Hret h Hin.
  pose proof (inv_run rw now sched) as Hinv. fold s in Hinv.
  destruct (inv_log_run rw now sched) as [Hk Hs]. fold s in Hk, Hs.
  destruct (returned_after_all s Hinv Hret) as (T & _ & _ & Hall).
  apply list_elem_of_lookup in Hin as [i Hi].
  destruct (Hall i h Hi) as (t & _ & _ & Hti & <- & Hcode & _).
  rewrite Forall_lookup in Hs.
  destruct (Hs _ _ Hti) as [Hin|[j Hj]].
  { rewrite Hcode in Hin. by apply elem_of_nil in Hin. }
  destruct (Hk _ _ Hj) as (t' & Htj & Hkey).
  pose proof (thread_host s j t' Hinv Htj) as Hhj.
  destruct (Hall j _ Hhj) as (t'' & _ & _ & Htj' & _ & Hcode' & _).
  rewrite Htj in Htj'. injection Htj' as <-.
  assert (Hname : Host.Name (t_host t) = Host.Name (t_host t')).
  { unfold key_of in Hkey. by injection Hkey. }
  unfold resolve_logData. rewrite lookup_omap, Hj. cbn [mbind option_bind].
  rewrite Htj. cbn [fmap option_fmap option_map]. f_equal.
  destruct Hinv as [_ Ht _ _ _]. rewrite Forall_lookup in Ht.
  destruct (Ht _ _ Htj) as (done & Hg & _ & _ & Hbl & _).
  rewrite Hcode', app_nil_r in Hg. subst done.
  rewrite goroutine_ignored in Hbl
    by (apply Hig; by eapply list_elem_of_lookup_2).
  rewrite Hbl by (repeat constructor; done).
  cbn [foldl bl_op]. unfold isMaster. by rewrite Hname.
Qed.

(** a finished request has logged every failed call *)
Lemma returned_logged rw now sched h url err :
  let s := run port c sched (start c rw now) in
  s_main s = Returned → h ∈ hosts →
  OLogFetch url err ∈ goroutine c h → ELFetch url err ∈ s_log s.
Proof.
  intros s Hret Hin Ho.
  pose proof (inv_run rw now sched) as Hinv. fold s in Hinv.
  destruct (returned_after_all s Hinv Hret) as (T & _ & _ & Hall).
  apply list_elem_of_lookup in Hin as [i Hi].
  destruct (Hall i h Hi) as (t & _ & _ & Hti & <- & Hcode & _).
  destruct Hinv as [_ Ht _ _ _]. rewrite Forall_lookup in Ht.
  destruct (Ht _ _ Hti) as (done & Hg & _ & _ & _ & Hlog).
  rewrite Hcode, app_nil_r in Hg. subst done. by apply Hlog.
Qed.

Lemma goroutine_shadow_error (h : Host.t) (err : string) :
  IsHostIgnore (c_caller c) (Host.Name h) = false →
  NewRequest_ok (GoHttp.Method (c_req c)) (urlNew c h) = true →
  Do h (reqNew c h) = inr err →
  OLogFetch (urlNew c h) err ∈ goroutine c h.
Proof.
  intros Hig Hok Hdo. unfold goroutine. rewrite Hig, Hok, Hdo.
  cbn [app]. set_solver.
Qed.

(** *** The response is written by the master alone *)

Section one_master.
Hypothesis names_unique : NoDup (Host.Name <$> hosts).
Variable rw0 : GoHttp.ResponseWriter.

Lemma master_unique i j h h' :
  hosts !! i = Some h → hosts !! j = Some h' →
  isMaster (c_masterHost c) h = true →
  isMaster (c_masterHost c) h' = true → i = j.
Proof.
  unfold isMaster. intros Hi Hj ->%String.eqb_eq Heq%String.eqb_eq.
  eapply NoDup_lookup; [exact names_unique|..];
    rewrite list_lookup_fmap; [by rewrite Hi|by rewrite Hj, Heq].
Qed.

Lemma inv_rw_step s d : inv c s → inv_rw c rw0 s → inv_rw c rw0 (step port c s d).
Proof.
  intros Hinv (D & Hsim & Hm & Hnone). unfold step.
  destruct (s_panicked s); [by exists D|].
  pose proof (inv_tick (fst d) s Hinv) as Hinv'.
  destruct d as [dt [|i]]; cbn [fst snd] in *.
  - unfold step_main. cbn [tick s_main s_wg s_threads].
    destruct (s_main s) as [[|h rest]| |] eqn:Hmain;
      try (by exists D); [|by destruct (s_wg s); exists D].
    exists D. cbn [s_rw s_threads]. split_and!; [done| |].
    + intros j t [[_ Hj]|[-> <-]]%lookup_snoc_Some Hmaster;
        [by eapply Hm|].
      * cbn [new_thread t_host t_code] in *.
        rewrite Hnone; [done|]. intros j' t' Hj'.
        destruct (isMaster _ (t_host t')) eqn:Hm'; [|done].
        assert (hosts !! List.length (s_threads s) = Some h).
        { destruct Hinv as [Hh _ _ _ _]. rewrite Hmain in Hh.
          rewrite <-Hh. cbn [pending].
          rewrite lookup_app_r, length_fmap; rewrite ?length_fmap;
            [|lia]. by rewrite Nat.sub_diag. }
        pose proof (thread_host s j' t' Hinv Hj') as Hhj'.
        pose proof (master_unique _ _ _ _ Hhj' H Hm' Hmaster).
        apply lookup_lt_Some in Hj'. lia.
    + intros Hall. apply Hnone. intros j t Hj. apply (Hall j).
      by apply lookup_app_l_Some.
  - unfold step_go. cbn [tick s_threads].
    destruct (s_threads s !! i) as [t|] eqn:Hi; [|by exists D].
    destruct (t_code t) as [|o rest] eqn:Hcode; [by exists D|].
    cbn [set_threads shared_op s_rw s_threads tick s_now].
    destruct (thread_next (tick dt s) i t o rest Hinv' Hi Hcode)
      as (h & Hh & <- & Ho).
    destruct (isMaster (c_masterHost c) (t_host t)) eqn:Hmaster.
    + exists (D ++ [o]).
      cbn [set_threads shared_op s_rw s_threads tick s_now].
      split_and!.
      * rewrite rw_ops_app. cbn [rw_ops foldl].
        by apply strip_rw_op.
      * intros j t' Hj Hm'.
        destruct (decide (j = i)) as [->|Hne].
        -- rewrite list_lookup_insert_eq in Hj
             by (by eapply lookup_lt_Some). simplify_eq.
           rewrite thread_op_host, thread_op_code, Hcode in *.
           cbn [tail]. rewrite <-app_assoc.
           by rewrite (Hm _ _ Hi), Hcode.
        -- rewrite list_lookup_insert_ne in Hj by done.
           pose proof (thread_host s j t' Hinv Hj) as Hhj.
           by pose proof (master_unique _ _ _ _ Hhj Hh Hm' Hmaster).
      * intros Hall. exfalso.
        specialize (Hall i (thread_op (s_now s + dt) o t)).
        rewrite list_lookup_insert_eq, thread_op_host, Hmaster
          in Hall by (by eapply lookup_lt_Some).
        by specialize (Hall eq_refl).
    + exists D.
      cbn [set_threads shared_op s_rw s_threads tick s_now].
      split_and!.
      * rewrite strip_rw_quiet; [done|].
        pose proof (goroutine_shadow _ Hmaster) as Hq.
        rewrite Forall_forall in Hq. by apply Hq.
      * intros j t' Hj Hm'.
        destruct (decide (j = i)) as [->|Hne].
        -- rewrite list_lookup_insert_eq in Hj
             by (by eapply lookup_lt_Some). simplify_eq.
           rewrite thread_op_host in Hm'. congruence.
        -- rewrite list_lookup_insert_ne in Hj by done. by eapply Hm.
      * intros Hall. apply Hnone. intros j t' Hj.
        destruct (decide (j = i)) as [->|Hne]; [by simplify_eq|].
        apply (Hall j). by rewrite list_lookup_insert_ne.
Qed.

Lemma inv_rw_run now sched :
  inv_rw c rw0 (run port c sched (start c rw0 now)).
Proof.
  enough (inv c (run port c sched (start c rw0 now)) ∧
          inv_rw c rw0 (run port c sched (start c rw0 now))) as [_ ?] by done.
  apply (run_ind (λ s, inv c s ∧ inv_rw c rw0 s)).
  - intros s d [Hinv Hrw]. split; [by apply inv_step|].
    by apply inv_rw_step.
  - split; [apply inv_start|]. exists []. by split_and!.
Qed.

(** the response of a finished request, up to [Server], is what the
    goroutine of the master makes of the writer it was given *)
Lemma returned_response now sched i hm :
  let s := run port c sched (start c rw0 now) in
  s_main s = Returned →
  hosts !! i = Some hm → isMaster (c_masterHost c) hm = true →
  strip_rw (s_rw s) = strip_rw (rw_ops (goroutine c hm) rw0).
Proof.
  intros s Hret Hi Hmaster.
  pose proof (inv_run rw0 now sched) as Hinv. fold s in Hinv.
  destruct (inv_rw_run now sched) as (D & Hsim & Hm & _). fold s in Hsim, Hm.
  destruct (returned_after_all s Hinv Hret) as (T & _ & _ & Hall).
  destruct (Hall i hm Hi) as (t & a & f & Hti & <- & Hcode & _).
  specialize (Hm i t Hti Hmaster). rewrite Hcode, app_nil_r in Hm.
  by rewrite Hm.
Qed.

(** without a master among the hosts it is the writer it was given *)
Lemma returned_untouched now sched :
  let s := run port c sched (start c rw0 now) in
  (∀ h, h ∈ hosts → isMaster (c_masterHost c) h = false) →
  strip_rw (s_rw s) = strip_rw rw0.
Proof.
  intros s Hnone.
  pose proof (inv_run rw0 now sched) as Hinv. fold s in Hinv.
  destruct (inv_rw_run now sched) as (D & Hsim & _ & HD).
  fold s in Hsim, HD. rewrite HD in Hsim; [done|].
  intros j t Hj. apply Hnone.
  eapply list_elem_of_lookup_2, thread_host; eauto.
Qed.

End one_master.

End engine.

(** the goroutine of a host does not depend on what the network answers
    to the other hosts *)
Lemma goroutine_with_Do (E : Engine)
  (net : Host.t → GoHttp.ClientRequest → GoHttp.Response + string)
  (c : Ctx) (h : Host.t) :
  net h (reqNew (E:=E) c h) = Do h (reqNew (E:=E) c h) →
  goroutine (E:=with_Do E net) c h = goroutine (E:=E) c h.
Proof.
  intros Heq. unfold goroutine.
  change (reqNew (E:=with_Do E net) c h) with (reqNew (E:=E) c h).
  change (@Do (with_Do E net) h (reqNew (E:=E) c h))
    with (net h (reqNew (E:=E) c h)).
  by rewrite Heq.
Qed.

Lemma prefix_length (p s : string) :
  String.prefix p s = true → (String.length p ≤ String.length s)%nat.
Proof.
  revert s. induction p as [|a p IH]; intros [|b s]; simpl; try done; [lia|].
  destruct (ascii_dec a b); [|done]. intros ?%IH. lia.
Qed.

Lemma enter_bound `{E : Engine} (bindPath : string) (api : Api.t)
  (req : GoHttp.Request) :
  GoStrings.HasPrefix (GoHttp.URL_Path req) bindPath = true →
  ∃ c, enter bindPath api req = Some c.
Proof.
  intros Hp%prefix_length. unfold enter, GoStrings.slice_from.
  apply Nat.leb_le in Hp. rewrite Hp. by eexists.
Qed.

Lemma enter_api `{E : Engine} (bindPath : string) (api : Api.t)
  (req : GoHttp.Request) (c : Ctx) :
  enter bindPath api req = Some c → c_api c = api.
Proof.
  unfold enter. destruct (GoStrings.slice_from _ _); [|done].
  by intros [= <-].
Qed.

(** ** What the engine guarantees *)

Lemma serve_run `{E : Engine} port bindPath api rw req now sched s :
  serve port (FanoutHandler bindPath api) rw req now sched = Some s →
  ∃ c, enter bindPath api req = Some c ∧ c_api c = api ∧
       s = run port c sched (start c rw now).
Proof.
  unfold serve. destruct (enter bindPath api req) as [c|] eqn:Hc; [|done].
  intros [= <-]. exists c. split_and!; [done| |done]. by eapply enter_api.
Qed.

(** C9: for a request bound to an API whose host set is empty, the closure
    does not panic, issues no upstream call and leaves the response writer
    as it was given (no status, no header, no body), under every schedule;
    and it returns. *)
Theorem empty_host_set `{E : Engine} (port : Z) (bindPath : string)
  (api : Api.t) (rw : GoHttp.ResponseWriter) (req : GoHttp.Request)
  (now : nat) :
  Api.Hosts api = [] →
  GoStrings.HasPrefix (GoHttp.URL_Path req) bindPath = true →
  (∀ sched, ∃ s,
      serve port (FanoutHandler bindPath api) rw req now sched = Some s ∧
      s_panicked s = false ∧ s_calls s = [] ∧ s_rw s = rw) ∧
  (∃ sched s,
      serve port (FanoutHandler bindPath api) rw req now sched = Some s ∧
      s_main s = Returned).
Proof.
  intros Hhosts Hpre.
  destruct (enter_bound bindPath api req Hpre) as [c Hc].
  pose proof (enter_api _ _ _ _ Hc) as Hapi.
  split.
  - intros sched. exists (run port c sched (start c rw now)).
    unfold serve. rewrite Hc. split; [done|].
    destruct (silent_run port c rw now sched) as (? & ? & ?); [|done].
    rewrite Hapi, Hhosts. by intros h ?%elem_of_nil.
  - exists (in_order c), (run port c (in_order c) (start c rw now)).
    unfold serve. rewrite Hc. split; [done|].
    apply in_order_returns. rewrite Hapi, Hhosts. constructor.
Qed.

(** C10: when the caller ignores every host of the API, the closure issues
    no upstream call and leaves the response writer as it was given (no
    status, no header, the [Server] header neither, no body), under every
    schedule; when it has returned, the log line holds for every host a
    [backLog] with only [isMaster] and [ignore = true]; and it returns. *)
Theorem all_hosts_ignored `{E : Engine} (port : Z) (bindPath : string)
  (api : Api.t) (rw : GoHttp.ResponseWriter) (req : GoHttp.Request)
  (now : nat) (c : Ctx) :
  enter bindPath api req = Some c →
  (∀ h, h ∈ Api.Hosts api →
        IsHostIgnore (c_caller c) (Host.Name h) = true) →
  (∀ sched, ∃ s,
      serve port (FanoutHandler bindPath api) rw req now sched = Some s ∧
      s_panicked s = false ∧ s_calls s = [] ∧ s_rw s = rw ∧
      (s_main s = Returned →
       ∀ h, h ∈ Api.Hosts api →
         resolve_logData s !! ("host_" +:+ Host.Name h)
         = Some (<["ignore" := LBool true]>
                   (<["isMaster" := LBool (isMaster (c_masterHost c) h)]>
                      ∅)))) ∧
  (∃ sched s,
      serve port (FanoutHandler bindPath api) rw req now sched = Some s ∧
      s_main s = Returned).
Proof.
  intros Hc Hig. pose proof (enter_api _ _ _ _ Hc) as Hapi.
  rewrite <-Hapi in Hig. split.
  - intros sched. exists (run port c sched (start c rw now)).
    unfold serve. rewrite Hc. split; [done|].
    destruct (silent_run port c rw now sched) as (? & ? & ?).
    { intros h Hh. rewrite goroutine_ignored by by apply Hig.
      repeat constructor. }
    split_and!; [done..|]. intros Hret h Hh. rewrite <-Hapi in Hh.
    by apply (returned_ignored port c rw now sched Hig Hret).
  - exists (in_order c), (run port c (in_order c) (start c rw now)).
    unfold serve. rewrite Hc. split; [done|].
    apply in_order_returns, Forall_forall. intros h Hh.
    rewrite goroutine_ignored by by apply Hig. repeat constructor; done.
Qed.

(** C3: when the closure has returned, at time [T], every host of the API
    (the ignored ones too) has a goroutine that began after the closure was
    entered and ran its [wg.Done()] before [T]: the time the closure took
    is at least the time each goroutine took, the slowest shadow
    included. *)
Theorem full_fanout_wait `{E : Engine} (port : Z) (bindPath : string)
  (api : Api.t) (rw : GoHttp.ResponseWriter) (req : GoHttp.Request)
  (now : nat) (sched : Schedule) (s : State) :
  serve port (FanoutHandler bindPath api) rw req now sched = Some s →
  s_main s = Returned →
  ∃ T, s_returned s = Some T ∧ (now ≤ T)%nat ∧
    ∀ i h, Api.Hosts api !! i = Some h →
      ∃ t a f, s_threads s !! i = Some t ∧ t_host t = h ∧ t_code t = [] ∧
               t_start t = Some a ∧ t_done t = Some f ∧
               (now ≤ a)%nat ∧ (a ≤ f)%nat ∧ (f ≤ T)%nat ∧
               (f - a ≤ T - now)%nat.
Proof.
  intros (c & Hc & Hapi & ->)%serve_run Hret.
  pose proof (inv_run port c rw now sched) as Hinv.
  destruct (returned_after_all c _ Hinv Hret) as (T & HT & HeT & Hall).
  rewrite run_entered in HeT, Hall. cbn [start s_entered] in HeT, Hall.
  exists T. split_and!; [done..|]. intros i h Hi. rewrite <-Hapi in Hi.
  destruct (Hall i h Hi) as (t & a & f & ? & ? & ? & ? & ? & ? & ? & ?).
  exists t, a, f. split_and!; [done..|lia].
Qed.

Lemma strip_lookup (h h' : Header) (k : string) :
  strip h = strip h' → k ≠ "Server" → h !! k = h' !! k.
Proof.
  intros Heq Hne.
  rewrite <-(lookup_delete_ne h "Server" k), <-(lookup_delete_ne h' "Server" k)
    by done.
  unfold strip in Heq. by rewrite Heq.
Qed.

(** C1 as the code has it: when the call of the master succeeds (host
    names unique), the client receives status 200 whatever status the
    upstream answered, the body of the upstream verbatim, the header
    [Api-Url] with the upstream URL as its only value, and every value of
    every upstream header whose name is neither [Server] nor [Api-Url],
    under every schedule; and the closure returns under some schedule when
    no request construction fails. *)
Theorem master_success `{E : Engine} (port : Z) (bindPath : string)
  (api : Api.t) (req : GoHttp.Request) (now : nat) (c : Ctx) (i : nat)
  (hm : Host.t) (resp : GoHttp.Response) :
  NoDup (Host.Name <$> Api.Hosts api) →
  enter bindPath api req = Some c →
  Api.Hosts api !! i = Some hm →
  isMaster (c_masterHost c) hm = true →
  IsHostIgnore (c_caller c) (Host.Name hm) = false →
  NewRequest_ok (GoHttp.Method (c_req c)) (urlNew c hm) = true →
  Do hm (reqNew c hm) = inl resp →
  (∀ sched s,
      serve port (FanoutHandler bindPath api) GoHttp.fresh req now sched
      = Some s →
      s_main s = Returned →
      GoHttp.status (GoHttp.finish (s_rw s)) = GoHttp.StatusOK ∧
      GoHttp.body (GoHttp.finish (s_rw s)) = GoHttp.RespBody resp ∧
      GoHttp.values (GoHttp.header (GoHttp.finish (s_rw s))) "Api-Url"
      = [urlNew c hm] ∧
      ∀ k vs v,
        GoHttp.RespHeader resp !! k = Some vs → v ∈ vs →
        GoHttp.CanonicalHeaderKey k ≠ "Server" →
        GoHttp.CanonicalHeaderKey k ≠ "Api-Url" →
        v ∈ GoHttp.values (GoHttp.header (GoHttp.finish (s_rw s)))
              (GoHttp.CanonicalHeaderKey k)) ∧
  ((∀ h, h ∈ Api.Hosts api →
         IsHostIgnore (c_caller c) (Host.Name h) = false →
         NewRequest_ok (GoHttp.Method (c_req c)) (urlNew c h) = true) →
   ∃ sched s,
     serve port (FanoutHandler bindPath api) GoHttp.fresh req now sched
     = Some s ∧
     s_main s = Returned).
Proof.
  intros Hnd Hc Hi Hmaster Hig Hok Hdo.
  pose proof (enter_api _ _ _ _ Hc) as Hapi. split.
  - intros sched s (c' & Hc' & _ & ->)%serve_run Hret.
    rewrite Hc in Hc'. injection Hc' as <-.
    rewrite <-Hapi in Hnd, Hi.
    pose proof (returned_response port c Hnd GoHttp.fresh now sched i hm
                  Hret Hi Hmaster) as Hsim.
    apply finish_strip in Hsim as (Hst & Hbody & Hhdr).
    rewrite (goroutine_master_ok c hm resp Hmaster Hig Hok Hdo)
      in Hst, Hbody, Hhdr.
    destruct (master_response resp (urlNew c hm)
                [OStart; OLogData ("host_" +:+ Host.Name hm);
                 OBackLog "isMaster" (LBool true);
                 OBackLog "url" (LStr (urlNew c hm)); ODo (reqNew c hm)]
                [OUsed; ODone] GoHttp.fresh)
      as (Hst' & Hbody' & Hurl & Hall); [by repeat constructor..|done|done|].
    rewrite Hst, Hbody. split_and!; [done..| |].
    + unfold GoHttp.values. rewrite (strip_lookup _ _ _ Hhdr) by done.
      exact Hurl.
    + intros k vs v Hk Hv Hns Hna. unfold GoHttp.values.
      rewrite (strip_lookup _ _ _ Hhdr) by done. by eapply Hall.
  - intros Hoks.
    exists (in_order c), (run port c (in_order c) (start c GoHttp.fresh now)).
    unfold serve. rewrite Hc. split; [done|].
    apply in_order_returns, Forall_forall. intros h Hh.
    apply goroutine_no_panic. intros Hnot. apply Hoks; [|done].
    by rewrite <-Hapi.
Qed.

(** C2 as the code has it: take two runs of the same request (host names
    unique) on two networks that answer the master alike, under any two
    schedules. The client receives the same status, the same body and the
    same headers other than [Server]; and a shadow whose call fails has its
    error in the log. *)
Theorem shadow_isolation `{E : Engine} (port : Z) (bindPath : string)
  (api : Api.t) (rw : GoHttp.ResponseWriter) (req : GoHttp.Request)
  (now : nat) (c : Ctx)
  (net : Host.t → GoHttp.ClientRequest → GoHttp.Response + string) :
  NoDup (Host.Name <$> Api.Hosts api) →
  enter bindPath api req = Some c →
  (∀ h r, isMaster (c_masterHost c) h = true → net h r = Do h r) →
  ∀ sched sched' s s',
    serve port (FanoutHandler bindPath api) rw req now sched = Some s →
    s_main s = Returned →
    serve (E:=with_Do E net) port (FanoutHandler bindPath api) rw req now
          sched' = Some s' →
    s_main s' = Returned →
    GoHttp.status (GoHttp.finish (s_rw s'))
    = GoHttp.status (GoHttp.finish (s_rw s)) ∧
    GoHttp.body (GoHttp.finish (s_rw s'))
    = GoHttp.body (GoHttp.finish (s_rw s)) ∧
    (∀ k, k ≠ "Server" →
          GoHttp.header (GoHttp.finish (s_rw s')) !! k
          = GoHttp.header (GoHttp.finish (s_rw s)) !! k) ∧
    (∀ h err,
        h ∈ Api.Hosts api →
        IsHostIgnore (c_caller c) (Host.Name h) = false →
        NewRequest_ok (GoHttp.Method (c_req c)) (urlNew c h) = true →
        net h (reqNew c h) = inr err →
        ELFetch (urlNew c h) err ∈ s_log s').
Proof.
  intros Hnd Hc Hnet sched sched' s s'
    (c1 & Hc1 & _ & ->)%serve_run Hret (c2 & Hc2 & _ & ->)%serve_run Hret'.
  change (enter (E:=with_Do E net) bindPath api req)
    with (enter bindPath api req) in Hc2.
  rewrite Hc in Hc1, Hc2. injection Hc1 as <-. injection Hc2 as <-.
  pose proof (enter_api _ _ _ _ Hc) as Hapi. rewrite <-Hapi in *.
  assert (Hsim : strip_rw (s_rw (run (E:=with_Do E net) port c sched'
                                     (start c rw now)))
                 = strip_rw (s_rw (run port c sched (start c rw now)))).
  { destruct (List.find (isMaster (c_masterHost c)) (Api.Hosts (c_api c)))
      as [hm|] eqn:Hfind.
    - apply find_some in Hfind as [Hin Hmaster].
      apply list_elem_of_In, list_elem_of_lookup in Hin as [i Hi].
      rewrite (returned_response port c Hnd rw now sched i hm Hret Hi
                 Hmaster).
      rewrite (returned_response (E:=with_Do E net) port c Hnd rw now sched'
                 i hm Hret' Hi Hmaster).
      rewrite goroutine_with_Do; [done|]. by apply Hnet.
    - assert (∀ h, h ∈ Api.Hosts (c_api c) →
                   isMaster (c_masterHost c) h = false) as Hnone.
      { intros h Hh%list_elem_of_In. by eapply find_none in Hfind. }
      rewrite (returned_untouched port c Hnd rw now sched Hnone).
      by rewrite (returned_untouched (E:=with_Do E net) port c Hnd rw now
                    sched' Hnone). }
  apply finish_strip in Hsim as (Hst & Hbody & Hhdr).
  split_and!; [done..| |].
  - intros k Hk. by apply strip_lookup.
  - intros h err Hh Hig Hok Herr.
    apply (returned_logged (E:=with_Do E net) port c rw now sched' h);
      [done..|].
    by apply (goroutine_shadow_error (E:=with_Do E net)).
Qed.

(** ** The engine on concrete requests *)

Lemma enter_ctx2 : enter (E:=E_down) "/a" api2 (get "/a/x/y") = Some ctx2.
Proof. vm_compute. reflexivity. Qed.

Lemma enter_ctx2_up : enter (E:=E_up) "/a" api2 (get "/a/x/y") = Some ctx2.
Proof. vm_compute. reflexivity. Qed.

Lemma serve_ctx2 (sched : Schedule) :
  serve (E:=E_down) 8080 (FanoutHandler "/a" api2) GoHttp.fresh
        (get "/a/x/y") 0 sched
  = Some (run (E:=E_down) 8080 ctx2 sched (start ctx2 GoHttp.fresh 0)).
Proof. unfold serve. rewrite enter_ctx2. reflexivity. Qed.

Lemma serve_order :
  serve (E:=E_down) 8080 (FanoutHandler "/a" api2) GoHttp.fresh
        (get "/a/x/y") 0 (in_order (E:=E_down) ctx2) = Some s_order.
Proof. apply serve_ctx2. Qed.

Lemma serve_late :
  serve (E:=E_down) 8080 (FanoutHandler "/a" api2) GoHttp.fresh
        (get "/a/x/y") 0 late_shadow = Some s_late.
Proof. apply serve_ctx2. Qed.

Lemma serve_ctx2_up (sched : Schedule) :
  serve (E:=E_up) 8080 (FanoutHandler "/a" api2) GoHttp.fresh
        (get "/a/x/y") 0 sched
  = Some (run (E:=E_up) 8080 ctx2 sched (start ctx2 GoHttp.fresh 0)).
Proof. unfold serve. rewrite enter_ctx2_up. reflexivity. Qed.

Lemma serve_up :
  serve (E:=E_up) 8080 (FanoutHandler "/a" api2) GoHttp.fresh
        (get "/a/x/y") 0 (in_order (E:=E_up) ctx2) = Some s_up.
Proof. apply serve_ctx2_up. Qed.

Lemma names_api2 : NoDup (Host.Name <$> Api.Hosts api2).
Proof.
  cbn. repeat (apply NoDup_cons; split; [set_solver|]). apply NoDup_nil_2.
Qed.

Lemma s_order_returned : s_main s_order = Returned.
Proof. vm_compute. reflexivity. Qed.

Lemma s_late_returned : s_main s_late = Returned.
Proof. vm_compute. reflexivity. Qed.

Lemma s_up_returned : s_main s_up = Returned.
Proof. vm_compute. reflexivity. Qed.

(** [master_success] on [GET /a/x/y], master [h1] answering 404 with body
    [nf] and the shadow [h2] refusing the connection *)
Lemma master_success_in_order :
  s_main s_order = Returned ∧
  GoHttp.status (GoHttp.finish (s_rw s_order)) = 200 ∧
  GoHttp.body (GoHttp.finish (s_rw s_order)) = "nf" ∧
  GoHttp.values (GoHttp.header (GoHttp.finish (s_rw s_order))) "Api-Url"
  = ["http://10.0.0.1/x/y"] ∧
  "2" ∈ GoHttp.values (GoHttp.header (GoHttp.finish (s_rw s_order))) "X-A".
Proof.
  destruct (master_success (E:=E_down) 8080 "/a" api2 (get "/a/x/y") 0 ctx2
              0 h1 not_found names_api2 enter_ctx2)
    as [Hall _]; [vm_compute; reflexivity..|].
  destruct (Hall _ s_order serve_order s_order_returned)
    as (Hst & Hbody & Hurl & Hhdr).
  split_and!; [exact s_order_returned|exact Hst|exact Hbody|exact Hurl|].
  refine (Hhdr "X-A" ["1"; "2"] "2" _ _ _ _).
  - vm_compute. reflexivity.
  - apply list_elem_of_further, list_elem_of_here.
  - vm_compute. discriminate.
  - vm_compute. discriminate.
Defined.

(** The master [h1] answers 404 with the headers [Api-Url: x] and
    [Server: nginx]. The client receives status 200, [Api-Url] names the
    upstream URL in place of [x], and under the schedule [late_shadow] the
    [Server] header has lost [nginx]. *)
Lemma master_status_not_relayed :
  serve (E:=E_down) 8080 (FanoutHandler "/a" api2) GoHttp.fresh
        (get "/a/x/y") 0 (in_order (E:=E_down) ctx2) = Some s_order ∧
  s_main s_order = Returned ∧
  c_masterHost ctx2 = Host.Name h1 ∧
  Do (Engine:=E_down) h1 (reqNew (E:=E_down) ctx2 h1) = inl not_found ∧
  GoHttp.StatusCode not_found = 404 ∧
  GoHttp.status (GoHttp.finish (s_rw s_order)) = 200 ∧
  GoHttp.RespHeader not_found !! "Api-Url" = Some ["x"] ∧
  GoHttp.header (GoHttp.finish (s_rw s_order)) !! "Api-Url"
  = Some ["http://10.0.0.1/x/y"] ∧
  serve (E:=E_down) 8080 (FanoutHandler "/a" api2) GoHttp.fresh
        (get "/a/x/y") 0 late_shadow = Some s_late ∧
  s_main s_late = Returned ∧
  GoHttp.RespHeader not_found !! "Server" = Some ["nginx"] ∧
  GoHttp.header (GoHttp.finish (s_rw s_late)) !! "Server"
  = Some ["api-proxy"].
Proof.
  split_and!;
    [exact serve_order|vm_compute; reflexivity..|exact serve_late| | |];
    vm_compute; reflexivity.
Qed.

(** [shadow_isolation] on [GET /a/x/y]: the shadow [h2] answers in the one
    run and refuses the connection in the other, which also runs under
    another schedule *)
Lemma shadow_isolation_down :
  GoHttp.status (GoHttp.finish (s_rw s_late))
  = GoHttp.status (GoHttp.finish (s_rw s_up)) ∧
  GoHttp.body (GoHttp.finish (s_rw s_late))
  = GoHttp.body (GoHttp.finish (s_rw s_up)) ∧
  GoHttp.header (GoHttp.finish (s_rw s_late)) !! "X-A"
  = GoHttp.header (GoHttp.finish (s_rw s_up)) !! "X-A" ∧
  ELFetch "http://10.0.0.2/base/x/y" "connection refused" ∈ s_log s_late.
Proof.
  assert (Hnet : ∀ h r, isMaster (c_masterHost ctx2) h = true →
                        net_down h r = Do (Engine:=E_up) h r).
  { intros h r Hm. unfold isMaster in Hm. apply String.eqb_eq in Hm.
    cbn in Hm. cbn. unfold net_down, net_up. by rewrite <-Hm. }
  destruct (shadow_isolation (E:=E_up) 8080 "/a" api2 GoHttp.fresh
              (get "/a/x/y") 0 ctx2 net_down names_api2 enter_ctx2_up Hnet
              _ late_shadow s_up s_late serve_up s_up_returned serve_late
              s_late_returned)
    as (Hst & Hbody & Hhdr & Hlog).
  split_and!; [exact Hst|exact Hbody| |].
  - apply Hhdr. discriminate.
  - refine (Hlog h2 "connection refused" _ _ _ _).
    + apply list_elem_of_further, list_elem_of_here.
    + vm_compute. reflexivity.
    + vm_compute. reflexivity.
    + vm_compute. reflexivity.
Defined.

(** The shadow [h2] refuses the connection and the master [h1] answers 404
    with [Server: nginx] and [Api-Url: x]. The client receives status 200
    and other values for [Server] and [Api-Url]; and the [Server] header of
    this run differs from the one of the run in which the shadow answers
    and the goroutines run in order. *)
Lemma shadow_response_not_identical :
  Do (Engine:=E_down) h2 (reqNew (E:=E_down) ctx2 h2)
  = inr "connection refused" ∧
  Do (Engine:=E_down) h1 (reqNew (E:=E_down) ctx2 h1) = inl not_found ∧
  s_main s_late = Returned ∧
  GoHttp.status (GoHttp.finish (s_rw s_late)) = 200 ∧
  GoHttp.StatusCode not_found = 404 ∧
  GoHttp.header (GoHttp.finish (s_rw s_late)) !! "Api-Url"
  = Some ["http://10.0.0.1/x/y"] ∧
  GoHttp.RespHeader not_found !! "Api-Url" = Some ["x"] ∧
  GoHttp.header (GoHttp.finish (s_rw s_late)) !! "Server"
  = Some ["api-proxy"] ∧
  GoHttp.RespHeader not_found !! "Server" = Some ["nginx"] ∧
  Do (Engine:=E_up) h2 (reqNew (E:=E_up) ctx2 h2) = inl shadow_ok ∧
  s_main s_up = Returned ∧
  GoHttp.header (GoHttp.finish (s_rw s_up)) !! "Server"
  = Some ["api-proxy"; "nginx"].
Proof. split_and!; vm_compute; reflexivity. Qed.

(** [full_fanout_wait] on the run [s_late]: the closure returns at time 26;
    the shadow, started at 3, finishes at 24 *)
Lemma full_fanout_wait_late_shadow :
  s_returned s_late = Some 26%nat ∧
  ∃ T, s_returned s_late = Some T ∧ (0 ≤ T)%nat ∧
    ∀ i h, Api.Hosts api2 !! i = Some h →
      ∃ t a f, s_threads s_late !! i = Some t ∧ t_host t = h ∧
               t_code t = [] ∧ t_start t = Some a ∧ t_done t = Some f ∧
               (0 ≤ a)%nat ∧ (a ≤ f)%nat ∧ (f ≤ T)%nat ∧
               (f - a ≤ T - 0)%nat.
Proof.
  split; [vm_compute; reflexivity|].
  exact (full_fanout_wait (E:=E_down) 8080 "/a" api2 GoHttp.fresh
           (get "/a/x/y") 0 late_shadow s_late serve_late s_late_returned).
Defined.

(** [empty_host_set] on [GET /e/x] for an API bound to [/e] *)
Lemma empty_host_set_request :
  (∀ sched, ∃ s,
      serve (E:=E_down) 8080 (FanoutHandler "/e" api_none) GoHttp.fresh
            (get "/e/x") 0 sched = Some s ∧
      s_panicked s = false ∧ s_calls s = [] ∧ s_rw s = GoHttp.fresh) ∧
  (∃ sched s,
      serve (E:=E_down) 8080 (FanoutHandler "/e" api_none) GoHttp.fresh
            (get "/e/x") 0 sched = Some s ∧
      s_main s = Returned).
Proof.
  exact (empty_host_set (E:=E_down) 8080 "/e" api_none GoHttp.fresh
           (get "/e/x") 0 eq_refl eq_refl).
Defined.

Lemma enter_ctx_ignored :
  enter (E:=E_down) "/a" api_ignored (get "/a/x/y") = Some ctx_ignored.
Proof. vm_compute. reflexivity. Qed.

Lemma ctx_ignored_all (h : Host.t) :
  h ∈ Api.Hosts api_ignored →
  IsHostIgnore (Engine:=E_down) (c_caller ctx_ignored) (Host.Name h) = true.
Proof.
  cbn [api_ignored Api.Hosts].
  intros [->|[->|[]%elem_of_nil]%elem_of_cons]%elem_of_cons;
    vm_compute; reflexivity.
Qed.

(** [all_hosts_ignored] on [GET /a/x/y] from a caller that ignores [h1]
    and [h2] *)
Lemma all_hosts_ignored_request :
  (∀ sched, ∃ s,
      serve (E:=E_down) 8080 (FanoutHandler "/a" api_ignored) GoHttp.fresh
            (get "/a/x/y") 0 sched = Some s ∧
      s_panicked s = false ∧ s_calls s = [] ∧ s_rw s = GoHttp.fresh ∧
      (s_main s = Returned →
       ∀ h, h ∈ Api.Hosts api_ignored →
         resolve_logData s !! ("host_" +:+ Host.Name h)
         = Some (<["ignore" := LBool true]>
                   (<["isMaster" :=
                        LBool (isMaster (c_masterHost ctx_ignored) h)]>
                      ∅)))) ∧
  (∃ sched s,
      serve (E:=E_down) 8080 (FanoutHandler "/a" api_ignored) GoHttp.fresh
            (get "/a/x/y") 0 sched = Some s ∧
      s_main s = Returned).
Proof.
  exact (all_hosts_ignored (E:=E_down) 8080 "/a" api_ignored GoHttp.fresh
           (get "/a/x/y") 0 ctx_ignored enter_ctx_ignored ctx_ignored_all).
Defined.

(** * More of the code *)

(** ** Strings *)

Lemma str_app_cons (a : ascii) (s t : string) :
  String a s +:+ t = String a (s +:+ t).
Proof. reflexivity. Qed.

Lemma str_app_nil_l (s : string) : "" +:+ s = s.
Proof. reflexivity. Qed.

Lemma str_app_nil_r (s : string) : s +:+ "" = s.
Proof.
  induction s as [|a s IH]; [done|]. by rewrite str_app_cons, IH.
Qed.

Lemma str_app_assoc (a b d : string) : (a +:+ b) +:+ d = a +:+ (b +:+ d).
Proof.
  induction a as [|x a IH]; [done|]. by rewrite !str_app_cons, IH.
Qed.

Lemma str_length_app (a b : string) :
  String.length (a +:+ b) = (String.length a + String.length b)%nat.
Proof.
  induction a as [|x a IH]; [done|]. rewrite str_app_cons. simpl.
  by rewrite IH.
Qed.

Lemma prefix_app (p s : string) : String.prefix p (p +:+ s) = true.
Proof.
  induction p as [|a p IH]; [by destruct s|]. rewrite str_app_cons. simpl.
  by destruct (ascii_dec a a).
Qed.

Lemma prefix_split (p s : string) :
  String.prefix p s = true → ∃ r, s = p +:+ r.
Proof.
  revert s. induction p as [|a p IH]; intros s Hp; [by exists s|].
  destruct s as [|b s]; [done|]. simpl in Hp.
  destruct (ascii_dec a b) as [->|]; [|done].
  destruct (IH s Hp) as [r ->]. by exists r.
Qed.

Lemma substring_all (s : string) : substring 0 (String.length s) s = s.
Proof. induction s as [|a s IH]; [done|]. simpl. by rewrite IH. Qed.

Lemma substring_app_r (p s : string) (n : nat) :
  substring (String.length p) n (p +:+ s) = substring 0 n s.
Proof.
  induction p as [|a p IH]; [done|]. rewrite str_app_cons. simpl.
  by rewrite IH.
Qed.

Lemma slice_from_app (p s : string) :
  GoStrings.slice_from (p +:+ s) (String.length p) = Some s.
Proof.
  unfold GoStrings.slice_from. rewrite str_length_app.
  rewrite (proj2 (Nat.leb_le _ _)) by lia.
  rewrite substring_app_r.
  replace (String.length p + String.length s - String.length p)%nat
    with (String.length s) by lia.
  by rewrite substring_all.
Qed.

Lemma slice_from_None (s : string) (n : nat) :
  GoStrings.slice_from s n = None ↔ (String.length s < n)%nat.
Proof.
  unfold GoStrings.slice_from.
  destruct (Nat.leb_spec n (String.length s)); split; (done || lia).
Qed.

Lemma HasSuffix_app (u s : string) : GoStrings.HasSuffix (u +:+ s) s = true.
Proof.
  unfold GoStrings.HasSuffix. rewrite str_length_app.
  rewrite (proj2 (Nat.leb_le _ _)) by lia.
  replace (String.length u + String.length s - String.length s)%nat
    with (String.length u) by lia.
  rewrite substring_app_r, substring_all. by rewrite String.eqb_refl.
Qed.

Lemma TrimLeft_id (s cutset : string) :
  (∀ a r, s = String a r → GoStrings.in_cutset cutset a = false) →
  GoStrings.TrimLeft s cutset = s.
Proof.
  destruct s as [|a r]; [done|]. intros H. simpl. by rewrite (H a r).
Qed.

Lemma rev_acc_app (s acc : string) :
  GoStrings.rev_acc acc s = GoStrings.rev_acc "" s +:+ acc.
Proof.
  revert acc. induction s as [|a s IH]; intros acc; [done|]. simpl.
  rewrite (IH (String a acc)), (IH (String a "")).
  by rewrite str_app_assoc.
Qed.

(** the pieces of [strings.Split(s, ":")]: what precedes the first colon,
    and the pieces of what follows it *)
Lemma Split_colon (s t : string) :
  has_byte ":" s = false →
  GoStrings.Split (s +:+ ":" +:+ t) ":" = s :: GoStrings.Split t ":".
Proof.
  unfold GoStrings.Split. intros Hs.
  enough (∀ cur, GoStrings.split_aux ":" 0 cur (s +:+ ":" +:+ t)
                 = (GoStrings.rev_acc "" cur +:+ s)
                   :: GoStrings.split_aux ":" 0 "" t) as H by apply (H "").
  induction s as [|a s IH]; intros cur.
  - rewrite str_app_nil_l, str_app_cons, str_app_nil_l, str_app_nil_r.
    cbn [GoStrings.split_aux String.prefix].
    destruct (ascii_dec ":" ":"); [|done]. by destruct t.
  - unfold has_byte in Hs. cbn [existsb list_ascii_of_string] in Hs.
    apply orb_false_iff in Hs as [Ha Hs].
    rewrite str_app_cons. cbn [GoStrings.split_aux String.prefix].
    destruct (ascii_dec ":" a) as [<-|Hne]; [by rewrite Ascii.eqb_refl in Ha|].
    rewrite (IH Hs). cbn [GoStrings.rev_acc].
    rewrite (rev_acc_app cur (String a "")), str_app_assoc. done.
Qed.

Lemma Split_no_colon (s : string) :
  has_byte ":" s = false → GoStrings.Split s ":" = [s].
Proof.
  unfold GoStrings.Split. intros Hs.
  enough (∀ cur, GoStrings.split_aux ":" 0 cur s
                 = [GoStrings.rev_acc "" cur +:+ s]) as H by apply (H "").
  induction s as [|a s IH]; intros cur.
  - simpl. by rewrite str_app_nil_r.
  - unfold has_byte in Hs. cbn [existsb list_ascii_of_string] in Hs.
    apply orb_false_iff in Hs as [Ha Hs].
    cbn [GoStrings.split_aux String.prefix].
    destruct (ascii_dec ":" a) as [<-|Hne]; [by rewrite Ascii.eqb_refl in Ha|].
    rewrite (IH Hs). cbn [GoStrings.rev_acc].
    rewrite (rev_acc_app cur (String a "")), str_app_assoc. done.
Qed.

(** a string either has no colon or splits at its first colon *)
Lemma first_colon (s : string) :
  has_byte ":" s = false ∨
  ∃ a b, s = a +:+ ":" +:+ b ∧ has_byte ":" a = false.
Proof.
  induction s as [|x s IH]; [by left|].
  destruct (ascii_dec ":" x) as [<-|Hne].
  - right. by exists "", s.
  - assert (Ascii.eqb ":" x = false) as Hx by (by apply Ascii.eqb_neq).
    destruct IH as [Hs|(a & b & -> & Ha)].
    + left. unfold has_byte in *. cbn [existsb list_ascii_of_string].
      by rewrite Hx, Hs.
    + right. exists (String x a), b. split; [done|].
      unfold has_byte in *. cbn [existsb list_ascii_of_string].
      by rewrite Hx, Ha.
Qed.


(** ** The engine: calls, panics and the [Server] header *)

Section calls.
Context `{E : Engine} (port : Z) (c : Ctx).

Local Abbreviation hosts := (Api.Hosts (c_api c)).

Ltac ops :=
  repeat first
    [ apply Forall_nil_2
    | apply Forall_cons; split; [done|]
    | apply Forall_app; split
    | apply add_all_Forall; done
    | apply io_Copy_Forall; done
    | case_match ].

Lemma goroutine_calls (h : Host.t) :
  IsHostIgnore (c_caller c) (Host.Name h) = false →
  NewRequest_ok (GoHttp.Method (c_req c)) (urlNew c h) = true →
  ∃ rest,
    goroutine c h = preamble c h ++ ODo (reqNew c h) :: set_Server :: rest ∧
    Forall (λ o, is_Do o = false ∧ o ≠ OPanic ∧ o ≠ set_Server) rest.
Proof.
  intros Hig Hok. unfold goroutine. rewrite Hig, Hok.
  eexists. split; [simpl; reflexivity|]. ops.
Qed.

Lemma goroutine_never_calls (h : Host.t) :
  IsHostIgnore (c_caller c) (Host.Name h) = true ∨
  NewRequest_ok (GoHttp.Method (c_req c)) (urlNew c h) = false →
  Forall (λ o, is_Do o = false ∧ rw_op o = id) (goroutine c h).
Proof.
  unfold goroutine.
  intros [->| ->]; [ops|]. destruct (IsHostIgnore _ _); ops.
Qed.

Lemma goroutine_panics (h : Host.t) :
  IsHostIgnore (c_caller c) (Host.Name h) = false →
  NewRequest_ok (GoHttp.Method (c_req c)) (urlNew c h) = false →
  goroutine c h = preamble c h ++ [OPanic; ODone].
Proof. intros Hig Hok. unfold goroutine. by rewrite Hig, Hok. Qed.

Lemma split_unique {A} (P : A → bool) (l1 : list A) x l2 k1 y k2 :
  l1 ++ x :: l2 = k1 ++ y :: k2 →
  Forall (λ a, P a = false) l1 → Forall (λ a, P a = false) l2 →
  P x = true → P y = true →
  l1 = k1 ∧ x = y ∧ l2 = k2.
Proof.
  revert k1. induction l1 as [|a l1 IH]; intros [|b k1] Heq Hl1 Hl2 Hx Hy;
    simplify_eq/=.
  - done.
  - rewrite Forall_app, Forall_cons in Hl2. destruct Hl2 as (_ & ? & _).
    congruence.
  - apply Forall_cons in Hl1 as [? _]. congruence.
  - apply Forall_cons in Hl1 as [_ Hl1].
    destruct (IH k1) as (-> & -> & ->); done.
Qed.

(** a goroutine calls its upstream at most once, with [reqNew] *)
Lemma goroutine_Do_once (h : Host.t) done r rest :
  goroutine c h = done ++ ODo r :: rest →
  r = reqNew c h ∧ existsb is_Do rest = false ∧
  IsHostIgnore (c_caller c) (Host.Name h) = false.
Proof.
  intros Hg.
  destruct (IsHostIgnore (c_caller c) (Host.Name h)) eqn:Hig.
  { pose proof (goroutine_never_calls h (or_introl Hig)) as Hn.
    rewrite Hg, Forall_app, Forall_cons in Hn. by destruct Hn as (_ & [[=] _] & _). }
  destruct (NewRequest_ok (GoHttp.Method (c_req c)) (urlNew c h)) eqn:Hok;
    [|pose proof (goroutine_never_calls h (or_intror Hok)) as Hn;
      rewrite Hg, Forall_app, Forall_cons in Hn;
      by destruct Hn as (_ & [[=] _] & _)].
  destruct (goroutine_calls h Hig Hok) as (tl & Hshape & Htl).
  rewrite Hg in Hshape. symmetry in Hshape.
  assert (Hpre : Forall (λ a, is_Do a = false) (preamble c h))
    by (unfold preamble; by repeat constructor).
  assert (Htl' : Forall (λ a, is_Do a = false) (set_Server :: tl)).
  { constructor; [done|]. eapply Forall_impl; [exact Htl|]. by intros ? [? _]. }
  destruct (split_unique is_Do _ _ _ _ _ _ Hshape Hpre Htl' eq_refl eq_refl)
    as (_ & Hr & <-).
  injection Hr as <-. split_and!; [done| |done].
  apply not_true_is_false. rewrite existsb_exists.
  intros (o & Hin%list_elem_of_In & Ho).
  rewrite Forall_forall in Htl'. rewrite (Htl' o Hin) in Ho. done.
Qed.

Lemma existsb_Do_elem (os : list Op) :
  existsb is_Do os = true ↔ ∃ r, ODo r ∈ os.
Proof.
  rewrite existsb_exists. split.
  - intros (o & Hin%list_elem_of_In & Ho). destruct o; try done. by eexists.
  - intros (r & Hin%list_elem_of_In). by exists (ODo r).
Qed.

(** *** Every upstream call is the call of one goroutine *)

Lemma issued_new (h : Host.t) : issued c (new_thread c h) = [].
Proof.
  unfold issued. cbn [new_thread t_host t_code].
  by destruct (existsb is_Do (goroutine c h)).
Qed.

Lemma issued_step (now : nat) (t : Thread) (done : list Op) o rest :
  goroutine c (t_host t) = done ++ o :: rest → t_code t = o :: rest →
  issued c (thread_op now o t)
  = issued c t ++ match o with ODo r => [(t_host t, r)] | _ => [] end.
Proof.
  intros Hg Hcode. unfold issued.
  rewrite thread_op_host, thread_op_code, Hcode. cbn [tail].
  assert (Hcase : (∃ r, o = ODo r) ∨ is_Do o = false)
    by (destruct o; eauto).
  destruct Hcase as [[r ->]|Ho].
  - destruct (goroutine_Do_once _ _ _ _ Hg) as (-> & -> & _).
    assert (existsb is_Do (goroutine c (t_host t)) = true) as ->.
    { apply existsb_Do_elem. exists (reqNew c (t_host t)). rewrite Hg.
      set_solver. }
    done.
  - cbn [existsb]. rewrite Ho. cbn [orb].
    destruct o; try done; by rewrite app_nil_r.
Qed.

Lemma calls_inv_step s d : inv c s → calls_inv c s → calls_inv c (step port c s d).
Proof.
  unfold calls_inv. intros Hinv Hcalls. unfold step.
  destruct (s_panicked s); [done|].
  pose proof (inv_tick c (fst d) s Hinv) as Hinv'.
  destruct d as [dt [|i]]; cbn [fst snd] in *.
  - unfold step_main. cbn [tick s_main s_wg s_threads].
    destruct (s_main s) as [[|h rest]| |] eqn:Hmain; try done;
      [|by destruct (s_wg s)].
    cbn [s_calls s_threads]. rewrite bind_app. cbn [mbind list_bind].
    change (list_bind _ _ (issued c) []) with (@nil (Host.t * GoHttp.ClientRequest)).
    by rewrite issued_new, !app_nil_r.
  - unfold step_go. cbn [tick s_threads].
    destruct (s_threads s !! i) as [t|] eqn:Hi; [|done].
    destruct (t_code t) as [|o rest] eqn:Hcode; [done|].
    cbn [set_threads shared_op s_calls s_threads tick s_now].
    destruct Hinv as [_ Ht _ _ _]. rewrite Forall_lookup in Ht.
    destruct (Ht _ _ Hi) as (done & Hg & _). rewrite Hcode in Hg.
    rewrite insert_take_drop by (by eapply lookup_lt_Some).
    rewrite <-(take_drop_middle _ _ _ Hi) in Hcalls.
    rewrite !bind_app, !bind_cons in *.
    rewrite (issued_step _ _ _ _ _ Hg Hcode).
    transitivity
      (s_calls s ++ match o with ODo r => [(t_host t, r)] | _ => [] end);
      [by destruct o; rewrite ?app_nil_r|].
    rewrite Hcalls, <-!app_assoc.
    apply Permutation_app_head. rewrite (app_assoc (issued c t)).
    symmetry. rewrite <-app_assoc. apply Permutation_app_head.
    apply Permutation_app_comm.
Qed.

Lemma calls_inv_run rw now sched :
  calls_inv c (run port c sched (start c rw now)).
Proof.
  enough (inv c (run port c sched (start c rw now)) ∧
          calls_inv c (run port c sched (start c rw now))) as [_ ?] by done.
  apply (run_ind port c (λ s, inv c s ∧ calls_inv c s)).
  - intros s d [Hinv Hc]. split; [by apply inv_step|].
    by apply calls_inv_step.
  - split; [apply inv_start|]. unfold calls_inv. by cbn.
Qed.


(** *** The calls of a finished request *)

Lemma has_Do_not_ignored (h : Host.t) :
  existsb is_Do (goroutine c h) = true →
  IsHostIgnore (c_caller c) (Host.Name h) = false.
Proof.
  intros Hd. destruct (IsHostIgnore _ _) eqn:Hig; [|done].
  pose proof (goroutine_never_calls h (or_introl Hig)) as Hn.
  apply existsb_exists in Hd as (o & Hin%list_elem_of_In & Ho).
  rewrite Forall_forall in Hn. destruct (Hn o Hin). congruence.
Qed.



Lemma issued_sub (t : Thread) :
  issued c t ⊆+
  (if IsHostIgnore (c_caller c) (Host.Name (t_host t)) then []
   else [(t_host t, reqNew c (t_host t))]).
Proof.
  unfold issued.
  destruct (existsb is_Do (goroutine c (t_host t))) eqn:Hd; cbn [andb].
  - rewrite (has_Do_not_ignored _ Hd). case_match; [done|].
    apply submseteq_nil_l.
  - apply submseteq_nil_l.
Qed.

Lemma fanout_bind (hs : list Host.t) :
  hs ≫= (λ h, if IsHostIgnore (c_caller c) (Host.Name h) then []
              else [(h, reqNew c h)])
  = (λ h, (h, reqNew c h)) <$>
    List.filter (λ h, negb (IsHostIgnore (c_caller c) (Host.Name h))) hs.
Proof.
  induction hs as [|h hs IH]; [done|]. rewrite bind_cons, IH. simpl.
  by destruct (IsHostIgnore _ _).
Qed.

Lemma bind_submseteq {A B} (f g : A → list B) (l : list A) :
  (∀ x, f x ⊆+ g x) → l ≫= f ⊆+ l ≫= g.
Proof.
  intros Hfg. induction l as [|x l IH]; [done|].
  rewrite !bind_cons. by apply submseteq_app.
Qed.

(** the calls issued so far are calls of the fan-out, each at most once *)
Lemma calls_sub rw now sched :
  s_calls (run port c sched (start c rw now)) ⊆+ fanout c.
Proof.
  pose proof (calls_inv_run rw now sched) as Hc.
  pose proof (inv_run port c rw now sched) as [Hh _ _ _ _].
  unfold calls_inv in Hc. rewrite Hc. unfold fanout.
  rewrite <-fanout_bind, <-Hh, bind_app.
  etrans; [|apply submseteq_inserts_r; reflexivity].
  etrans; [apply bind_submseteq, issued_sub|].
  generalize (s_threads (run port c sched (start c rw now))).
  intros ts. induction ts as [|t ts IH]; [done|].
  rewrite fmap_cons, !bind_cons. apply submseteq_app; [reflexivity|done].
Qed.

(** *** A panic is final *)





(** *** The [Server] header *)

Lemma goroutine_sets (h : Host.t) :
  Forall (λ o, sets_known o = true) (goroutine c h).
Proof. unfold goroutine. ops. Qed.

Lemma goroutine_quiet_or_panic (h : Host.t) :
  IsHostIgnore (c_caller c) (Host.Name h) = true ∨
  NewRequest_ok (GoHttp.Method (c_req c)) (urlNew c h) = false →
  Forall (λ o, writes o = false ∧ o ≠ set_Server) (goroutine c h).
Proof.
  unfold goroutine.
  intros [->| ->]; [ops|]. destruct (IsHostIgnore _ _); ops.
Qed.

(** a goroutine sends the header after it has set [Server], once *)
Lemma goroutine_write_after_set (h : Host.t) done o rest :
  goroutine c h = done ++ o :: rest → writes o = true →
  set_Server ∈ goroutine c h ∧ set_Server ∉ o :: rest.
Proof.
  intros Hg Hw.
  assert (Hno : ∀ P : Prop,
    Forall (λ o, writes o = false ∧ o ≠ set_Server) (goroutine c h) → P).
  { intros P Hn. rewrite Hg, Forall_app, Forall_cons in Hn.
    destruct Hn as (_ & [? _] & _). congruence. }
  destruct (IsHostIgnore (c_caller c) (Host.Name h)) eqn:Hig;
    [by apply Hno, goroutine_quiet_or_panic; left|].
  destruct (NewRequest_ok (GoHttp.Method (c_req c)) (urlNew c h)) eqn:Hok;
    [|by apply Hno, goroutine_quiet_or_panic; right].
  destruct (goroutine_calls h Hig Hok) as (tl & Hshape & Htl).
  split; [rewrite Hshape; set_solver|].
  rewrite Hshape in Hg.
  change (preamble c h ++ ODo (reqNew c h) :: set_Server :: tl)
    with ((preamble c h ++ [ODo (reqNew c h); set_Server]) ++ tl) in Hg.
  apply app_eq_inv in Hg as [(k & Hk & Htl')|(k & Hk & Htl')].
  - destruct k as [|x k].
    + rewrite app_nil_l in Htl'. rewrite Htl'.
      intros Hin. rewrite Forall_forall in Htl.
      destruct (Htl _ Hin) as (_ & _ & ?). done.
    + exfalso. injection Htl' as <- _.
      assert (Hin : o ∈ preamble c h ++ [ODo (reqNew c h); set_Server]).
      { rewrite Hk. set_solver. }
      unfold preamble in Hin.
      repeat (apply elem_of_cons in Hin as [->|Hin]; [done|]).
      by apply elem_of_nil in Hin.
  - rewrite Htl' in Htl. apply Forall_app in Htl as [_ Htl].
    intros Hin. rewrite Forall_forall in Htl.
    destruct (Htl _ Hin) as (_ & _ & ?). done.
Qed.

Lemma canon_Server : GoHttp.CanonicalHeaderKey "Server" = "Server".
Proof. reflexivity. Qed.

Lemma canon_Connection :
  GoHttp.CanonicalHeaderKey "Connection" = "Connection".
Proof. reflexivity. Qed.

Lemma canon_api_url : GoHttp.CanonicalHeaderKey "api-url" = "Api-Url".
Proof. reflexivity. Qed.

Lemma lookup_Server_op (o : Op) (rw : GoHttp.ResponseWriter) :
  sets_known o = true → o ≠ set_Server →
  (∀ k v, o = OHeaderAdd k v → GoHttp.CanonicalHeaderKey k ≠ "Server") →
  GoHttp.handlerHeader (rw_op o rw) !! "Server"
  = GoHttp.handlerHeader rw !! "Server".
Proof.
  intros Hk Hne Hadd. destruct o as [| | | |k v|k v|code|data| | | |];
    try done.
  - cbn [rw_op GoHttp.HeaderSet GoHttp.handlerHeader]. unfold GoHttp.Set_.
    cbn [sets_known] in Hk.
    apply orb_true_iff in Hk as [[Hk Hv]%andb_true_iff|Hk].
    + apply String.eqb_eq in Hk as ->. apply String.eqb_eq in Hv as ->.
      done.
    + apply String.eqb_eq in Hk as ->.
      by rewrite canon_api_url, lookup_insert_ne.
  - cbn [rw_op GoHttp.HeaderAdd GoHttp.handlerHeader]. unfold GoHttp.Add.
    rewrite lookup_insert_ne; [done|]. by eapply Hadd.
  - cbn [rw_op]. unfold GoHttp.WriteHeader. by case_match.
  - cbn [rw_op]. unfold GoHttp.Write, GoHttp.WriteHeader. by case_match.
Qed.

Lemma wroteHeader_op (o : Op) (rw : GoHttp.ResponseWriter) code h :
  GoHttp.wroteHeader (rw_op o rw) = Some (code, h) →
  GoHttp.wroteHeader rw = Some (code, h) ∨
  (writes o = true ∧ GoHttp.wroteHeader rw = None ∧
   h = GoHttp.handlerHeader rw).
Proof.
  destruct o; cbn [rw_op]; try (by left).
  - unfold GoHttp.WriteHeader.
    destruct (GoHttp.wroteHeader rw) eqn:Hw; [by left; rewrite <-Hw|].
    intros [= <- <-]. by right.
  - unfold GoHttp.Write, GoHttp.WriteHeader.
    destruct (GoHttp.wroteHeader rw) eqn:Hw;
      cbn [GoHttp.wroteHeader]; [by left; rewrite <-Hw|].
    intros [= <- <-]. by right.
Qed.

Section Server.
Hypothesis no_Add_Server :
  ∀ h k v, h ∈ hosts → OHeaderAdd k v ∈ goroutine c h →
           GoHttp.CanonicalHeaderKey k ≠ "Server".

Lemma inv_Server_step s d :
  inv c s → inv_Server c s → inv_Server c (step port c s d).
Proof.
  intros Hinv [Hpast Hsent]. unfold step.
  destruct (s_panicked s); [by split|].
  pose proof (inv_tick c (fst d) s Hinv) as Hinv'.
  destruct d as [dt [|i]]; cbn [fst snd] in *.
  - unfold step_main. cbn [tick s_main s_wg s_threads].
    destruct (s_main s) as [[|h rest]| |] eqn:Hmain; try (by split);
      [|by destruct (s_wg s); split].
    split; cbn [s_rw s_threads]; [|done].
    intros (j & t & [[_ Hj]|[_ <-]]%lookup_snoc_Some & Hp);
      [apply Hpast; eauto|].
    destruct Hp as [Hin Hnin]. by cbn [new_thread t_host t_code] in *.
  - unfold step_go. cbn [tick s_threads].
    destruct (s_threads s !! i) as [t|] eqn:Hi; [|by split].
    destruct (t_code t) as [|o rest] eqn:Hcode; [by split|].
    cbn [set_threads shared_op s_rw s_threads tick s_now].
    destruct (thread_next c (tick dt s) i t o rest Hinv' Hi Hcode)
      as (h & Hh & <- & Ho).
    pose proof Hinv as [_ Ht _ _ _]. rewrite Forall_lookup in Ht.
    destruct (Ht _ _ Hi) as (done & Hg & _). rewrite Hcode in Hg.
    assert (Hhost : t_host t ∈ hosts) by (by eapply list_elem_of_lookup_2).
    assert (Hknown : sets_known o = true).
    { pose proof (goroutine_sets (t_host t)) as Hs.
      rewrite Forall_forall in Hs. by apply Hs. }
    assert (Hadd : ∀ k v, o = OHeaderAdd k v →
                          GoHttp.CanonicalHeaderKey k ≠ "Server").
    { intros k v ->. by eapply no_Add_Server. }
    assert (Hdec : o = set_Server ∨ o ≠ set_Server).
    { unfold set_Server. destruct o as [| | | |k v| | | | | | |];
        try (by right).
      destruct (decide (k = "Server")) as [->|?];
        [|right; congruence].
      destruct (decide (v = "api-proxy")) as [->|?];
        [by left|right; congruence]. }
    assert (Hold : (∃ j t', <[i := thread_op (s_now s + dt) o t]>
                              (s_threads s) !! j = Some t' ∧
                            past_Server c t') →
                   o ≠ set_Server →
                   ∃ j t', s_threads s !! j = Some t' ∧ past_Server c t').
    { intros (j & t' & Hj & Hp) Hne.
      destruct (decide (j = i)) as [->|Hji].
      - rewrite list_lookup_insert_eq in Hj by (by eapply lookup_lt_Some).
        injection Hj as <-. exists i, t. split; [done|].
        destruct Hp as [Hin Hnin].
        rewrite thread_op_host, thread_op_code, Hcode in *. cbn [tail] in *.
        split; [done|]. rewrite Hcode. set_solver.
      - rewrite list_lookup_insert_ne in Hj by done. eauto. }
    split; cbn [set_threads shared_op s_rw s_threads tick s_now].
    + intros Hex. destruct Hdec as [->|Hne].
      * cbn [rw_op set_Server GoHttp.HeaderSet GoHttp.handlerHeader].
        unfold GoHttp.Set_. by rewrite canon_Server, lookup_insert_eq.
      * rewrite lookup_Server_op by done. by apply Hpast, Hold.
    + intros code hd [Hw|(Hw & Hnone & ->)]%wroteHeader_op;
        [by eapply Hsent|].
      destruct (goroutine_write_after_set _ _ _ _ Hg Hw) as [Hin Hnin].
      apply Hpast. exists i, t. split; [done|]. split; [done|].
      by rewrite Hcode.
Qed.

Lemma inv_Server_run rw now sched :
  GoHttp.wroteHeader rw = None →
  inv_Server c (run port c sched (start c rw now)).
Proof.
  intros Hrw.
  enough (inv c (run port c sched (start c rw now)) ∧
          inv_Server c (run port c sched (start c rw now)))
    as [_ ?] by done.
  apply (run_ind port c (λ s, inv c s ∧ inv_Server c s)).
  - intros s d [Hinv Hc]. split; [by apply inv_step|].
    by apply inv_Server_step.
  - split; [apply inv_start|]. split; cbn [start s_rw s_threads].
    + by intros (j & t & [=] & _).
    + intros code h. by rewrite Hrw.
Qed.

End Server.

(** *** A schedule that reaches a given statement *)




(** *** The access line *)

Lemma inv_access_step s d :
  inv c s → inv_access port c s → inv_access port c (step port c s d).
Proof.
  unfold inv_access. intros Hinv Hacc. unfold step.
  destruct (s_panicked s); [done|].
  destruct d as [dt [|i]]; cbn [fst snd] in *.
  - unfold step_main. cbn [tick s_main s_wg].
    destruct (s_main s) as [[|h rest]| |] eqn:Hmain.
    + intros Hret. discriminate Hret.
    + intros Hret. discriminate Hret.
    + destruct (s_wg s).
      * intros _. cbn [s_log]. rewrite last_snoc. reflexivity.
      * intros Hret. cbn [tick s_main] in Hret. congruence.
    + intros _. exact (Hacc eq_refl).
  - unfold step_go. cbn [tick s_threads].
    destruct (s_threads s !! i) as [t|] eqn:Hi; [|exact Hacc].
    destruct (t_code t) as [|o rest] eqn:Hcode; [exact Hacc|].
    intros Hret. cbn [set_threads shared_op s_main tick] in Hret.
    destruct Hinv as [_ _ _ _ Hr].
    destruct (Hr Hret) as (T & _ & _ & _ & Hall).
    rewrite Forall_lookup in Hall. destruct (Hall _ _ Hi) as [? _].
    congruence.
Qed.

Lemma inv_access_run rw now sched :
  inv_access port c (run port c sched (start c rw now)).
Proof.
  enough (inv c (run port c sched (start c rw now)) ∧
          inv_access port c (run port c sched (start c rw now)))
    as [_ ?] by done.
  apply (run_ind port c (λ s, inv c s ∧ inv_access port c s)).
  - intros s d [Hinv Hc]. split; [by apply inv_step|].
    by apply inv_access_step.
  - split; [apply inv_start|]. by intros [=].
Qed.

(** the [backLog] of a finished goroutine that has not measured its time
    is what the statements of its body stored *)
Lemma returned_backLog rw now sched (h : Host.t) :
  NoDup (Host.Name <$> hosts) →
  let s := run port c sched (start c rw now) in
  s_main s = Returned → h ∈ hosts →
  (Forall (λ o, o ≠ OUsed) (goroutine c h) →
   resolve_logData s !! key_of h = Some (foldl bl_op ∅ (goroutine c h))) ∧
  is_Some (resolve_logData s !! key_of h).
Proof.
  intros Hnd s Hret Hin.
  pose proof (inv_run port c rw now sched) as Hinv. fold s in Hinv.
  destruct (inv_log_run port c rw now sched) as [Hk Hs]. fold s in Hk, Hs.
  destruct (returned_after_all c s Hinv Hret) as (T & _ & _ & Hall).
  apply list_elem_of_lookup in Hin as [i Hi].
  destruct (Hall i h Hi) as (t & _ & _ & Hti & <- & Hcode & _).
  rewrite Forall_lookup in Hs.
  destruct (Hs _ _ Hti) as [Hin|[j Hj]].
  { rewrite Hcode in Hin. by apply elem_of_nil in Hin. }
  destruct (Hk _ _ Hj) as (t' & Htj & Hkey).
  pose proof (thread_host c s j t' Hinv Htj) as Hhj.
  assert (Hname : Host.Name (t_host t) = Host.Name (t_host t')).
  { unfold key_of in Hkey. by injection Hkey. }
  assert (j = i) as ->.
  { eapply NoDup_lookup; [exact Hnd|..]; rewrite list_lookup_fmap;
      [by rewrite Hhj|rewrite Hi; cbn; by rewrite Hname]. }
  rewrite Hti in Htj. injection Htj as <-.
  unfold resolve_logData. rewrite lookup_omap, Hj. cbn [mbind option_bind].
  rewrite Hti. cbn [fmap option_fmap option_map].
  split; [|by eexists]. intros Hnu. f_equal.
  destruct Hinv as [_ Ht _ _ _]. rewrite Forall_lookup in Ht.
  destruct (Ht _ _ Hti) as (done & Hg & _ & _ & Hbl & _).
  rewrite Hcode, app_nil_r in Hg. subst done. by apply Hbl.
Qed.

End calls.

(** ** What the engine does besides *)

Lemma enter_fields `{E : Engine} (bindPath : string) (api : Api.t)
  (req : GoHttp.Request) (c : Ctx) :
  enter bindPath api req = Some c →
  c_api c = api ∧
  GoStrings.slice_from (GoHttp.URL_Path req) (String.length bindPath)
  = Some (c_relPath c) ∧
  GoHttp.Method (c_req c) = GoHttp.Method req ∧
  GoHttp.URL_RawQuery (c_req c) = GoHttp.URL_RawQuery req ∧
  c_body c = GoHttp.Body req ∧
  c_addrInfo c = GoStrings.Split (GoHttp.RemoteAddr req) ":".
Proof.
  unfold enter.
  destruct (GoStrings.slice_from _ _) as [relPath|]; [|done].
  by intros [= <-].
Qed.

Lemma elem_of_fanout `{E : Engine} (c : Ctx) (h : Host.t)
  (r : GoHttp.ClientRequest) :
  (h, r) ∈ fanout c ↔
  h ∈ Api.Hosts (c_api c) ∧
  IsHostIgnore (c_caller c) (Host.Name h) = false ∧ r = reqNew c h.
Proof.
  unfold fanout. rewrite list_elem_of_fmap. split.
  - intros (h' & [= <- ->] & Hin). apply list_elem_of_In in Hin.
    apply filter_In in Hin as [Hin Hig]. apply list_elem_of_In in Hin.
    apply negb_true_iff in Hig. done.
  - intros (Hin & Hig & ->). exists h. split; [done|].
    apply list_elem_of_In, filter_In. split; [by apply list_elem_of_In|].
    by rewrite Hig.
Qed.


(** X2: Every upstream call carries the method and the body of the inbound
    request and the timeout of the API; its header
    [Http_x_forwarded_for] (the canonical form of the key
    [HTTP_X_FORWARDED_FOR]) holds the address of the client, the part of
    [RemoteAddr] before its first colon; and its URL begins with the URL of
    the host. *)
Theorem forwarded_request `{E : Engine} (port : Z) (bindPath : string)
  (api : Api.t) (rw : GoHttp.ResponseWriter) (req : GoHttp.Request)
  (now : nat) (sched : Schedule) (s : State) (ip p : string) (h : Host.t)
  (r : GoHttp.ClientRequest) :
  serve port (FanoutHandler bindPath api) rw req now sched = Some s →
  GoHttp.RemoteAddr req = ip +:+ ":" +:+ p → has_byte ":" ip = false →
  (h, r) ∈ s_calls s →
  h ∈ Api.Hosts api ∧
  GoHttp.c_Method r = GoHttp.Method req ∧
  GoHttp.c_Body r = GoHttp.Body req ∧
  GoHttp.c_TimeoutMs r = Api.TimeoutMs api ∧
  GoHttp.c_Header r !! "Http_x_forwarded_for" = Some [ip] ∧
  GoStrings.HasPrefix (GoHttp.c_URL r) (Host.Url h) = true.
Proof.
  intros (c & Hc & _ & ->)%serve_run Haddr Hip Hin.
  destruct (enter_fields _ _ _ _ Hc) as (Hapi & _ & Hm & Hq & Hb & Ha).
  eapply elem_of_submseteq in Hin; [|apply calls_sub].
  apply elem_of_fanout in Hin as (Hh & _ & ->). rewrite Hapi in Hh.
  split_and!; [done|done|done|by rewrite <-Hapi| |].
  - cbn [reqNew GoHttp.c_Header]. unfold GoHttp.Set_.
    change (GoHttp.CanonicalHeaderKey "HTTP_X_FORWARDED_FOR")
      with "Http_x_forwarded_for".
    rewrite lookup_insert_eq, Ha, Haddr, Split_colon by done. done.
  - cbn [reqNew GoHttp.c_URL]. unfold urlNew, GoStrings.HasPrefix.
    repeat case_match; rewrite ?str_app_assoc; apply prefix_app.
Qed.


Lemma rw_ops_silent (os : list Op) (rw : GoHttp.ResponseWriter) :
  Forall (λ o, silent o = true) os → rw_ops os rw = rw.
Proof.
  unfold rw_ops. revert rw. induction os as [|o os IH]; intros rw Hs; [done|].
  apply Forall_cons in Hs as [Ho Hs]. cbn [foldl]. rewrite IH by done.
  by destruct o.
Qed.

Lemma goroutine_master_err `{E : Engine} (c : Ctx) (h : Host.t)
  (err : string) :
  IsHostIgnore (c_caller c) (Host.Name h) = false →
  NewRequest_ok (GoHttp.Method (c_req c)) (urlNew c h) = true →
  Do h (reqNew c h) = inr err →
  goroutine c h =
    preamble c h ++
    [ODo (reqNew c h); set_Server; OLogFetch (urlNew c h) err] ++
    (if isMaster (c_masterHost c) h
     then [OWriteHeader GoHttp.StatusBadGateway;
           OHeaderSet "api-url" (urlNew c h);
           OWrite ("apiServer error:" +:+ err)]
     else []) ++ [ODone].
Proof.
  intros Hig Hok Hdo. unfold goroutine, preamble, set_Server.
  rewrite Hig, Hok, Hdo. reflexivity.
Qed.

Lemma preamble_silent (c : Ctx) (h : Host.t) :
  Forall (λ o, silent o = true) (preamble c h).
Proof. unfold preamble. by repeat constructor. Qed.

(** the headers of an upstream are added by the goroutine of a master
    whose call succeeded, and by no other *)
Lemma goroutine_Add `{E : Engine} (c : Ctx) (h : Host.t) (k v : string) :
  OHeaderAdd k v ∈ goroutine c h →
  isMaster (c_masterHost c) h = true ∧
  IsHostIgnore (c_caller c) (Host.Name h) = false ∧
  ∃ resp, Do h (reqNew c h) = inl resp.
Proof.
  intros Hin.
  destruct (isMaster (c_masterHost c) h) eqn:Hm.
  - destruct (IsHostIgnore (c_caller c) (Host.Name h)) eqn:Hig.
    { rewrite (goroutine_ignored c h Hig) in Hin. set_solver. }
    split_and!; [done..|].
    destruct (NewRequest_ok (GoHttp.Method (c_req c)) (urlNew c h)) eqn:Hok.
    + destruct (Do h (reqNew c h)) as [resp|err] eqn:Hdo; [by eexists|].
      rewrite (goroutine_master_err c h err Hig Hok Hdo), Hm in Hin.
      unfold preamble, set_Server in Hin. set_solver.
    + rewrite (goroutine_panics c h Hig Hok) in Hin.
      unfold preamble in Hin. set_solver.
  - pose proof (goroutine_shadow c h Hm) as Hq.
    rewrite Forall_forall in Hq. by specialize (Hq _ Hin).
Qed.

(** X4: When the call of the master fails (host names unique), the client
    receives status 502, the body ["apiServer error:"] followed by the
    text of the error, and [Server: api-proxy] as its only header: the
    header [Api-Url] is set after the header has been sent and reaches no
    client. The error is in the log. This holds under every schedule, and
    the closure returns under some schedule when no request construction
    fails. *)
Theorem master_failure `{E : Engine} (port : Z) (bindPath : string)
  (api : Api.t) (req : GoHttp.Request) (now : nat) (c : Ctx) (i : nat)
  (hm : Host.t) (err : string) :
  NoDup (Host.Name <$> Api.Hosts api) →
  enter bindPath api req = Some c →
  Api.Hosts api !! i = Some hm →
  isMaster (c_masterHost c) hm = true →
  IsHostIgnore (c_caller c) (Host.Name hm) = false →
  NewRequest_ok (GoHttp.Method (c_req c)) (urlNew c hm) = true →
  Do hm (reqNew c hm) = inr err →
  (∀ sched s,
      serve port (FanoutHandler bindPath api) GoHttp.fresh req now sched
      = Some s →
      s_main s = Returned →
      GoHttp.finish (s_rw s)
      = {| GoHttp.status := GoHttp.StatusBadGateway;
           GoHttp.header := {[ "Server" := ["api-proxy"] ]};
           GoHttp.body := "apiServer error:" +:+ err |} ∧
      ELFetch (urlNew c hm) err ∈ s_log s) ∧
  ((∀ h, h ∈ Api.Hosts api →
         IsHostIgnore (c_caller c) (Host.Name h) = false →
         NewRequest_ok (GoHttp.Method (c_req c)) (urlNew c h) = true) →
   ∃ sched s,
     serve port (FanoutHandler bindPath api) GoHttp.fresh req now sched
     = Some s ∧
     s_main s = Returned).
Proof.
  intros Hnd Hc Hi Hmaster Hig Hok Hdo.
  pose proof (enter_api _ _ _ _ Hc) as Hapi. split.
  - intros sched s (c' & Hc' & _ & ->)%serve_run Hret.
    rewrite Hc in Hc'. injection Hc' as <-.
    rewrite <-Hapi in Hnd, Hi.
    assert (Hhm : hm ∈ Api.Hosts (c_api c))
      by (by eapply list_elem_of_lookup_2).
    split; [|eapply returned_logged; [done..|];
             by apply goroutine_shadow_error].
    pose proof (returned_response port c Hnd GoHttp.fresh now sched i hm
                  Hret Hi Hmaster) as Hsim.
    rewrite (goroutine_master_err c hm err Hig Hok Hdo), Hmaster in Hsim.
    rewrite rw_ops_app, (rw_ops_silent _ _ (preamble_silent c hm)) in Hsim.
    apply strip_rw_inv in Hsim as (_ & Hw & Hbody).
    assert (HS : inv_Server c (run port c sched (start c GoHttp.fresh now))).
    { apply inv_Server_run; [|done]. intros h k v Hh Hin.
      apply goroutine_Add in Hin as (Hm & _ & resp & Hresp).
      destruct (proj1 (list_elem_of_lookup _ _) Hh) as [j Hj].
      pose proof (master_unique c Hnd _ _ _ _ Hj Hi Hm Hmaster) as ->.
      rewrite Hi in Hj. injection Hj as <-. congruence. }
    destruct HS as [_ Hsent].
    set (s := run port c sched (start c GoHttp.fresh now)) in *.
    unfold GoHttp.finish.
    destruct (GoHttp.wroteHeader (s_rw s)) as [[code hd]|] eqn:Hwrote;
      [|done].
    cbn in Hw, Hbody. injection Hw as -> Hhd.
    f_equal; [|done]. apply map_eq. intros k.
    destruct (decide (k = "Server")) as [->|Hne].
    + rewrite (Hsent _ _ eq_refl). done.
    + rewrite <-(lookup_delete_ne hd "Server" k) by done.
      unfold strip in Hhd. rewrite Hhd.
      rewrite lookup_delete_ne by done. done.
  - intros Hoks.
    exists (in_order c), (run port c (in_order c) (start c GoHttp.fresh now)).
    unfold serve. rewrite Hc. split; [done|].
    apply in_order_returns, Forall_forall. intros h Hh.
    apply goroutine_no_panic. intros Hnot. apply Hoks; [|done].
    by rewrite <-Hapi.
Qed.

(** X5: When no host is the master, or the caller ignores the host that is
    the master (host names unique), the closure writes nothing: at every
    moment of every schedule the status and the body are those of the
    writer it was given, and so is every header but [Server]. *)
Theorem master_ignored_or_absent `{E : Engine} (port : Z)
  (bindPath : string) (api : Api.t) (rw : GoHttp.ResponseWriter)
  (req : GoHttp.Request) (now : nat) (c : Ctx) (sched : Schedule)
  (s : State) :
  NoDup (Host.Name <$> Api.Hosts api) →
  enter bindPath api req = Some c →
  (∀ h, h ∈ Api.Hosts api → isMaster (c_masterHost c) h = true →
        IsHostIgnore (c_caller c) (Host.Name h) = true) →
  serve port (FanoutHandler bindPath api) rw req now sched = Some s →
  GoHttp.status (GoHttp.finish (s_rw s)) = GoHttp.status (GoHttp.finish rw) ∧
  GoHttp.body (GoHttp.finish (s_rw s)) = GoHttp.body (GoHttp.finish rw) ∧
  ∀ k, k ≠ "Server" →
       GoHttp.header (GoHttp.finish (s_rw s)) !! k
       = GoHttp.header (GoHttp.finish rw) !! k.
Proof.
  intros Hnd Hc Hign (c' & Hc' & _ & ->)%serve_run.
  rewrite Hc in Hc'. injection Hc' as <-.
  pose proof (enter_api _ _ _ _ Hc) as Hapi. rewrite <-Hapi in Hnd, Hign.
  pose proof (inv_run port c rw now sched) as Hinv.
  destruct (inv_rw_run port c Hnd rw now sched) as (D & Hsim & Hm & Hnone).
  set (s := run port c sched (start c rw now)) in *.
  assert (HD : rw_ops D rw = rw).
  { destruct (List.find (λ t, isMaster (c_masterHost c) (t_host t))
                        (s_threads s)) as [t|] eqn:Hfind.
    - apply find_some in Hfind as [Hin Hmaster].
      apply list_elem_of_In, list_elem_of_lookup in Hin as [j Hj].
      pose proof (thread_host c s j t Hinv Hj) as Hh.
      apply list_elem_of_lookup_2 in Hh.
      pose proof (Hm j t Hj Hmaster) as Hg.
      rewrite (goroutine_ignored c _ (Hign _ Hh Hmaster)) in Hg.
      apply rw_ops_silent.
      assert (Hall : Forall (λ o, silent o = true) (D ++ t_code t))
        by (rewrite <-Hg; by repeat constructor).
      by apply Forall_app in Hall as [? _].
    - rewrite Hnone; [done|]. intros j t Hj.
      eapply find_none in Hfind; [exact Hfind|].
      by eapply list_elem_of_In, list_elem_of_lookup_2. }
  rewrite HD in Hsim. apply finish_strip in Hsim as (Hst & Hbody & Hhdr).
  split_and!; [done..|]. intros k Hk. by apply strip_lookup.
Qed.

(** X6: A trailing slash on the URL of a host makes no difference for a path
    that goes on below the bound prefix: for the request path
    [bindPath/rest], the hosts [u] and [u/] are both called at [u/rest],
    followed by [?] and the query when there is one. *)
Theorem trailing_slash `{E : Engine} (bindPath : string) (api : Api.t)
  (req : GoHttp.Request) (c : Ctx) (h : Host.t) (u rest : string) :
  enter bindPath api req = Some c →
  GoHttp.URL_Path req = bindPath +:+ "/" +:+ rest →
  GoStrings.HasPrefix rest "/" = false →
  GoStrings.HasSuffix u "/" = false →
  Host.Url h = u ∨ Host.Url h = u +:+ "/" →
  urlNew c h
  = u +:+ "/" +:+ rest +:+
    (if String.eqb (GoHttp.URL_RawQuery req) "" then ""
     else "?" +:+ GoHttp.URL_RawQuery req).
Proof.
  intros Hc Hpath Hrest Hu Hurl.
  destruct (enter_fields _ _ _ _ Hc) as (_ & Hrel & _ & Hq & _).
  rewrite Hpath, slice_from_app in Hrel. injection Hrel as Hrel.
  unfold urlNew. rewrite Hq, <-Hrel.
  assert (Hjoin : (if GoStrings.HasSuffix (Host.Url h) "/"
                   then Host.Url h +:+ GoStrings.TrimLeft ("/" +:+ rest) "/"
                   else Host.Url h +:+ ("/" +:+ rest))
                  = u +:+ "/" +:+ rest).
  { destruct Hurl as [->| ->].
    - by rewrite Hu.
    - rewrite HasSuffix_app, str_app_assoc. f_equal. f_equal.
      change (GoStrings.TrimLeft ("/" +:+ rest) "/")
        with (GoStrings.TrimLeft rest "/").
      apply TrimLeft_id. intros a r ->.
      unfold GoStrings.HasPrefix in Hrest. cbn [String.prefix] in Hrest.
      unfold GoStrings.in_cutset. cbn [existsb list_ascii_of_string].
      destruct (ascii_dec "/" a) as [<-|Hne]; [by destruct r|].
      rewrite orb_false_r. apply Ascii.eqb_neq. congruence. }
  rewrite Hjoin.
  destruct (String.eqb (GoHttp.URL_RawQuery req) "").
  - by rewrite !str_app_nil_r.
  - by rewrite !str_app_assoc.
Qed.

Lemma uri_enter `{E : Engine} (bindPath : string) (api : Api.t)
  (req : GoHttp.Request) (c : Ctx) :
  enter bindPath api req = Some c →
  uri (c_req c) = uri req ∧
  GoHttp.RemoteAddr (c_req c) = GoHttp.RemoteAddr req.
Proof.
  unfold enter.
  destruct (GoStrings.slice_from _ _) as [relPath|]; [|done].
  by intros [= <-].
Qed.

(** X7: When the closure has returned, the last line of its log is the access
    line: the port, the remote address, the method, the URI (the path,
    followed by [?] and the query when there is one), the name of the
    master and [logData]; and [logData] has an entry [host_<name>] for
    every host of the API (host names unique). *)
Theorem access_log_line `{E : Engine} (port : Z) (bindPath : string)
  (api : Api.t) (rw : GoHttp.ResponseWriter) (req : GoHttp.Request)
  (now : nat) (c : Ctx) (sched : Schedule) (s : State) :
  NoDup (Host.Name <$> Api.Hosts api) →
  enter bindPath api req = Some c →
  serve port (FanoutHandler bindPath api) rw req now sched = Some s →
  s_main s = Returned →
  last (s_log s)
  = Some (ELAccess port (GoHttp.RemoteAddr req) (GoHttp.Method req)
                   (uri req) (c_masterHost c) (resolve_logData s)) ∧
  ∀ h, h ∈ Api.Hosts api →
       is_Some (resolve_logData s !! ("host_" +:+ Host.Name h)).
Proof.
  intros Hnd Hc (c' & Hc' & _ & ->)%serve_run Hret.
  rewrite Hc in Hc'. injection Hc' as <-.
  destruct (enter_fields _ _ _ _ Hc) as (Hapi & _ & Hm & _).
  destruct (uri_enter _ _ _ _ Hc) as [Huri Hra].
  rewrite <-Hapi in Hnd. split.
  - rewrite (inv_access_run port c rw now sched Hret).
    unfold access_line. by rewrite Hm, Huri, Hra.
  - intros h Hh. rewrite <-Hapi in Hh.
    by apply (returned_backLog port c rw now sched h Hnd Hret Hh).
Qed.

(** X8: A host whose call fails (host names unique) is in [logData] with its
    [isMaster] flag and its [url], and without the elapsed time [used]:
    the goroutine returns before it measures it. *)
Theorem failed_call_logged `{E : Engine} (port : Z) (bindPath : string)
  (api : Api.t) (rw : GoHttp.ResponseWriter) (req : GoHttp.Request)
  (now : nat) (c : Ctx) (h : Host.t) (err : string) (sched : Schedule)
  (s : State) :
  NoDup (Host.Name <$> Api.Hosts api) →
  enter bindPath api req = Some c →
  h ∈ Api.Hosts api →
  IsHostIgnore (c_caller c) (Host.Name h) = false →
  NewRequest_ok (GoHttp.Method (c_req c)) (urlNew c h) = true →
  Do h (reqNew c h) = inr err →
  serve port (FanoutHandler bindPath api) rw req now sched = Some s →
  s_main s = Returned →
  resolve_logData s !! ("host_" +:+ Host.Name h)
  = Some (<["url" := LStr (urlNew c h)]>
            (<["isMaster" := LBool (isMaster (c_masterHost c) h)]> ∅)) ∧
  resolve_logData s !! ("host_" +:+ Host.Name h) ≫= (.!! "used") = None.
Proof.
  intros Hnd Hc Hh Hig Hok Hdo (c' & Hc' & _ & ->)%serve_run Hret.
  rewrite Hc in Hc'. injection Hc' as <-.
  pose proof (enter_api _ _ _ _ Hc) as Hapi. rewrite <-Hapi in Hnd, Hh.
  destruct (returned_backLog port c rw now sched h Hnd Hret Hh) as [Hbl _].
  change ("host_" +:+ Host.Name h) with (key_of h).
  rewrite Hbl.
  - rewrite (goroutine_master_err c h err Hig Hok Hdo). unfold preamble.
    split.
    + by destruct (isMaster (c_masterHost c) h).
    + by destruct (isMaster (c_masterHost c) h).
  - rewrite (goroutine_master_err c h err Hig Hok Hdo). unfold preamble.
    destruct (isMaster (c_masterHost c) h); by repeat constructor.
Qed.

(** X9: The closure deletes the header [Connection] of the inbound request
    before anything reads the request: a request with a [Connection]
    header is served as the same request without it, with the same
    upstream calls, the same response and the same log, under every
    schedule. *)
Theorem connection_header_dropped `{E : Engine} (port : Z)
  (h : Handler) (rw : GoHttp.ResponseWriter) (req : GoHttp.Request)
  (vs : list string) (now : nat) (sched : Schedule) :
  serve port h rw
        (set_ReqHeader req (<["Connection" := vs]> (GoHttp.ReqHeader req)))
        now sched
  = serve port h rw
          (set_ReqHeader req (delete "Connection" (GoHttp.ReqHeader req)))
          now sched.
Proof.
  destruct h as [bindPath api]. unfold serve, enter.
  cbn [set_ReqHeader GoHttp.URL_Path GoHttp.Method GoHttp.URL_RawQuery
       GoHttp.URL_String GoHttp.ReqHeader GoHttp.Body GoHttp.RemoteAddr].
  unfold GoHttp.Del. rewrite canon_Connection.
  by rewrite delete_insert_eq, delete_delete_eq.
Qed.

(** *** The engine on concrete requests, again *)

Lemma s_calls_up :
  s_calls s_up
  = [(h1, reqNew (E:=E_up) ctx2 h1); (h2, reqNew (E:=E_up) ctx2 h2)].
Proof. vm_compute. reflexivity. Qed.


(** [forwarded_request] on the call of [h2] for [GET /a/x/y] from
    [10.0.0.7:5312] *)
Lemma forwarded_request_up :
  h2 ∈ Api.Hosts api2 ∧
  GoHttp.c_Method (reqNew (E:=E_up) ctx2 h2) = "GET" ∧
  GoHttp.c_Body (reqNew (E:=E_up) ctx2 h2) = "" ∧
  GoHttp.c_TimeoutMs (reqNew (E:=E_up) ctx2 h2) = 100 ∧
  GoHttp.c_Header (reqNew (E:=E_up) ctx2 h2) !! "Http_x_forwarded_for"
  = Some ["10.0.0.7"] ∧
  GoStrings.HasPrefix (GoHttp.c_URL (reqNew (E:=E_up) ctx2 h2))
                      "http://10.0.0.2/base" = true.
Proof.
  refine (forwarded_request (E:=E_up) 8080 "/a" api2 GoHttp.fresh
            (get "/a/x/y") 0 (in_order (E:=E_up) ctx2) s_up
            "10.0.0.7" "5312" h2 (reqNew (E:=E_up) ctx2 h2)
            serve_up _ _ _).
  - reflexivity.
  - reflexivity.
  - rewrite s_calls_up. apply list_elem_of_further, list_elem_of_here.
Defined.



Lemma enter_ctx2_master_down :
  enter (E:=E_master_down) "/a" api2 (get "/a/x/y") = Some ctx2.
Proof. vm_compute. reflexivity. Qed.

Lemma serve_ctx2_master_down (sched : Schedule) :
  serve (E:=E_master_down) 8080 (FanoutHandler "/a" api2) GoHttp.fresh
        (get "/a/x/y") 0 sched
  = Some (run (E:=E_master_down) 8080 ctx2 sched
              (start ctx2 GoHttp.fresh 0)).
Proof. unfold serve. rewrite enter_ctx2_master_down. reflexivity. Qed.

Lemma serve_master_down :
  serve (E:=E_master_down) 8080 (FanoutHandler "/a" api2) GoHttp.fresh
        (get "/a/x/y") 0 (in_order (E:=E_master_down) ctx2)
  = Some s_master_down.
Proof. apply serve_ctx2_master_down. Qed.

Lemma s_master_down_returned : s_main s_master_down = Returned.
Proof. vm_compute. reflexivity. Qed.

(** [master_failure] on [GET /a/x/y], the master [h1] refusing the
    connection *)
Lemma master_failure_refused :
  GoHttp.finish (s_rw s_master_down)
  = {| GoHttp.status := 502;
       GoHttp.header := {[ "Server" := ["api-proxy"] ]};
       GoHttp.body := "apiServer error:" +:+ "connection refused" |} ∧
  ELFetch (urlNew ctx2 h1) "connection refused" ∈ s_log s_master_down.
Proof.
  destruct (master_failure (E:=E_master_down) 8080 "/a" api2 (get "/a/x/y")
              0 ctx2 0 h1 "connection refused" names_api2
              enter_ctx2_master_down)
    as [Hall _]; [vm_compute; reflexivity..|].
  exact (Hall _ s_master_down serve_master_down s_master_down_returned).
Defined.

Lemma names_first_ignored :
  NoDup (Host.Name <$> Api.Hosts api_first_ignored).
Proof. exact names_api2. Qed.

Lemma enter_first_ignored :
  enter (E:=E_up) "/a" api_first_ignored (get "/a/x/y")
  = Some ctx_first_ignored.
Proof. vm_compute. reflexivity. Qed.

Lemma serve_ctx_first_ignored (sched : Schedule) :
  serve (E:=E_up) 8080 (FanoutHandler "/a" api_first_ignored) GoHttp.fresh
        (get "/a/x/y") 0 sched
  = Some (run (E:=E_up) 8080 ctx_first_ignored sched
              (start ctx_first_ignored GoHttp.fresh 0)).
Proof. unfold serve. rewrite enter_first_ignored. reflexivity. Qed.

Lemma serve_first_ignored :
  serve (E:=E_up) 8080 (FanoutHandler "/a" api_first_ignored) GoHttp.fresh
        (get "/a/x/y") 0 (in_order (E:=E_up) ctx_first_ignored)
  = Some s_first_ignored.
Proof. apply serve_ctx_first_ignored. Qed.

(** [master_ignored_or_absent] when the caller ignores [h1], the first
    host, and prefers none: [h1] is the master *)
Lemma master_ignored_first_host :
  GoHttp.status (GoHttp.finish (s_rw s_first_ignored))
  = GoHttp.status (GoHttp.finish GoHttp.fresh) ∧
  GoHttp.body (GoHttp.finish (s_rw s_first_ignored))
  = GoHttp.body (GoHttp.finish GoHttp.fresh) ∧
  ∀ k, k ≠ "Server" →
       GoHttp.header (GoHttp.finish (s_rw s_first_ignored)) !! k
       = GoHttp.header (GoHttp.finish GoHttp.fresh) !! k.
Proof.
  refine (master_ignored_or_absent (E:=E_up) 8080 "/a" api_first_ignored
            GoHttp.fresh (get "/a/x/y") 0 ctx_first_ignored
            (in_order (E:=E_up) ctx_first_ignored) s_first_ignored
            names_first_ignored enter_first_ignored _ serve_first_ignored).
  intros h Hh Hm. cbn [api_first_ignored Api.Hosts] in Hh.
  apply elem_of_cons in Hh as [->|Hh]; [vm_compute; reflexivity|].
  apply list_elem_of_singleton in Hh as ->. vm_compute in Hm. discriminate Hm.
Defined.

(** [trailing_slash] on [GET /a/x/y]: [h1] is [http://10.0.0.1/] and [h2]
    is [http://10.0.0.2/base] *)
Lemma trailing_slash_hosts :
  urlNew ctx2 h1 = "http://10.0.0.1" +:+ "/" +:+ "x/y" +:+ "" ∧
  urlNew ctx2 h2 = "http://10.0.0.2/base" +:+ "/" +:+ "x/y" +:+ "".
Proof.
  split.
  - refine (trailing_slash (E:=E_up) "/a" api2 (get "/a/x/y") ctx2 h1
              "http://10.0.0.1" "x/y" enter_ctx2_up _ _ _ _);
      [reflexivity..|right; reflexivity].
  - refine (trailing_slash (E:=E_up) "/a" api2 (get "/a/x/y") ctx2 h2
              "http://10.0.0.2/base" "x/y" enter_ctx2_up _ _ _ _);
      [reflexivity..|left; reflexivity].
Defined.

(** [access_log_line] on [GET /a/x/y] with both hosts answering *)
Lemma access_log_line_up :
  last (s_log s_up)
  = Some (ELAccess 8080 "10.0.0.7:5312" "GET" "/a/x/y" "h1"
                   (resolve_logData s_up)) ∧
  ∀ h, h ∈ Api.Hosts api2 →
       is_Some (resolve_logData s_up !! ("host_" +:+ Host.Name h)).
Proof.
  exact (access_log_line (E:=E_up) 8080 "/a" api2 GoHttp.fresh
           (get "/a/x/y") 0 ctx2 (in_order (E:=E_up) ctx2) s_up
           names_api2 enter_ctx2_up serve_up s_up_returned).
Defined.

(** [failed_call_logged] on [GET /a/x/y], the shadow [h2] refusing the
    connection *)
Lemma failed_call_logged_down :
  resolve_logData s_order !! ("host_" +:+ Host.Name h2)
  = Some (<["url" := LStr (urlNew ctx2 h2)]>
            (<["isMaster" := LBool (isMaster (c_masterHost ctx2) h2)]> ∅)) ∧
  resolve_logData s_order !! ("host_" +:+ Host.Name h2) ≫= (.!! "used")
  = None.
Proof.
  refine (failed_call_logged (E:=E_down) 8080 "/a" api2 GoHttp.fresh
            (get "/a/x/y") 0 ctx2 h2 "connection refused"
            (in_order (E:=E_down) ctx2) s_order names_api2 enter_ctx2
            _ _ _ _ serve_order s_order_returned).
  - apply list_elem_of_further, list_elem_of_here.
  - vm_compute. reflexivity.
  - vm_compute. reflexivity.
  - vm_compute. reflexivity.
Defined.

(** ** The engine: progress and rest *)

Section progress.
Context `{E : Engine} (port : Z) (c : Ctx).

Local Abbreviation hosts := (Api.Hosts (c_api c)).

Hypothesis requests_ok :
  ∀ h, h ∈ hosts → Forall (λ o, o ≠ OPanic) (goroutine c h).

Lemma sum_insert {A} (f : A → nat) (l : list A) i x x' :
  l !! i = Some x →
  (sum_list_with f (<[i := x']> l) + f x = sum_list_with f l + f x')%nat.
Proof.
  revert i. induction l as [|y l IH]; intros [|i] Hi; simplify_eq/=;
    [lia|]. specialize (IH _ Hi). lia.
Qed.

Lemma sum_positive {A} (f : A → nat) (l : list A) :
  (0 < sum_list_with f l)%nat → ∃ i x, l !! i = Some x ∧ (0 < f x)%nat.
Proof.
  induction l as [|y l IH]; cbn; [lia|]. intros Hs.
  destruct (f y) as [|n] eqn:Hy.
  - destruct IH as (i & x & Hi & Hx); [lia|]. by exists (S i), x.
  - exists 0%nat, y. split; [done|]. lia.
Qed.

(** a state that has not returned has a step that does some of the work
    left and does not panic *)
Lemma progress s :
  inv c s → s_panicked s = false → s_main s ≠ Returned →
  ∃ d, (work c (step port c s d) < work c s)%nat ∧
       s_panicked (step port c s d) = false.
Proof.
  intros Hinv Hp Hmain. unfold step. rewrite Hp.
  destruct (s_main s) as [[|h rest]| |] eqn:Hm; [| | |done].
  - exists (0%nat, Closure). cbn [fst snd]. unfold step_main, work.
    cbn [tick s_main]. rewrite Hm. cbn [s_main s_threads pending s_panicked tick].
    rewrite ?Hm. cbn [pending sum_list_with s_threads s_panicked tick]. split; [lia|done].
  - exists (0%nat, Closure). cbn [fst snd]. unfold step_main, work.
    cbn [tick s_main]. rewrite Hm. cbn [s_main s_threads pending s_panicked tick].
    rewrite ?Hm, sum_list_with_app.
    cbn [pending sum_list_with new_thread t_code s_threads s_panicked tick].
    split; [lia|done].
  - destruct (s_wg s) as [|n] eqn:Hwg.
    + exists (0%nat, Closure). cbn [fst snd]. unfold step_main, work.
      cbn [tick s_main s_wg]. rewrite Hm, Hwg.
      cbn [s_main s_threads pending s_panicked tick]. rewrite ?Hm.
      cbn [pending sum_list_with s_threads s_panicked tick]. split; [lia|done].
    + pose proof Hinv as [_ Ht _ Hw _]. rewrite Hwg in Hw.
      destruct (sum_positive busy (s_threads s)) as (i & t & Hi & Hb);
        [lia|].
      unfold busy in Hb.
      destruct (t_code t) as [|o code] eqn:Hcode; [lia|].
      exists (0%nat, Go i). cbn [fst snd]. unfold step_go, work.
      cbn [tick s_threads]. rewrite Hi, Hcode.
      cbn [set_threads shared_op s_main s_threads s_panicked tick s_now].
      rewrite ?Hm. cbn [pending sum_list_with].
      pose proof (sum_insert (λ t, List.length (t_code t)) _ _ _
                    (thread_op (s_now s + 0) o t) Hi) as Hsum.
      cbn beta in Hsum. rewrite thread_op_code, Hcode in Hsum.
      cbn [tail List.length] in Hsum. split; [lia|].
      rewrite Forall_lookup in Ht. destruct (Ht _ _ Hi) as (done & Hg & _).
      assert (Hh : t_host t ∈ hosts).
      { eapply list_elem_of_lookup_2, (thread_host c s i t Hinv Hi). }
      specialize (requests_ok _ Hh). rewrite Hg, Hcode in requests_ok.
      rewrite Forall_app, Forall_cons in requests_ok.
      destruct requests_ok as (_ & Ho & _). rewrite Hp. by destruct o.
Qed.

(** every state of a run can go on to the return of the closure *)
Lemma can_return (n : nat) : ∀ s,
  (work c s ≤ n)%nat → inv c s → s_panicked s = false →
  ∃ sched, s_main (run port c sched s) = Returned.
Proof.
  induction n as [|n IH]; intros s Hn Hinv Hp.
  - exists []. cbn. unfold work in Hn. destruct (s_main s); (done || lia).
  - destruct (s_main s) eqn:Hm; [| |by exists []].
    + destruct (progress s Hinv Hp) as (d & Hw & Hp'); [congruence|].
      destruct (IH (step port c s d)) as [sched Hs];
        [lia|by apply inv_step|done|].
      by exists (d :: sched).
    + destruct (progress s Hinv Hp) as (d & Hw & Hp'); [congruence|].
      destruct (IH (step port c s d)) as [sched Hs];
        [lia|by apply inv_step|done|].
      by exists (d :: sched).
Qed.

Lemma no_panic_run rw now sched :
  s_panicked (run port c sched (start c rw now)) = false.
Proof.
  enough (inv c (run port c sched (start c rw now)) ∧
          s_panicked (run port c sched (start c rw now)) = false)
    as [_ ?] by done.
  apply (run_ind port c (λ s, inv c s ∧ s_panicked s = false));
    [|by split; [apply inv_start|]].
  intros s [dt who] [Hinv Hp]. split; [by apply inv_step|].
  unfold step. rewrite Hp. destruct who as [|i]; cbn [fst snd].
  - unfold step_main. cbn [tick s_main s_wg].
    by repeat case_match.
  - unfold step_go. cbn [tick s_threads].
    destruct (s_threads s !! i) as [t|] eqn:Hi; [|done].
    destruct (t_code t) as [|o rest] eqn:Hcode; [done|].
    cbn [set_threads shared_op s_panicked tick].
    destruct (thread_next c s i t o rest Hinv Hi Hcode) as (h & Hh & _ & Ho).
    apply list_elem_of_lookup_2 in Hh. specialize (requests_ok _ Hh).
    rewrite Forall_forall in requests_ok. specialize (requests_ok _ Ho).
    rewrite Hp. by destruct o.
Qed.

End progress.

Section rest.
Context `{E : Engine} (port : Z) (c : Ctx).

(** once the closure has returned, a step changes the clock and nothing
    else *)
Lemma returned_step s d :
  inv c s → s_main s = Returned →
  timeless (step port c s d) = timeless s.
Proof.
  intros Hinv Hret. unfold step. destruct (s_panicked s) eqn:Hp; [done|].
  destruct d as [dt [|i]]; cbn [fst snd].
  - unfold step_main. cbn [tick s_main]. by rewrite Hret.
  - unfold step_go. cbn [tick s_threads].
    destruct (s_threads s !! i) as [t|] eqn:Hi; [|done].
    destruct Hinv as [_ _ _ _ Hr].
    destruct (Hr Hret) as (T & _ & _ & _ & Hall).
    rewrite Forall_lookup in Hall. destruct (Hall _ _ Hi) as [-> _]. done.
Qed.

Lemma returned_run sched : ∀ s,
  inv c s → s_main s = Returned →
  timeless (run port c sched s) = timeless s.
Proof.
  induction sched as [|d sched IH]; intros s Hinv Hret; [done|].
  cbn [run foldl].
  change (foldl (step port c) ?a ?l) with (run port c l a).
  pose proof (returned_step s d Hinv Hret) as Hstep.
  rewrite IH; [done|by apply inv_step|].
  pose proof (f_equal (λ p, p.1.1.1.1.1.1.1.1) Hstep) as Hm.
  cbn [timeless fst] in Hm. congruence.
Qed.

End rest.

(** X23: The fan-out cannot deadlock: when no request construction fails,
    every partial run of the closure, under whatever schedule, can go on
    to its return. *)
Theorem no_deadlock `{E : Engine} (port : Z) (bindPath : string)
  (api : Api.t) (rw : GoHttp.ResponseWriter) (req : GoHttp.Request)
  (now : nat) (c : Ctx) (sched : Schedule) :
  enter bindPath api req = Some c →
  (∀ h, h ∈ Api.Hosts api →
        IsHostIgnore (c_caller c) (Host.Name h) = false →
        NewRequest_ok (GoHttp.Method (c_req c)) (urlNew c h) = true) →
  ∃ sched' s,
    serve port (FanoutHandler bindPath api) rw req now (sched ++ sched')
    = Some s ∧
    s_main s = Returned ∧ s_panicked s = false.
Proof.
  intros Hc Hok. pose proof (enter_api _ _ _ _ Hc) as Hapi.
  assert (Hnp : ∀ h, h ∈ Api.Hosts (c_api c) →
                     Forall (λ o, o ≠ OPanic) (goroutine c h)).
  { intros h Hh. apply goroutine_no_panic. intros Hig.
    apply Hok; [by rewrite <-Hapi|done]. }
  destruct (can_return port c Hnp _ (run port c sched (start c rw now))
              (le_n _)) as [sched' Hret].
  { apply inv_run. }
  { by apply no_panic_run. }
  exists sched', (run port c (sched ++ sched') (start c rw now)).
  unfold serve. rewrite Hc. split; [done|]. rewrite run_app.
  split; [done|]. rewrite <-run_app. by apply no_panic_run.
Qed.

(** X24: When the closure has returned, no goroutine is left that could touch
    the request: whatever is scheduled afterwards changes neither the
    response writer, nor the calls, nor the log, nor anything else but the
    clock. *)
Theorem quiet_after_return `{E : Engine} (port : Z) (h : Handler)
  (rw : GoHttp.ResponseWriter) (req : GoHttp.Request) (now : nat)
  (sched sched' : Schedule) (s s' : State) :
  serve port h rw req now sched = Some s →
  s_main s = Returned →
  serve port h rw req now (sched ++ sched') = Some s' →
  timeless s' = timeless s.
Proof.
  destruct h as [bindPath api].
  intros (c & Hc & _ & ->)%serve_run Hret (c' & Hc' & _ & ->)%serve_run.
  rewrite Hc in Hc'. injection Hc' as <-. rewrite run_app.
  apply returned_run; [apply inv_run|done].
Qed.

(** [no_deadlock] on [GET /a/x/y] after both goroutines have been started
    and the goroutine of [h2] has run three statements *)
Lemma no_deadlock_up :
  ∃ sched' s,
    serve (E:=E_up) 8080 (FanoutHandler "/a" api2) GoHttp.fresh
          (get "/a/x/y") 0
          ((steps 2 Closure ++ steps 3 (Go 1)) ++ sched') = Some s ∧
    s_main s = Returned ∧ s_panicked s = false.
Proof.
  apply (no_deadlock (E:=E_up) 8080 "/a" api2 GoHttp.fresh (get "/a/x/y") 0
           ctx2 (steps 2 Closure ++ steps 3 (Go 1)) enter_ctx2_up).
  intros h _ _. reflexivity.
Defined.

(** [quiet_after_return] on [GET /a/x/y]: scheduling the goroutine of
    [h1] three more times after the return changes nothing *)
Lemma quiet_after_return_up :
  timeless (run (E:=E_up) 8080 ctx2
                (in_order (E:=E_up) ctx2 ++ steps 3 (Go 0))
                (start ctx2 GoHttp.fresh 0))
  = timeless s_up.
Proof.
  exact (quiet_after_return (E:=E_up) 8080 (FanoutHandler "/a" api2)
           GoHttp.fresh (get "/a/x/y") 0 (in_order (E:=E_up) ctx2)
           (steps 3 (Go 0)) s_up _ serve_up s_up_returned
           (serve_ctx2_up _)).
Defined.

(** ** The registry *)

Lemma TrimRight_app (a b cutset : string) :
  GoStrings.TrimRight (a +:+ b) cutset
  = if String.eqb (GoStrings.TrimRight b cutset) ""
    then GoStrings.TrimRight a cutset
    else a +:+ GoStrings.TrimRight b cutset.
Proof.
  induction a as [|x a IH].
  - rewrite str_app_nil_l. by destruct (GoStrings.TrimRight b cutset).
  - rewrite str_app_cons. cbn [GoStrings.TrimRight]. rewrite IH.
    destruct (GoStrings.TrimRight b cutset) as [|y r] eqn:Hb.
    + done.
    + cbn [String.eqb]. rewrite str_app_cons.
      by destruct (a +:+ String y r) eqn:Hab; [destruct a|].
Qed.

Lemma TrimRight_last (s cutset : string) :
  GoStrings.TrimRight s cutset = s ↔
  match last_byte s with
  | Some a => GoStrings.in_cutset cutset a = false
  | None => True
  end.
Proof.
  induction s as [|x s IH]; [done|].
  cbn [GoStrings.TrimRight last_byte]. destruct s as [|y s].
  - cbn [GoStrings.TrimRight].
    destruct (GoStrings.in_cutset cutset x); split; done.
  - destruct (GoStrings.TrimRight (String y s) cutset) as [|z r] eqn:Ht.
    + split.
      * destruct (GoStrings.in_cutset cutset x); done.
      * intros Hl. apply IH in Hl. done.
    + rewrite <-IH. split; intros Heq; by simplify_eq.
Qed.

Lemma has_slash_app (a b : string) :
  GoFilepath.has_slash (a +:+ b)
  = GoFilepath.has_slash a || GoFilepath.has_slash b.
Proof.
  induction a as [|x a IH]; [done|]. rewrite str_app_cons.
  cbn [GoFilepath.has_slash]. by rewrite IH, orb_assoc.
Qed.

Lemma last_elem_app (d f : string) :
  GoFilepath.has_slash f = false →
  GoFilepath.last_elem (d +:+ "/" +:+ f) = f.
Proof.
  intros Hf. induction d as [|x d IH].
  - rewrite str_app_nil_l, str_app_cons, str_app_nil_l.
    cbn [GoFilepath.last_elem]. by rewrite Hf.
  - rewrite str_app_cons. cbn [GoFilepath.last_elem].
    by rewrite has_slash_app, orb_true_r.
Qed.

Lemma no_slash_TrimRight (f : string) :
  GoFilepath.has_slash f = false → f ≠ "" →
  GoStrings.TrimRight f "/" = f.
Proof.
  intros Hf Hne. apply TrimRight_last.
  induction f as [|x f IH]; [done|]. cbn [last_byte].
  cbn [GoFilepath.has_slash] in Hf. apply orb_false_iff in Hf as [Hx Hf].
  destruct f as [|y f].
  - unfold GoStrings.in_cutset. cbn [existsb list_ascii_of_string].
    unfold GoFilepath.slash in Hx. by rewrite Hx.
  - by apply IH.
Qed.

Lemma Base_file (d f : string) :
  GoFilepath.has_slash f = false → f ≠ "" →
  GoFilepath.Base (d +:+ "/" +:+ f) = f.
Proof.
  intros Hf Hne. unfold GoFilepath.Base.
  assert (String.eqb (d +:+ "/" +:+ f) "" = false) as ->.
  { apply String.eqb_neq. by destruct d. }
  assert (GoStrings.TrimRight (d +:+ "/" +:+ f) "/" = d +:+ "/" +:+ f) as ->.
  { rewrite <-str_app_assoc, TrimRight_app, no_slash_TrimRight by done.
    apply String.eqb_neq in Hne. by rewrite Hne. }
  rewrite last_elem_app by done.
  apply String.eqb_neq in Hne. by rewrite Hne.
Qed.

(** X10: [loadAllApis] loads the definition file [<dir>/<name>.json] under the
    name [strings.TrimRight(name, ".json")]: under [name] itself exactly
    when [name] is empty or its last byte is none of [.], [j], [s], [o],
    [n]. *)
Theorem apiName_of_file (d name : string) :
  GoFilepath.has_slash name = false →
  apiName_of (d +:+ "/" +:+ name +:+ ".json")
  = GoStrings.TrimRight name ".json" ∧
  (apiName_of (d +:+ "/" +:+ name +:+ ".json") = name ↔
   match last_byte name with
   | Some a => GoStrings.in_cutset ".json" a = false
   | None => True
   end).
Proof.
  intros Hname.
  assert (Heq : apiName_of (d +:+ "/" +:+ name +:+ ".json")
                = GoStrings.TrimRight name ".json").
  { unfold apiName_of. rewrite Base_file.
    - by rewrite TrimRight_app.
    - by rewrite has_slash_app, Hname.
    - by destruct name.
  }
  split; [done|]. rewrite Heq. apply TrimRight_last.
Qed.

(** [apiName_of_file] on [users.json] and on [a.json] *)
Lemma apiName_of_file_users :
  (apiName_of ("conf/api_8080" +:+ "/" +:+ "users" +:+ ".json")
   = GoStrings.TrimRight "users" ".json" ∧
   (apiName_of ("conf/api_8080" +:+ "/" +:+ "users" +:+ ".json") = "users" ↔
    GoStrings.in_cutset ".json" "s" = false)) ∧
  GoStrings.TrimRight "users" ".json" = "user" ∧
  apiName_of ("conf/api_8080" +:+ "/" +:+ "a" +:+ ".json") = "a".
Proof.
  split; [|split].
  - exact (apiName_of_file "conf/api_8080" "users" eq_refl).
  - reflexivity.
  - exact (proj1 (apiName_of_file "conf/api_8080" "a" eq_refl)).
Defined.

Lemma loadApi_other `{St : Store} (w : World) (apiName n : string) :
  n ≠ apiName →
  Apis (server (loadApi w apiName).1) !! n = Apis (server w) !! n.
Proof.
  intros Hne. unfold loadApi.
  destruct (LoadApiByConf _ _ _) as [api|err]; [|done].
  destruct (Api.Enable api); cbn; by rewrite lookup_insert_ne.
Qed.

(** X11: [loadAllApis] changes no registry entry but those named after a
    definition file ([strings.TrimRight] of the base name), and writes
    nothing to the configuration directory. *)
Theorem loadAllApis_others `{St : Store} (w : World) (n : string) :
  n ∉ apiName_of <$> Glob (disk w) (ConfDir (server w) +:+ "/*.json") →
  getApiByName (loadAllApis w) n = getApiByName w n ∧
  disk (loadAllApis w) = disk w.
Proof.
  unfold loadAllApis, getApiByName.
  generalize (Glob (disk w) (ConfDir (server w) +:+ "/*.json")).
  intros l. induction l as [|f l IH] using rev_ind; intros Hn; [done|].
  rewrite foldl_app. cbn [foldl].
  rewrite fmap_app, not_elem_of_app in Hn. destruct Hn as [Hl Hf].
  destruct (IH Hl) as [IHa IHd].
  destruct (loadApi_attempt (foldl (λ w f, (loadApi w (apiName_of f)).1) w l)
              (apiName_of f)) as (_ & Hd & _).
  split; [|congruence].
  rewrite loadApi_other; [done|]. set_solver.
Qed.

(** [loadAllApis_others] on a directory with [users.json] and [a.json]:
    nothing is loaded under the name [users] *)
Lemma loadAllApis_others_users :
  getApiByName (loadAllApis w_users) "users" = getApiByName w_users "users" ∧
  disk (loadAllApis w_users) = disk w_users.
Proof.
  apply (loadAllApis_others w_users "users").
  vm_compute. intros Hin.
  repeat (apply elem_of_cons in Hin as [Hin|Hin]; [discriminate Hin|]).
  by apply elem_of_nil in Hin.
Defined.

(** X12: [deleteApi] removes the entry of the API from the registry and leaves
    the other entries and the routing table as they are: every request is
    dispatched as before, to the handler of the deleted API too. For a name
    that is not registered nothing changes at all. *)
Theorem deleteApi_keeps_routes `{St : Store} (w : World) (n : string) :
  getApiByName (deleteApi w n) n = None ∧
  (∀ n', n' ≠ n → getApiByName (deleteApi w n) n' = getApiByName w n') ∧
  (∀ req, ServeHTTP (server (deleteApi w n)) req = ServeHTTP (server w) req) ∧
  (getApiByName w n = None → deleteApi w n = w).
Proof.
  unfold deleteApi, getApiByName.
  destruct (Apis (server w) !! n) as [api|] eqn:Hn; cbn.
  - split_and!; [by rewrite lookup_delete_eq| |done|done].
    intros n' Hne. by rewrite lookup_delete_ne.
  - by split_and!.
Qed.

(** ** The administrative saves *)

Lemma host_loop_None `{St : Store} (names : list string) :
  ∀ (api : Api.t) (i : nat) (orig url note : list string),
    host_loop api i names orig url note = None ↔
    ∃ j name,
      names !! j = Some name ∧ name ≠ "" ∧ name ≠ web_tmp_name ∧
      (url !! (i + j)%nat = None ∨ note !! (i + j)%nat = None ∨
       orig !! (i + j)%nat = None).
Proof.
  induction names as [|name names IH]; intros api i orig url note.
  - split; [done|]. by intros (j & n & [=] & _).
  - cbn [host_loop].
    destruct (String.eqb name "" || String.eqb name web_tmp_name) eqn:Hskip.
    + rewrite IH. split.
      * intros (j & n & Hj & ? & ? & Hout). exists (S j), n.
        split_and!; [done..|]. by rewrite <-Nat.add_succ_comm.
      * intros ([|j] & n & Hj & Hn1 & Hn2 & Hout).
        { injection Hj as ->. apply orb_true_iff in Hskip as [H|H];
            apply String.eqb_eq in H; done. }
        exists j, n. split_and!; [done..|]. by rewrite Nat.add_succ_comm.
    + apply orb_false_iff in Hskip as [Hn1 Hn2].
      apply String.eqb_neq in Hn1, Hn2.
      destruct (url !! i) as [u|] eqn:Hu;
        [|split; [intros _; exists 0%nat, name; rewrite Nat.add_0_r; eauto
                 |done]].
      destruct (note !! i) as [nt|] eqn:Hnt;
        [|split; [intros _; exists 0%nat, name; rewrite Nat.add_0_r;
                  split_and!; eauto|done]].
      destruct (orig !! i) as [o|] eqn:Ho;
        [|split; [intros _; exists 0%nat, name; rewrite Nat.add_0_r;
                  split_and!; eauto|done]].
      rewrite IH. split.
      * intros (j & n & Hj & ? & ? & Hout). exists (S j), n.
        split_and!; [done..|]. by rewrite <-Nat.add_succ_comm.
      * intros ([|j] & n & Hj & ? & ? & Hout).
        { rewrite Nat.add_0_r, Hu, Hnt, Ho in Hout.
          by destruct Hout as [?|[?|?]]. }
        exists j, n. split_and!; [done..|]. by rewrite Nat.add_succ_comm.
Qed.

(** X13: [apiBaseSave] panics exactly when the timeout is an integer, the save
    is not the creation of an API that exists, and some host name that is
    neither empty nor the template name stands at an index where
    [host_url], [host_note] or [host_name_orig] has no value. The check of
    the lengths comes after the loop that indexes the three slices. *)
Theorem apiBaseSave_panics `{St : Store} (w : World)
  (form postForm : Values) :
  apiBaseSave w form postForm = None ↔
  is_Some (GoStrconv.ParseInt (Get form "timeout")) ∧
  ¬ (Get form "api_name_orig" = "" ∧
     is_Some (getApiByName w (Get form "api_name"))) ∧
  ∃ i name,
    index postForm "host_name" !! i = Some name ∧
    name ≠ "" ∧ name ≠ web_tmp_name ∧
    (index postForm "host_url" !! i = None ∨
     index postForm "host_note" !! i = None ∨
     index postForm "host_name_orig" !! i = None).
Proof.
  unfold apiBaseSave.
  destruct (GoStrconv.ParseInt (Get form "timeout")) as [timeout|];
    [|split; [done|by intros [[? [=]] _]]].
  destruct (String.eqb (Get form "api_name_orig") "" &&
            bool_decide (is_Some (getApiByName w (Get form "api_name"))))
    eqn:Hdup.
  { split; [done|]. intros (_ & Hn & _). exfalso. apply Hn.
    apply andb_true_iff in Hdup as [H1 H2].
    apply String.eqb_eq in H1. by apply bool_decide_eq_true in H2. }
  rewrite host_name_check_never.
  destruct (host_loop _ 0 _ _ _ _) as [api|] eqn:Hloop.
  - split; [by repeat case_match|].
    intros (_ & _ & Hex). exfalso.
    assert (host_loop (default (newApi w (Get form "api_name"))
                         (getApiByName w (Get form "api_name"))) 0
              (index postForm "host_name") (index postForm "host_name_orig")
              (index postForm "host_url") (index postForm "host_note")
            = None) as Hnone by (by apply host_loop_None).
    congruence.
  - split; [|done]. intros _. split_and!; [by eexists| |].
    + intros [H1 H2]. apply andb_false_iff in Hdup as [H|H].
      * apply String.eqb_neq in H. done.
      * by apply bool_decide_eq_false in H.
    + by apply host_loop_None in Hloop.
Qed.

(** what [apiBaseSave] does once the host loop is through: the API [api]
    with the submitted fields is put into the registry when it came from
    there, the API of the old name is deleted, and [api.Save()] decides
    the answer *)
Lemma apiBaseSave_inv `{St : Store} (w : World) (form postForm : Values)
  (w' : World) (outs : list AdminOut) (timeout : Z) :
  apiBaseSave w form postForm = Some (w', outs) →
  GoStrconv.ParseInt (Get form "timeout") = Some timeout →
  ¬ (Get form "api_name_orig" = "" ∧
     is_Some (getApiByName w (Get form "api_name"))) →
  ∃ (api : Api.t) (w2 : World),
    Api.Path api = Get form "path" ∧
    Api.Enable api = String.eqb (Get form "enable") "1" ∧
    Api.TimeoutMs api = timeout ∧
    Api.Note api = Get form "note" ∧
    w2 = (let w1 := write_through w
                      (bool_decide
                         (is_Some (getApiByName w (Get form "api_name"))))
                      (Get form "api_name") api in
          if String.eqb (Get form "api_name_orig") (Get form "api_name")
          then w1 else deleteApi w1 (Get form "api_name_orig")) ∧
    ∃ final,
      outs
      = (if bool_decide (List.length (index postForm "host_name")
                         ≠ List.length (index postForm "host_url")) ||
            bool_decide (List.length (index postForm "host_name")
                         ≠ List.length (index postForm "host_note"))
         then [Alert "保存失败：后端服务数据错误"] else []) ++ [final] ∧
      ((∃ err, Save (disk w2) api = inr err ∧ w' = w2 ∧
               final = Alert ("保存失败：" +:+ err)) ∨
       (∃ d, Save (disk w2) api = inl d ∧
             w' = (loadApi (set_disk w2 d) (Get form "api_name")).1 ∧
             final = AlertAndGo "已经更新！"
                                ("/_api?name=" +:+ Get form "api_name"))).
Proof.
  unfold apiBaseSave. intros Hsave Ht Hdup. rewrite Ht in Hsave.
  assert (String.eqb (Get form "api_name_orig") "" &&
          bool_decide (is_Some (getApiByName w (Get form "api_name")))
          = false) as Hd.
  { apply not_true_is_false. intros [H1 H2]%andb_true_iff. apply Hdup.
    apply String.eqb_eq in H1. by apply bool_decide_eq_true in H2. }
  rewrite Hd, host_name_check_never in Hsave.
  destruct (host_loop _ 0 _ _ _ _) as [api|]; [|done].
  eexists (set_base (HostCheckDelete api (index postForm "host_name"))
                    (Get form "note") timeout
                    (String.eqb (Get form "enable") "1") (Get form "path")),
          _.
  split_and!; [reflexivity..|].
  destruct (Save _ _) as [d|err] eqn:HS; injection Hsave as <- <-;
    eexists; (split; [reflexivity|]); [right|left]; eauto.
Qed.

Lemma getApiByName_write_through `{St : Store} (w : World) (b : bool)
  (n n' : string) (api : Api.t) :
  n' ≠ n →
  getApiByName (write_through w b n api) n' = getApiByName w n'.
Proof.
  intros Hne. unfold write_through, getApiByName.
  destruct b; [|done]. cbn. by rewrite lookup_insert_ne.
Qed.

Lemma getApiByName_deleteApi `{St : Store} (w : World) (n : string) :
  getApiByName (deleteApi w n) n = None.
Proof.
  unfold deleteApi, getApiByName.
  destruct (Apis (server w) !! n) eqn:Hn; [|done]. cbn.
  by rewrite lookup_delete_eq.
Qed.

Lemma getApiByName_deleteApi_ne `{St : Store} (w : World) (n n' : string) :
  n' ≠ n → getApiByName (deleteApi w n) n' = getApiByName w n'.
Proof.
  intros Hne. unfold deleteApi, getApiByName.
  destruct (Apis (server w) !! n) eqn:Hn; [|done]. cbn.
  by rewrite lookup_delete_ne.
Qed.

(** X14: The alert for slices of different lengths does not end
    [apiBaseSave]: when the lengths of [host_name], [host_url] and
    [host_note] differ and no index is out of range, the alert is
    followed by the outcome of [api.Save()], and on success the definition
    with the submitted path, timeout, note and enable flag has been
    saved. *)
Theorem length_mismatch_saves `{St : Store} (w : World)
  (form postForm : Values) (w' : World) (outs : list AdminOut)
  (timeout : Z) :
  apiBaseSave w form postForm = Some (w', outs) →
  GoStrconv.ParseInt (Get form "timeout") = Some timeout →
  ¬ (Get form "api_name_orig" = "" ∧
     is_Some (getApiByName w (Get form "api_name"))) →
  List.length (index postForm "host_name")
  ≠ List.length (index postForm "host_url") ∨
  List.length (index postForm "host_name")
  ≠ List.length (index postForm "host_note") →
  ∃ final,
    outs = [Alert "保存失败：后端服务数据错误"; final] ∧
    ((∃ err, final = Alert ("保存失败：" +:+ err)) ∨
     (final = AlertAndGo "已经更新！" ("/_api?name=" +:+ Get form "api_name") ∧
      ∃ api d,
        Save d api = inl (disk w') ∧
        Api.Path api = Get form "path" ∧
        Api.Enable api = String.eqb (Get form "enable") "1" ∧
        Api.TimeoutMs api = timeout ∧ Api.Note api = Get form "note")).
Proof.
  intros Hsave Ht Hdup Hlen.
  destruct (apiBaseSave_inv _ _ _ _ _ _ Hsave Ht Hdup)
    as (api & w2 & Hp & He & Hto & Hn & _ & final & -> & Hfinal).
  assert (bool_decide (List.length (index postForm "host_name")
                       ≠ List.length (index postForm "host_url")) ||
          bool_decide (List.length (index postForm "host_name")
                       ≠ List.length (index postForm "host_note")) = true)
    as ->.
  { apply orb_true_iff. destruct Hlen; [left|right];
      by apply bool_decide_eq_true. }
  exists final. split; [done|].
  destruct Hfinal as [(err & _ & _ & ->)|(d & HS & -> & ->)]; [left; eauto|].
  right. split; [done|]. exists api, (disk w2).
  destruct (loadApi_attempt (set_disk w2 d) (Get form "api_name"))
    as (_ & -> & _).
  by split_and!.
Qed.

(** X15: A save that fails is not rolled back: [apiBaseSave] edits the API in
    the registry before it calls [api.Save()], so when the save of a
    registered API fails, the registry holds the API with the submitted
    path, timeout, note and enable flag all the same. *)
Theorem failed_save_not_rolled_back `{St : Store} (w : World)
  (form postForm : Values) (w' : World) (outs : list AdminOut)
  (timeout : Z) (err : string) :
  apiBaseSave w form postForm = Some (w', outs) →
  GoStrconv.ParseInt (Get form "timeout") = Some timeout →
  Get form "api_name_orig" ≠ "" →
  is_Some (getApiByName w (Get form "api_name")) →
  last outs = Some (Alert ("保存失败：" +:+ err)) →
  ∃ api,
    getApiByName w' (Get form "api_name") = Some api ∧
    Api.Path api = Get form "path" ∧
    Api.Enable api = String.eqb (Get form "enable") "1" ∧
    Api.TimeoutMs api = timeout ∧ Api.Note api = Get form "note".
Proof.
  intros Hsave Ht Horig Hreg Hlast.
  destruct (apiBaseSave_inv _ _ _ _ _ _ Hsave Ht)
    as (api & w2 & Hp & He & Hto & Hn & Hw2 & final & -> & Hfinal);
    [by intros [? _]|].
  rewrite last_snoc in Hlast. injection Hlast as ->.
  destruct Hfinal as [(err' & _ & -> & _)|(d & _ & _ & [=])].
  exists api. split_and!; [|done..]. rewrite Hw2.
  rewrite (bool_decide_eq_true_2 _ Hreg).
  assert (Hwt : getApiByName (write_through w true (Get form "api_name") api)
                             (Get form "api_name") = Some api).
  { unfold write_through, getApiByName. cbn. by rewrite lookup_insert_eq. }
  cbn zeta.
  destruct (String.eqb_spec (Get form "api_name_orig") (Get form "api_name"))
    as [Heq|Hne]; [done|].
  rewrite getApiByName_deleteApi_ne by done. done.
Qed.

(** X16: A save under a new name removes the API of the old name from the
    registry before [api.Save()] is called: whether the save then succeeds
    or fails, the old name is gone. *)
Theorem rename_drops_old `{St : Store} (w : World)
  (form postForm : Values) (w' : World) (outs : list AdminOut) :
  apiBaseSave w form postForm = Some (w', outs) →
  is_Some (GoStrconv.ParseInt (Get form "timeout")) →
  ¬ (Get form "api_name_orig" = "" ∧
     is_Some (getApiByName w (Get form "api_name"))) →
  Get form "api_name_orig" ≠ Get form "api_name" →
  getApiByName w' (Get form "api_name_orig") = None.
Proof.
  intros Hsave [timeout Ht] Hdup Hne.
  destruct (apiBaseSave_inv _ _ _ _ _ _ Hsave Ht Hdup)
    as (api & w2 & _ & _ & _ & _ & Hw2 & final & _ & Hfinal).
  apply String.eqb_neq in Hne as Hneb. rewrite Hneb in Hw2. cbn zeta in Hw2.
  assert (H2 : getApiByName w2 (Get form "api_name_orig") = None)
    by (rewrite Hw2; apply getApiByName_deleteApi).
  destruct Hfinal as [(err & _ & -> & _)|(d & _ & -> & _)]; [done|].
  unfold getApiByName. rewrite loadApi_other by done. exact H2.
Qed.

Lemma mismatch_outs :
  snd <$> apiBaseSave w_empty create_form mismatch_post
  = Some [Alert "保存失败：后端服务数据错误";
          AlertAndGo "已经更新！" "/_api?name=a"].
Proof. vm_compute. reflexivity. Qed.

(** [length_mismatch_saves] on the creation of [a] with one host name and
    two host URLs *)
Lemma length_mismatch_saves_two_urls :
  ∃ w' outs final,
    apiBaseSave w_empty create_form mismatch_post = Some (w', outs) ∧
    outs = [Alert "保存失败：后端服务数据错误"; final] ∧
    ((∃ err, final = Alert ("保存失败：" +:+ err)) ∨
     (final = AlertAndGo "已经更新！"
                         ("/_api?name=" +:+ Get create_form "api_name") ∧
      ∃ api d,
        Save d api = inl (disk w') ∧
        Api.Path api = Get create_form "path" ∧
        Api.Enable api = String.eqb (Get create_form "enable") "1" ∧
        Api.TimeoutMs api = 100 ∧ Api.Note api = Get create_form "note")).
Proof.
  pose proof mismatch_outs as Ho.
  destruct (apiBaseSave w_empty create_form mismatch_post)
    as [[w' outs]|] eqn:Hsave; [|discriminate Ho].
  destruct (length_mismatch_saves w_empty create_form mismatch_post w' outs
              100 Hsave) as (final & Houts & Hfinal).
  - vm_compute. reflexivity.
  - intros [_ [api Hapi]]. vm_compute in Hapi. discriminate Hapi.
  - left. vm_compute. discriminate.
  - exists w', outs, final. split; [reflexivity|]. split; [exact Houts|].
    exact Hfinal.
Defined.

Lemma readonly_outs :
  snd <$> apiBaseSave w_readonly move_form one_host_post
  = Some [Alert ("保存失败：" +:+ "read-only file system")].
Proof. vm_compute. reflexivity. Qed.

(** [failed_save_not_rolled_back] on the move of [a] to [/b] when the
    directory cannot be written *)
Lemma failed_save_not_rolled_back_readonly :
  ∃ w' outs api,
    apiBaseSave w_readonly move_form one_host_post = Some (w', outs) ∧
    last outs = Some (Alert ("保存失败：" +:+ "read-only file system")) ∧
    getApiByName w' (Get move_form "api_name") = Some api ∧
    Api.Path api = Get move_form "path" ∧
    Api.Enable api = String.eqb (Get move_form "enable") "1" ∧
    Api.TimeoutMs api = 250 ∧ Api.Note api = Get move_form "note".
Proof.
  pose proof readonly_outs as Ho.
  destruct (apiBaseSave w_readonly move_form one_host_post)
    as [[w' outs]|] eqn:Hsave; [|discriminate Ho].
  injection Ho as Ho.
  assert (Hlast : last outs
                  = Some (Alert ("保存失败：" +:+ "read-only file system")))
    by (rewrite Ho; reflexivity).
  destruct (failed_save_not_rolled_back w_readonly move_form one_host_post
              w' outs 250 "read-only file system" Hsave)
    as (api & Hget & Hrest).
  - vm_compute. reflexivity.
  - vm_compute. discriminate.
  - vm_compute. eexists. reflexivity.
  - exact Hlast.
  - exists w', outs, api. split; [reflexivity|]. split; [exact Hlast|].
    split; [exact Hget|exact Hrest].
Defined.

Lemma rename_outs :
  snd <$> apiBaseSave w_bound rename_form one_host_post
  = Some [AlertAndGo "已经更新！" "/_api?name=b"].
Proof. vm_compute. reflexivity. Qed.

(** [rename_drops_old] on the save of [a] under the name [b] *)
Lemma rename_drops_old_a :
  ∃ w' outs,
    apiBaseSave w_bound rename_form one_host_post = Some (w', outs) ∧
    is_Some (getApiByName w_bound (Get rename_form "api_name_orig")) ∧
    getApiByName w' (Get rename_form "api_name_orig") = None.
Proof.
  pose proof rename_outs as Ho.
  destruct (apiBaseSave w_bound rename_form one_host_post)
    as [[w' outs]|] eqn:Hsave; [|discriminate Ho].
  exists w', outs. split; [reflexivity|]. split.
  - vm_compute. eexists. reflexivity.
  - apply (rename_drops_old w_bound rename_form one_host_post w' outs Hsave).
    + vm_compute. eexists. reflexivity.
    + intros [Hempty _]. vm_compute in Hempty. discriminate Hempty.
    + vm_compute. discriminate.
Defined.

Lemma conflict_datas :
  index conflict_form "datas[]"
  = ["ip=10.0.0.7&host_names=h1&host_ignore=h1"].
Proof. vm_compute. reflexivity. Qed.

Lemma conflict_item :
  caller_item_of
    (ParseQuery (Store:=spec_store dir)
                "ip=10.0.0.7&host_names=h1&host_ignore=h1")
  = {| CallerItem.Ip := "10.0.0.7"; CallerItem.Note := "";
       CallerItem.Enable := false; CallerItem.Pref := ["h1"];
       CallerItem.Ignore := ["h1"] |}.
Proof. vm_compute. reflexivity. Qed.

(** X17: A caller save in which some rule prefers a host and ignores it is
    rejected at the first such rule: the answer is the JSON result with
    code 1 that names the IP of the rule and the host, nothing is saved
    and the registry, the routes and the disk stay as they are. *)
Theorem caller_conflict_rejected `{St : Store} (w : World) (form : Values)
  (api : Api.t) :
  getApiByName w (Get form "api_name") = Some api →
  Exists (λ qs, overlaps (caller_item_of (ParseQuery qs)))
         (index form "datas[]") →
  ∃ qs name,
    qs ∈ index form "datas[]" ∧
    name ∈ CallerItem.Ignore (caller_item_of (ParseQuery qs)) ∧
    name ∈ CallerItem.Pref (caller_item_of (ParseQuery qs)) ∧
    apiCallerSave w form
    = (w, [Json 1 ("配置冲突(" +:+
                   CallerItem.Ip (caller_item_of (ParseQuery qs)) +:+ ")" +:+
                   newline +:+ "屏蔽:" +:+ name)]).
Proof.
  intros Hapi Hex. unfold apiCallerSave. rewrite Hapi.
  destruct (caller_loop_rejects _ NewCaller Hex)
    as (qs & name & Hin & Hignore & Hpref & ->).
  exists qs, name. by split_and!.
Qed.

(** [caller_conflict_rejected] on a rule of [10.0.0.7] that prefers [h1]
    and ignores it *)
Lemma caller_conflict_rejected_h1 :
  ∃ qs name,
    qs ∈ index conflict_form "datas[]" ∧
    name ∈ CallerItem.Ignore
             (caller_item_of (ParseQuery (Store:=spec_store dir) qs)) ∧
    name ∈ CallerItem.Pref
             (caller_item_of (ParseQuery (Store:=spec_store dir) qs)) ∧
    apiCallerSave w_bound conflict_form
    = (w_bound,
       [Json 1 ("配置冲突(" +:+
                CallerItem.Ip
                  (caller_item_of (ParseQuery (Store:=spec_store dir) qs))
                +:+ ")" +:+ newline +:+ "屏蔽:" +:+ name)]).
Proof.
  destruct (getApiByName w_bound (Get conflict_form "api_name"))
    as [api|] eqn:Hget; [|vm_compute in Hget; discriminate Hget].
  apply (caller_conflict_rejected w_bound conflict_form api Hget).
  rewrite conflict_datas. apply Exists_cons_hd.
  exists "h1". rewrite conflict_item.
  split; apply list_elem_of_here.
Defined.

(** ** The server and its administrative pages *)

Lemma digit_char_cases (d : Z) :
  0 ≤ d < 10 →
  GoFmt.digit_char d ∈
    ["0"; "1"; "2"; "3"; "4"; "5"; "6"; "7"; "8"; "9"]%char ∧
  GoStrconv.digit (GoFmt.digit_char d) = Some d.
Proof.
  intros Hd.
  assert (d = 0 ∨ d = 1 ∨ d = 2 ∨ d = 3 ∨ d = 4 ∨ d = 5 ∨ d = 6 ∨ d = 7 ∨
          d = 8 ∨ d = 9) as Hc by lia.
  repeat destruct Hc as [->|Hc]; try subst d;
    (split; [|reflexivity]); set_solver.
Qed.

Lemma numeral_no_colon (s : string) : numeral s → has_byte ":" s = false.
Proof.
  unfold numeral, has_byte. intros Hs. apply not_true_is_false.
  rewrite existsb_exists. intros (c & Hin%list_elem_of_In & Hc).
  apply Ascii.eqb_eq in Hc as <-. specialize (Hs _ Hin).
  repeat (apply elem_of_cons in Hs as [Hs|Hs]; [discriminate Hs|]).
  by apply elem_of_nil in Hs.
Qed.

Lemma list_ascii_app (a b : string) :
  list_ascii_of_string (a +:+ b)
  = list_ascii_of_string a ++ list_ascii_of_string b.
Proof.
  induction a as [|x a IH]; [done|]. rewrite str_app_cons. cbn. by rewrite IH.
Qed.

Lemma format_pos_spec (fuel : nat) : ∀ (n : Z) (acc : string),
  0 ≤ n → (Z.to_nat n < fuel)%nat →
  ∃ s, GoFmt.format_pos fuel n acc = s +:+ acc ∧ s ≠ "" ∧ numeral s ∧
       ∀ a t, GoStrconv.digits a (s +:+ t)
              = GoStrconv.digits (a * 10 ^ Z.of_nat (String.length s) + n) t.
Proof.
  induction fuel as [|fuel IH]; intros n acc Hn Hfuel; [lia|].
  cbn [GoFmt.format_pos].
  assert (Hmod : 0 ≤ n mod 10 < 10) by (apply Z.mod_pos_bound; lia).
  destruct (digit_char_cases _ Hmod) as [Hchar Hdigit].
  destruct (Z.ltb_spec n 10) as [Hlt|Hge].
  - exists (String (GoFmt.digit_char (n mod 10)) "").
    split_and!; [done|done| |].
    + intros c Hc. cbn in Hc. by apply list_elem_of_singleton in Hc as ->.
    + intros a t. rewrite str_app_cons, str_app_nil_l.
      cbn [GoStrconv.digits String.length]. rewrite Hdigit.
      rewrite Z.mod_small by lia. f_equal. lia.
  - destruct (IH (n / 10) (String (GoFmt.digit_char (n mod 10)) acc))
      as (s & Hs & Hne & Hnum & Hdig).
    { apply Z.div_pos; lia. }
    { assert (n / 10 < n) by (apply Z.div_lt; lia). lia. }
    exists (s +:+ String (GoFmt.digit_char (n mod 10)) "").
    split_and!.
    + by rewrite Hs, str_app_assoc.
    + by destruct s.
    + intros c. rewrite list_ascii_app, elem_of_app. intros [Hc|Hc].
      * by apply Hnum.
      * cbn in Hc. by apply list_elem_of_singleton in Hc as ->.
    + intros a t. rewrite str_app_assoc, str_app_cons, str_app_nil_l, Hdig.
      cbn [GoStrconv.digits]. rewrite Hdigit. f_equal.
      rewrite str_length_app. cbn [String.length].
      rewrite Nat2Z.inj_add, Z.pow_add_r by lia.
      change (10 ^ Z.of_nat 1) with 10.
      pose proof (Z.div_mod n 10 ltac:(lia)). lia.
Qed.

(** the numeral of a number that is not negative *)
Lemma Sprintf_d_pos (n : Z) :
  0 ≤ n →
  ∃ c r, GoFmt.Sprintf_d n = String c r ∧ numeral (String c r) ∧
         GoStrconv.digits 0 (String c r) = Some n.
Proof.
  intros Hn. unfold GoFmt.Sprintf_d.
  rewrite (proj2 (Z.ltb_ge n 0)) by done.
  destruct (format_pos_spec (S (Z.to_nat n)) n "" Hn ltac:(lia))
    as (s & Hs & Hne & Hnum & Hdig).
  rewrite str_app_nil_r in Hs. destruct s as [|c r]; [done|].
  exists c, r. split_and!; [done..|].
  specialize (Hdig 0 ""). rewrite str_app_nil_r in Hdig. rewrite Hdig.
  cbn [GoStrconv.digits]. f_equal; lia.
Qed.

Lemma Sprintf_d_neg (n : Z) :
  n < 0 →
  ∃ c r, GoFmt.Sprintf_d n = String "-" (String c r) ∧
         numeral (String c r) ∧
         GoStrconv.digits 0 (String c r) = Some (- n).
Proof.
  intros Hn. unfold GoFmt.Sprintf_d.
  rewrite (proj2 (Z.ltb_lt n 0)) by done.
  destruct (format_pos_spec (S (Z.to_nat (- n))) (- n) "" ltac:(lia)
              ltac:(lia)) as (s & Hs & Hne & Hnum & Hdig).
  rewrite str_app_nil_r in Hs. destruct s as [|c r]; [done|].
  exists c, r. split_and!; [by rewrite Hs|done|].
  specialize (Hdig 0 ""). rewrite str_app_nil_r in Hdig. rewrite Hdig.
  cbn [GoStrconv.digits]. f_equal; lia.
Qed.

Lemma Sprintf_d_no_colon (n : Z) : has_byte ":" (GoFmt.Sprintf_d n) = false.
Proof.
  destruct (Z.lt_ge_cases n 0) as [Hn|Hn].
  - destruct (Sprintf_d_neg n Hn) as (c & r & -> & Hnum & _).
    apply numeral_no_colon in Hnum. unfold has_byte in *.
    cbn [existsb list_ascii_of_string] in *. by rewrite Hnum.
  - destruct (Sprintf_d_pos n Hn) as (c & r & -> & Hnum & _).
    by apply numeral_no_colon.
Qed.

Lemma Sprintf_d_not_empty (n : Z) : GoFmt.Sprintf_d n ≠ "".
Proof.
  destruct (Z.lt_ge_cases n 0) as [Hn|Hn].
  - by destruct (Sprintf_d_neg n Hn) as (c & r & -> & _).
  - by destruct (Sprintf_d_pos n Hn) as (c & r & -> & _).
Qed.

Lemma Sprintf_d_signed (n : Z) : signed (GoFmt.Sprintf_d n) = Some n.
Proof.
  unfold signed.
  destruct (Z.lt_ge_cases n 0) as [Hn|Hn].
  - destruct (Sprintf_d_neg n Hn) as (c & r & -> & _ & Hd).
    unfold GoStrconv.unsigned. rewrite Hd. cbn. f_equal. lia.
  - destruct (Sprintf_d_pos n Hn) as (c & r & -> & Hnum & Hd).
    assert (Hc : c ∈ ["0"; "1"; "2"; "3"; "4"; "5"; "6"; "7"; "8"; "9"]%char)
      by (apply Hnum; cbn; apply list_elem_of_here).
    unfold GoStrconv.unsigned.
    repeat (apply elem_of_cons in Hc as [->|Hc]; [exact Hd|]).
    by apply elem_of_nil in Hc.
Qed.

Lemma ParseInt_value_Sprintf_d (n : Z) :
  - 2 ^ 63 ≤ n < 2 ^ 63 → ParseInt_value (GoFmt.Sprintf_d n) = n.
Proof.
  intros Hn.
  change (ParseInt_value (GoFmt.Sprintf_d n))
    with (match signed (GoFmt.Sprintf_d n) with
          | Some n =>
              if n <? - 2 ^ 63 then - 2 ^ 63
              else if 2 ^ 63 <=? n then 2 ^ 63 - 1 else n
          | None => 0
          end).
  rewrite Sprintf_d_signed.
  rewrite (proj2 (Z.ltb_ge n (- 2 ^ 63))) by lia.
  by rewrite (proj2 (Z.leb_gt (2 ^ 63) n)) by lia.
Qed.

Lemma ParseInt_Sprintf_d (n : Z) :
  - 2 ^ 63 ≤ n < 2 ^ 63 → GoStrconv.ParseInt (GoFmt.Sprintf_d n) = Some n.
Proof.
  intros Hn.
  change (GoStrconv.ParseInt (GoFmt.Sprintf_d n))
    with (match signed (GoFmt.Sprintf_d n) with
          | Some n =>
              if (- 2 ^ 63 <=? n) && (n <? 2 ^ 63) then Some n else None
          | None => None
          end).
  rewrite Sprintf_d_signed.
  rewrite (proj2 (Z.leb_le (- 2 ^ 63) n)) by lia.
  by rewrite (proj2 (Z.ltb_lt n (2 ^ 63))) by lia.
Qed.

(** X18: A path below [/_res/] is handed to the static files as [/res/]
    followed by the path from its fifth byte on, the slash before the file
    name included: [/_res/<rest>] becomes [/res//<rest>]. The slice cannot
    panic, and nothing else is looked at, the [Host] header neither. *)
Theorem static_path_rewritten `{St : Store} (w : World) (req : WebRequest) :
  GoStrings.HasPrefix (wr_Path req) "/_res/" = true →
  ∃ rest, wr_Path req = "/_res/" +:+ rest ∧
          WebAdmin_ServeHTTP w req = Some (w, [Asset ("/res//" +:+ rest)]).
Proof.
  intros Hpre. unfold WebAdmin_ServeHTTP. rewrite Hpre.
  destruct (prefix_split _ _ Hpre) as [rest Hrest]. exists rest.
  split; [done|]. rewrite Hrest.
  change ("/_res/" +:+ rest) with ("/_res" +:+ ("/" +:+ rest)).
  change 5%nat with (String.length "/_res"). by rewrite slice_from_app.
Qed.

(** [static_path_rewritten] on [/_res/css/a.css] *)
Lemma static_path_rewritten_css :
  ∃ rest, "/_res/css/a.css" = "/_res/" +:+ rest ∧
          WebAdmin_ServeHTTP w_empty (admin_get "gateway.example"
                                                "/_res/css/a.css")
          = Some (w_empty, [Asset ("/res//" +:+ rest)]).
Proof.
  exact (static_path_rewritten w_empty
           (admin_get "gateway.example" "/_res/css/a.css") eq_refl).
Defined.

Lemma host_values_no_colon (host : string) :
  has_byte ":" host = false → host_values host = None.
Proof. intros Hh. unfold host_values. by rewrite Split_no_colon. Qed.

(** X19: Every administrative page and every save panics on a request whose
    [Host] header has no colon (a host without a port): [execute] indexes
    [host_info[1]] before it looks at the path, so nothing is rendered,
    nothing is saved and the registry stays as it is. *)
Theorem admin_needs_port `{St : Store} (w : World) (req : WebRequest) :
  has_byte ":" (wr_Host req) = false →
  GoStrings.HasPrefix (wr_Path req) "/_res/" = false →
  WebAdmin_ServeHTTP w req = None.
Proof.
  intros Hh Hp. unfold WebAdmin_ServeHTTP, execute.
  by rewrite Hp, host_values_no_colon.
Qed.

(** [admin_needs_port] on the [POST] that creates [a], sent to
    [gateway.example] *)
Lemma admin_needs_port_create :
  WebAdmin_ServeHTTP w_empty create_post = None.
Proof. exact (admin_needs_port w_empty create_post eq_refl eq_refl). Defined.

Lemma Split_second (name p : string) :
  has_byte ":" name = false → has_byte ":" p = false →
  GoStrings.Split (name +:+ ":" +:+ p) ":" = [name; p].
Proof.
  intros Hn Hp. by rewrite Split_colon, (Split_no_colon p).
Qed.

(** X20: What [execute] reads from a [Host] header [<name>:<port>]: the name
    before the colon and the port as a number, for every port of 64 bits
    written in decimal; a header [<name>:] with an empty port gives the
    port 80; and a request sent to the name followed by the address
    [Start] listens on gives the port of the server. *)
Theorem host_values_port (name : string) :
  has_byte ":" name = false →
  (∀ port, - 2 ^ 63 ≤ port < 2 ^ 63 →
     host_values (name +:+ ":" +:+ GoFmt.Sprintf_d port)
     = Some {| base_url :=
                 "http://" +:+ (name +:+ ":" +:+ GoFmt.Sprintf_d port)
                 +:+ "/";
               host_name := name; host_port := port |}) ∧
  host_values (name +:+ ":" +:+ "")
  = Some {| base_url := "http://" +:+ (name +:+ ":" +:+ "") +:+ "/";
            host_name := name; host_port := 80 |} ∧
  (∀ (St : Store) (w : World),
     - 2 ^ 63 ≤ Port (server w) < 2 ^ 63 →
     host_port <$> host_values (name +:+ (Start w).2)
     = Some (Port (server w))).
Proof.
  intros Hname.
  assert (Hport : ∀ port, - 2 ^ 63 ≤ port < 2 ^ 63 →
     host_values (name +:+ ":" +:+ GoFmt.Sprintf_d port)
     = Some {| base_url :=
                 "http://" +:+ (name +:+ ":" +:+ GoFmt.Sprintf_d port)
                 +:+ "/";
               host_name := name; host_port := port |});
    [|split; [exact Hport|split];
      [|intros St w Hp; cbn [Start snd]; by rewrite (Hport _ Hp)]].
  - intros port Hport. unfold host_values.
    rewrite Split_second by (done || apply Sprintf_d_no_colon).
    cbn [lookup list_lookup hd].
    pose proof (Sprintf_d_not_empty port) as Hne.
    apply String.eqb_neq in Hne. rewrite Hne.
    by rewrite ParseInt_value_Sprintf_d.
  - unfold host_values. rewrite Split_second by done.
    cbn [lookup list_lookup hd]. reflexivity.
Qed.

(** [host_values_port] on [gateway.example:8080] and on
    [gateway.example:] *)
Lemma host_values_port_8080 :
  (∀ port, - 2 ^ 63 ≤ port < 2 ^ 63 →
     host_values ("gateway.example" +:+ ":" +:+ GoFmt.Sprintf_d port)
     = Some {| base_url :=
                 "http://" +:+
                 ("gateway.example" +:+ ":" +:+ GoFmt.Sprintf_d port)
                 +:+ "/";
               host_name := "gateway.example"; host_port := port |}) ∧
  host_values ("gateway.example" +:+ ":" +:+ "")
  = Some {| base_url := "http://" +:+ ("gateway.example" +:+ ":" +:+ "")
                        +:+ "/";
            host_name := "gateway.example"; host_port := 80 |} ∧
  (∀ (St : Store) (w : World),
     - 2 ^ 63 ≤ Port (server w) < 2 ^ 63 →
     host_port <$> host_values ("gateway.example" +:+ (Start w).2)
     = Some (Port (server w))).
Proof. exact (host_values_port "gateway.example" eq_refl). Defined.

(** X21: The servers of one manager have one configuration directory for each
    port: [NewApiServer] gives two different ports of 64 bits two
    different directories [ConfDir]. *)
Theorem conf_dir_per_port (confDir : string) (p p' : Z) :
  - 2 ^ 63 ≤ p < 2 ^ 63 → - 2 ^ 63 ≤ p' < 2 ^ 63 → p ≠ p' →
  ConfDir (NewApiServer confDir p) ≠ ConfDir (NewApiServer confDir p').
Proof.
  intros Hp Hp' Hne Heq. apply Hne. cbn [NewApiServer ConfDir] in Heq.
  apply String.app_inj in Heq. apply String.app_inj in Heq.
  rewrite <-(ParseInt_value_Sprintf_d p), <-(ParseInt_value_Sprintf_d p')
    by done.
  by rewrite Heq.
Qed.

(** [conf_dir_per_port] on the ports 8080 and 8081 *)
Lemma conf_dir_per_port_8080 :
  ConfDir (NewApiServer "conf" 8080) = "conf/api_8080" ∧
  ConfDir (NewApiServer "conf" 8080) ≠ ConfDir (NewApiServer "conf" 8081).
Proof.
  split; [reflexivity|].
  apply (conf_dir_per_port "conf" 8080 8081); lia.
Defined.

(** X22: The template function [myNum] prints nothing for 0 and nothing else,
    and the decimal numeral of every other number: [strconv.ParseInt]
    reads the number back. *)
Theorem myNum_numeral (n : Z) :
  - 2 ^ 63 ≤ n < 2 ^ 63 →
  (myNum n = "" ↔ n = 0) ∧
  (n ≠ 0 → GoStrconv.ParseInt (myNum n) = Some n).
Proof.
  intros Hn. unfold myNum. destruct (Z.eqb_spec n 0) as [->|Hne].
  - split; [done|]. by intros [].
  - split; [|intros _; by apply ParseInt_Sprintf_d].
    split; [intros Hempty; by apply Sprintf_d_not_empty in Hempty|done].
Qed.

(** [myNum_numeral] on the timeout of 250 ms *)
Lemma myNum_numeral_250 :
  (myNum 250 = "" ↔ 250 = 0) ∧
  (250 ≠ 0 → GoStrconv.ParseInt (myNum 250) = Some 250).
Proof. apply (myNum_numeral 250). lia. Defined.
